(** * traders-voice: the trade-note extractor and its summary formatter

    A shallow embedding of [tradeExtractor.js] (lookup tables,
    [parseNumber], [extractTradeInfo], [formatNumber],
    [generateTradeSummary]) and of the pure part of [savedNotes.js]
    (clipboard text, search, the note limit) with the handlers of
    [main.js] that write the note list, together with the part of the JavaScript
    runtime the module relies on: strings, the regular expressions it
    writes, objects with deletable keys, and numbers.

    Modelling conventions.
    - A JavaScript string is a [string] of 8-bit characters; case mapping
      acts on the letters a-z / A-Z only (transcripts are ASCII).
    - A JavaScript number is an exact rational [Q] kept in lowest terms;
      binary rounding and overflow of doubles are outside the model, and
      NaN is the [None] of an [option].
    - Every regular expression of the module carries the [i] flag, so the
      matcher compares characters up to case. *)

From Stdlib Require Import String Ascii List Bool Arith NArith ZArith QArith Lia.
Import ListNotations.

Local Open Scope string_scope.
Local Open Scope nat_scope.

(** ** Characters and strings *)

Module JsString.

Definition code (c : ascii) : N := N_of_ascii c.

Definition in_range (lo hi : N) (c : ascii) : bool :=
  (lo <=? code c)%N && (code c <=? hi)%N.

Definition is_lower : ascii -> bool := in_range 97 122.
Definition is_upper : ascii -> bool := in_range 65 90.
Definition is_digit : ascii -> bool := in_range 48 57.

Definition upper_char (c : ascii) : ascii :=
  if is_lower c then ascii_of_N (code c - 32) else c.

Definition lower_char (c : ascii) : ascii :=
  if is_upper c then ascii_of_N (code c + 32) else c.

(** [\w] of a regular expression: letters, digits and the underscore. *)
Definition is_word (c : ascii) : bool :=
  is_lower c || is_upper c || is_digit c || (code c =? 95)%N.

(** [\s]: tab, line feed, vertical tab, form feed, carriage return, space. *)
Definition is_space (c : ascii) : bool :=
  in_range 9 13 c || (code c =? 32)%N.

Definition is_line_terminator (c : ascii) : bool :=
  (code c =? 10)%N || (code c =? 13)%N.

Fixpoint map_chars (f : ascii -> ascii) (s : string) : string :=
  match s with
  | EmptyString => EmptyString
  | String c s' => String (f c) (map_chars f s')
  end.

Definition toUpperCase : string -> string := map_chars upper_char.
Definition toLowerCase : string -> string := map_chars lower_char.

(** [s.includes(needle)] *)
Fixpoint includes (s needle : string) : bool :=
  String.prefix needle s ||
  match s with
  | EmptyString => false
  | String _ s' => includes s' needle
  end.

(** [s.substring(i, j)] for [i <= j]. *)
Definition substring (i j : nat) (s : string) : string :=
  String.substring i (j - i) s.

(** [s.slice(i)] for a non-negative [i]. *)
Fixpoint slice (i : nat) (s : string) : string :=
  match i, s with
  | O, _ => s
  | S i', String _ s' => slice i' s'
  | S _, EmptyString => EmptyString
  end.

(** [s.charAt(0)] *)
Definition charAt0 (s : string) : string :=
  match s with
  | String c _ => String c EmptyString
  | EmptyString => EmptyString
  end.

(** [s.split(' ')[0]]: the text before the first space. *)
Fixpoint first_word (s : string) : string :=
  match s with
  | EmptyString => EmptyString
  | String c s' => if (code c =? 32)%N then EmptyString else String c (first_word s')
  end.

(** [arr.join(sep)] *)
Fixpoint join (sep : string) (l : list string) : string :=
  match l with
  | [] => EmptyString
  | [x] => x
  | x :: l' => x ++ sep ++ join sep l'
  end.

(** [arr.includes(x)] on an array of strings. *)
Definition mem (x : string) (l : list string) : bool :=
  existsb (String.eqb x) l.

(** [arr.push(x)] *)
Definition push (l : list string) (x : string) : list string := (l ++ [x])%list.

End JsString.

Import JsString.

(** ** Regular expressions

    The constructs the module's patterns use: literals, character
    classes, [.], sequence, ordered alternation, the greedy [?] on a
    group, greedy bounded or unbounded repetition of a single character
    class ([\s*], [\d+], [[\d,]+], [\d{1,2}], [[A-Z]{2,5}]), capturing
    groups, the assertion [\b] and the negative lookahead [(?!...)].
    The matcher is the backtracking matcher of the language
    specification in continuation-passing style. *)

Module Regex.

Inductive catom : Type :=
| CChar (c : ascii)            (* a literal member *)
| CRange (lo hi : ascii)       (* a-z *)
| CDigit                       (* \d *)
| CSpace.                      (* \s *)

Inductive regex : Type :=
| Eps
| Lit (s : string)                                (* a run of literal characters *)
| Cls (cs : list catom)                           (* [...] *)
| Dot                                             (* . *)
| Seq (r1 r2 : regex)
| Alt (r1 r2 : regex)                             (* r1|r2 *)
| Opt (r : regex)                                 (* (?:r)? *)
| Rep (cs : list catom) (lo : nat) (hi : option nat)  (* [...]{lo,hi} *)
| Grp (n : nat) (r : regex)                       (* the n-th capturing group *)
| WordB                                           (* \b *)
| NotAhead (r : regex).                           (* (?!r) *)

(** Canonicalize of the [i] flag: compare upper-cased characters. *)
Definition ci_eq (p c : ascii) : bool :=
  Ascii.eqb (upper_char p) (upper_char c).

Definition atom_ok (a : catom) (c : ascii) : bool :=
  match a with
  | CChar p => ci_eq p c
  | CRange lo hi =>
      in_range (code lo) (code hi) (upper_char c) ||
      in_range (code lo) (code hi) (lower_char c) ||
      in_range (code lo) (code hi) c
  | CDigit => is_digit c
  | CSpace => is_space c
  end.

Definition cls_ok (cs : list catom) (c : ascii) : bool :=
  existsb (fun a => atom_ok a c) cs.

Definition dot_ok (c : ascii) : bool := negb (is_line_terminator c).

(** The state of a match in progress: the character before the current
    position (for [\b]), the input still to read, the current index and
    the captures made so far. *)
Record mstate : Type := MState {
  prev : option ascii;
  rest : string;
  pos : nat;
  caps : list (nat * string)
}.

Definition cap_get (n : nat) (cs : list (nat * string)) : option string :=
  match find (fun p => Nat.eqb (fst p) n) cs with
  | Some p => Some (snd p)
  | None => None
  end.

Definition cap_set (n : nat) (v : string) (cs : list (nat * string)) :=
  (n, v) :: cs.

Definition word_before (s : mstate) : bool :=
  match prev s with Some c => is_word c | None => false end.

Definition word_after (s : mstate) : bool :=
  match rest s with String c _ => is_word c | EmptyString => false end.

Definition at_boundary (s : mstate) : bool :=
  xorb (word_before s) (word_after s).

Section Matcher.
Context {A : Type}.

(** Consume one character accepted by [ok]. *)
Definition step (ok : ascii -> bool) (s : mstate) (k : mstate -> option A)
  : option A :=
  match rest s with
  | String c r =>
      if ok c then k (MState (Some c) r (S (pos s)) (caps s)) else None
  | EmptyString => None
  end.

Fixpoint lit (l : string) (s : mstate) (k : mstate -> option A) : option A :=
  match l with
  | EmptyString => k s
  | String p l' => step (ci_eq p) s (fun s' => lit l' s' k)
  end.

(** Greedy repetition of a character class: take as many characters as
    allowed, then give them back one at a time. *)
Fixpoint rep (ok : ascii -> bool) (lo : nat) (hi : option nat)
         (p : option ascii) (r : string) (i : nat) (cs : list (nat * string))
         (k : mstate -> option A) : option A :=
  let stop := match lo with
              | O => k (MState p r i cs)
              | S _ => None
              end in
  match r with
  | String c r' =>
      if ok c && negb (match hi with Some O => true | _ => false end) then
        match rep ok (Nat.pred lo) (option_map Nat.pred hi) (Some c) r' (S i) cs k with
        | Some x => Some x
        | None => stop
        end
      else stop
  | EmptyString => stop
  end.
End Matcher.

Fixpoint m (A : Type) (r : regex) (s : mstate) (k : mstate -> option A)
  : option A :=
  match r with
  | Eps => k s
  | Lit l => lit l s k
  | Cls cs => step (cls_ok cs) s k
  | Dot => step dot_ok s k
  | Seq r1 r2 => m A r1 s (fun s1 => m A r2 s1 k)
  | Alt r1 r2 =>
      match m A r1 s k with
      | Some x => Some x
      | None => m A r2 s k
      end
  | Opt r1 =>
      (* an iteration that consumes nothing is refused *)
      match m A r1 s (fun s1 => if Nat.eqb (pos s1) (pos s) then None else k s1) with
      | Some x => Some x
      | None => k s
      end
  | Rep cs lo hi => rep (cls_ok cs) lo hi (prev s) (rest s) (pos s) (caps s) k
  | Grp n r1 =>
      m A r1 s (fun s1 =>
        k (MState (prev s1) (rest s1) (pos s1)
             (cap_set n (String.substring 0 (pos s1 - pos s) (rest s)) (caps s1))))
  | WordB => if at_boundary s then k s else None
  | NotAhead r1 =>
      match m unit r1 s (fun _ => Some tt) with
      | Some _ => None
      | None => k s
      end
  end.

(** The result of [str.match(re)] / [re.exec(str)] for a non-global
    expression: the index of the match, the index just after it, and the
    captures. *)
Record mresult : Type := MResult {
  index : nat;
  last : nat;
  groups : list (nat * string)
}.

(** [group r n] is [match[n]]: [None] is [undefined]. *)
Definition group (r : mresult) (n : nat) : option string := cap_get n (groups r).

Definition exec_at (r : regex) (p : option ascii) (t : string) (i : nat)
  : option mresult :=
  m mresult r (MState p t i [])
    (fun s => Some (MResult i (pos s) (caps s))).

(** Try every start position from left to right. *)
Fixpoint search_from (r : regex) (p : option ascii) (t : string) (i : nat)
  : option mresult :=
  match exec_at r p t i with
  | Some x => Some x
  | None =>
      match t with
      | String c t' => search_from r (Some c) t' (S i)
      | EmptyString => None
      end
  end.

(** [text.match(re)] *)
Definition exec (r : regex) (text : string) : option mresult :=
  search_from r None text 0.

(** [re.test(text)] *)
Definition test (r : regex) (text : string) : bool :=
  match exec r text with Some _ => true | None => false end.

(** [text.replace(re, by)] for an expression with the [g] flag: every
    match, left to right and without overlap, is replaced.  [skip] counts
    the characters of the current match still to drop. *)
Fixpoint replace_go (r : regex) (by_ : string) (p : option ascii) (t : string)
         (i skip : nat) : string :=
  match skip with
  | S skip' =>
      match t with
      | String c t' => replace_go r by_ (Some c) t' (S i) skip'
      | EmptyString => EmptyString
      end
  | O =>
      match exec_at r p t i with
      | Some x =>
          match last x - i with
          | S n =>
              match t with
              | String c t' => by_ ++ replace_go r by_ (Some c) t' (S i) n
              | EmptyString => by_
              end
          | O =>
              (* an empty match: insert and move one character on *)
              match t with
              | String c t' => by_ ++ String c (replace_go r by_ (Some c) t' (S i) 0)
              | EmptyString => by_
              end
          end
      | None =>
          match t with
          | String c t' => String c (replace_go r by_ (Some c) t' (S i) 0)
          | EmptyString => EmptyString
          end
      end
  end.

Definition replace_all (r : regex) (by_ : string) (text : string) : string :=
  replace_go r by_ None text 0 0.

(** Building blocks for the patterns below. *)
Fixpoint alts (l : list regex) : regex :=
  match l with
  | [] => NotAhead Eps            (* the empty alternation never matches *)
  | [r] => r
  | r :: l' => Alt r (alts l')
  end.

Definition words (l : list string) : regex := alts (map Lit l).

Fixpoint seqs (l : list regex) : regex :=
  match l with
  | [] => Eps
  | [r] => r
  | r :: l' => Seq r (seqs l')
  end.

Definition star (cs : list catom) : regex := Rep cs 0 None.
Definition plus (cs : list catom) : regex := Rep cs 1 None.
Definition ws_star : regex := star [CSpace].     (* \s* *)
Definition ws_plus : regex := plus [CSpace].     (* \s+ *)

(** [new RegExp(src)] for a source text whose only metacharacter is the
    dot (the stop-loss variants). *)
Fixpoint of_source (src : string) : regex :=
  match src with
  | EmptyString => Eps
  | String c src' =>
      Seq (if (code c =? 46)%N then Dot else Lit (String c EmptyString))
          (of_source src')
  end.

End Regex.

Import Regex.

(** ** Numbers *)

Module JsNumber.

Definition digit_val (c : ascii) : N := (code c - 48)%N.
Definition digit_char (d : N) : ascii := ascii_of_N (48 + d).

(** The longest prefix of decimal digits: its value, its length and what
    follows it. *)
Fixpoint take_digits (s : string) (acc : N) (n : nat) : N * nat * string :=
  match s with
  | String c s' =>
      if is_digit c then take_digits s' (acc * 10 + digit_val c)%N (S n)
      else (acc, n, s)
  | EmptyString => (acc, n, s)
  end.

Fixpoint skip_spaces (s : string) : string :=
  match s with
  | String c s' => if is_space c then skip_spaces s' else s
  | EmptyString => s
  end.

Definition take_sign (s : string) : bool * string :=
  match s with
  | String c s' =>
      if (code c =? 45)%N then (true, s')
      else if (code c =? 43)%N then (false, s')
      else (false, s)
  | EmptyString => (false, s)
  end.

Definition pow10 (n : nat) : positive := Z.to_pos (10 ^ Z.of_nat n).

Definition signed (neg : bool) (z : Z) : Z := if neg then (- z)%Z else z.

(** [parseFloat(s)]: leading blanks, a sign, digits and a fraction; the
    rest of the text is ignored.  [None] is NaN.  (Exponents and the word
    Infinity are not read: [parseNumber] only passes digits and a dot.)
    The value is the exact decimal: the rounding to the nearest double,
    and the overflow to Infinity of a text of more than 308 digits, are
    outside the model; statements that depend on them carry a bound. *)
Definition parseFloat (s : string) : option Q :=
  let (neg, s0) := take_sign (skip_spaces s) in
  let '(ip, ni, s1) := take_digits s0 0%N 0 in
  let '(fp, nf, _) :=
    match s1 with
    | String c s2 => if (code c =? 46)%N then take_digits s2 0%N 0 else (0%N, 0, s1)
    | EmptyString => (0%N, 0, s1)
    end in
  if Nat.eqb (ni + nf) 0 then None
  else Some (Qred (Qmake (signed neg (Z.of_N ip * Zpos (pow10 nf) + Z.of_N fp))
                         (pow10 nf))).

(** [parseInt(s, 10)] *)
Definition parseInt (s : string) : option Q :=
  let (neg, s0) := take_sign (skip_spaces s) in
  let '(ip, ni, _) := take_digits s0 0%N 0 in
  if Nat.eqb ni 0 then None else Some (inject_Z (signed neg (Z.of_N ip))).

Definition of_Z (z : Z) : Q := inject_Z z.

Definition leb (a b : Q) : bool := Qle_bool a b.
Definition ltb (a b : Q) : bool := negb (Qle_bool b a).
Definition is_zero (a : Q) : bool := Qeq_bool a 0.

(** Decimal digits of a natural number. *)
Fixpoint dec_digits (fuel : nat) (n : N) (acc : string) : string :=
  match fuel with
  | O => acc
  | S f =>
      let acc' := String (digit_char (n mod 10)) acc in
      if (n / 10 =? 0)%N then acc' else dec_digits f (n / 10)%N acc'
  end.

Definition N_to_string (n : N) : string :=
  dec_digits (S (N.to_nat (N.log2 n))) n EmptyString.

(** [|q|] rounded to hundredths, halves away from zero. *)
Definition hundredths (q : Q) : N :=
  Z.to_N ((200 * Z.abs (Qnum q) + Zpos (Qden q)) / (2 * Zpos (Qden q))).

Definition sign_text (q : Q) : string :=
  if ltb q 0 then "-" else "".

Definition two_digits (n : N) : string :=
  String (digit_char (n / 10)) (String (digit_char (n mod 10)) EmptyString).

(** [num.toFixed(2)], on the exact value (a double that is not a whole
    number of hundredths may round the other way at a tie), below 1e21. *)
Definition toFixed2 (q : Q) : string :=
  let h := hundredths q in
  sign_text q ++ N_to_string (h / 100) ++ "." ++ two_digits (h mod 100).

Definition three_digits (n : N) : string :=
  String (digit_char (n / 100))
    (String (digit_char ((n / 10) mod 10))
       (String (digit_char (n mod 10)) EmptyString)).

(** Thousands grouping of a natural number: the number of thousands,
    grouped, a comma, and the last three digits. *)
Fixpoint group_fuel (fuel : nat) (n : N) : string :=
  match fuel with
  | O => N_to_string n
  | S f =>
      if (n <? 1000)%N then N_to_string n
      else group_fuel f (n / 1000) ++ "," ++ three_digits (n mod 1000)
  end.

Definition group3 (n : N) : string := group_fuel (N.to_nat (N.log2 n)) n.

(** [num.toLocaleString('en-US', {minimumFractionDigits: 0,
    maximumFractionDigits: 2})] of a finite number. *)
Definition toLocaleString2 (q : Q) : string :=
  let h := hundredths q in
  let f := (h mod 100)%N in
  let frac :=
    if (f =? 0)%N then ""
    else if (f mod 10 =? 0)%N then String "." (String (digit_char (f / 10)) EmptyString)
    else String "." (two_digits f) in
  sign_text q ++ group3 (h / 100) ++ frac.

(** The digits of a fraction [r / d] by long division, until it ends or
    [fuel] digits are written. *)
Fixpoint frac_digits (fuel : nat) (r d : N) : string :=
  match fuel with
  | O => EmptyString
  | S f =>
      if (r =? 0)%N then EmptyString
      else String (digit_char (r * 10 / d)) (frac_digits f ((r * 10) mod d)%N d)
  end.

(** [String(num)] as a template literal writes it, for a number with a
    short decimal expansion. *)
Definition toString (q : Q) : string :=
  let n := Z.to_N (Z.abs (Qnum q)) in
  let d := Npos (Qden q) in
  let f := frac_digits 20 (n mod d)%N d in
  sign_text q ++ N_to_string (n / d) ++
  match f with EmptyString => "" | _ => String "." f end.

End JsNumber.

Import JsNumber.

(** ** Values, objects and exceptions *)

Inductive value : Type :=
| VUndefined
| VNull
| VBool (b : bool)
| VNum (q : Q)
| VStr (s : string)
| VArr (l : list string).

(** ToBoolean *)
Definition truthy (v : value) : bool :=
  match v with
  | VUndefined | VNull => false
  | VBool b => b
  | VNum q => negb (is_zero q)
  | VStr s => negb (String.eqb s "")
  | VArr _ => true
  end.

(** An object is its list of own properties in insertion order. *)
Definition object : Type := list (string * value).

Fixpoint obj_get (k : string) (o : object) : value :=
  match o with
  | [] => VUndefined
  | (k', v) :: o' => if String.eqb k' k then v else obj_get k o'
  end.

Fixpoint obj_set (k : string) (v : value) (o : object) : object :=
  match o with
  | [] => [(k, v)]
  | (k', v') :: o' =>
      if String.eqb k' k then (k, v) :: o' else (k', v') :: obj_set k v o'
  end.

Definition obj_keys (o : object) : list string := map fst o.

Definition obj_delete (k : string) (o : object) : object :=
  filter (fun p => negb (String.eqb (fst p) k)) o.

(** A computation that returns or throws. *)
Inductive outcome (A : Type) : Type :=
| Ret (a : A)
| Throw (error : string).
Arguments Ret {A} a.
Arguments Throw {A} error.

Definition bind {A B : Type} (c : outcome A) (f : A -> outcome B) : outcome B :=
  match c with
  | Ret a => f a
  | Throw e => Throw e
  end.

Notation "x <- c ;; k" := (bind c (fun x => k))
  (at level 61, c at next level, right associativity).

(** [x.toUpperCase()] where [x] may be [undefined]. *)
Definition call_toUpperCase (x : option string) : outcome string :=
  match x with
  | Some s => Ret (toUpperCase s)
  | None => Throw "TypeError: Cannot read properties of undefined"
  end.

(** A capture inside a template literal. *)
Definition template (x : option string) : string :=
  match x with
  | Some s => s
  | None => "undefined"
  end.

(** [a || b] on captures: the first one that is a non-empty string. *)
Definition or_else (a b : option string) : option string :=
  match a with
  | Some s => if String.eqb s "" then b else a
  | None => b
  end.

(** ** Lookup tables *)

Definition EXCLUDED_WORDS : list string :=
  [ "AT"; "THE"; "AND"; "FOR"; "WITH"; "USD"; "USDT"; "USDC"; "EUR"; "GBP";
    "BUY"; "SELL"; "LONG"; "SHORT"; "STOP"; "LOSS"; "TAKE"; "PROFIT"; "TARGET";
    "OPEN"; "CLOSE"; "SET"; "PUT"; "CALL"; "GET"; "TRADE"; "TRADING";
    "PRICE"; "SHARES"; "CONTRACTS"; "LOTS"; "QUANTITY"; "POSITION"; "SIZE";
    "MEET"; "MEAN"; "REVERSION"; "MARKET"; "LIMIT"; "ORDER" ].

Definition CRYPTO_TOKENS : list string :=
  [ "BTC"; "ETH"; "SOL"; "XRP"; "ADA"; "DOGE"; "DOT"; "MATIC"; "LINK"; "AVAX";
    "UNI"; "ATOM"; "LTC"; "BCH"; "XLM"; "ALGO"; "VET"; "FTM"; "NEAR"; "APT";
    "ARB"; "OP"; "INJ"; "SUI"; "SEI"; "TIA"; "PEPE"; "SHIB"; "BONK"; "WIF";
    "BNB"; "XMR" ].

Definition CRYPTO_NAME_TO_TICKER : list (string * string) :=
  [ ("BITCOIN", "BTC"); ("ETHEREUM", "ETH"); ("SOLANA", "SOL");
    ("CARDANO", "ADA"); ("DOGECOIN", "DOGE"); ("AVALANCHE", "AVAX");
    ("POLKADOT", "DOT"); ("CHAINLINK", "LINK"); ("LITECOIN", "LTC");
    ("MONERO", "XMR"); ("BINANCE COIN", "BNB"); ("BNB", "BNB");
    ("RIPPLE", "XRP") ].

Definition SPOKEN_PAIR_VARIANTS : list (string * string) :=
  [ ("BITCOIN TETHER", "BTC/USDT"); ("BTC USDT", "BTC/USDT");
    ("ETHEREUM TETHER", "ETH/USDT"); ("ETHER TETHER", "ETH/USDT");
    ("ETH USDT", "ETH/USDT"); ("EURO DOLLAR", "EUR/USD");
    ("POUND DOLLAR", "GBP/USD"); ("STERLING DOLLAR", "GBP/USD");
    ("DOLLAR YEN", "USD/JPY") ].

Definition EXCHANGES : list string :=
  [ "BINANCE"; "COINBASE"; "KRAKEN"; "BYBIT"; "OKX"; "KUCOIN"; "BITFINEX";
    "GEMINI"; "HUOBI"; "GATE.IO"; "BITGET"; "MEXC"; "CRYPTO.COM" ].

Definition INDICATORS : list string :=
  [ "RSI"; "MACD"; "MHCD"; "MCD"; "MAC D";
    "EMA"; "SMA"; "VWAP"; "ATR"; "BOLLINGER"; "BOLLINGER BANDS";
    "STOCHASTIC"; "FIBONACCI"; "ICHIMOKU"; "ADX"; "CCI"; "WILLIAMS" ].

Definition INDICATOR_CORRECTIONS : list (string * string) :=
  [ ("MHCD", "MACD"); ("MCD", "MACD"); ("MAC D", "MACD") ].

Definition STOP_LOSS_VARIANTS : list string :=
  [ "STOP LOSS"; "STOPLOSS"; "STOP-LOSS";
    "STOPPLERS"; "STOPPERS"; "STOP PLUS"; "STOPPER";
    "SL"; "S L"; "S.L." ].

Definition TIMEFRAME_VARIANTS : list (string * string) :=
  [ ("FIFTEEN MINUTES", "15m"); ("15 MINUTES", "15m"); ("15-MINUTE", "15m");
    ("15M CHART", "15m");
    ("FIVE MINUTES", "5m"); ("5 MINUTES", "5m"); ("5-MINUTE", "5m");
    ("5M CHART", "5m");
    ("ONE MINUTE", "1m"); ("1 MINUTE", "1m"); ("1-MINUTE", "1m");
    ("1M CHART", "1m");
    ("FOUR-HOUR", "4h"); ("4-HOUR", "4h"); ("FOUR HOUR", "4h");
    ("FOUR HOURS", "4h"); ("4 HOUR", "4h"); ("4 HOURS", "4h");
    ("4H CHART", "4h");
    ("ONE-HOUR", "1h"); ("1-HOUR", "1h"); ("ONE HOUR", "1h"); ("1 HOUR", "1h");
    ("1H CHART", "1h"); ("HOUR CHART", "1h"); ("HOURLY", "1h");
    ("ONE DAY", "1D"); ("1 DAY", "1D"); ("1-DAY", "1D"); ("DAY CHART", "1D");
    ("DAILY", "1D");
    ("ONE WEEK", "1W"); ("1 WEEK", "1W"); ("1-WEEK", "1W"); ("WEEK CHART", "1W");
    ("WEEKLY", "1W");
    ("ONE MONTH", "1M"); ("1 MONTH", "1M"); ("MONTH CHART", "1M");
    ("MONTHLY", "1M") ].

Definition STOCK_TICKERS : list string :=
  [ "AAPL"; "GOOGL"; "GOOG"; "MSFT"; "AMZN"; "META"; "TSLA"; "NVDA"; "AMD"; "INTC";
    "NFLX"; "DIS"; "BA"; "JPM"; "GS"; "V"; "MA"; "WMT"; "HD"; "NKE"; "COST"; "PEP";
    "KO"; "MCD"; "SBUX"; "CVX"; "XOM"; "PFE"; "JNJ"; "UNH"; "ABBV"; "MRK"; "LLY";
    "SPY"; "QQQ"; "IWM"; "DIA"; "VTI"; "VOO"; "ARKK"; "XLF"; "XLE"; "XLK" ].

(** [INDICATOR_CORRECTIONS[k] || k] *)
Fixpoint corrected (table : list (string * string)) (k : string) : string :=
  match table with
  | [] => k
  | (k', v) :: table' =>
      if String.eqb k' k then (if String.eqb v "" then k else v)
      else corrected table' k
  end.

(** ** parseNumber *)

Fixpoint strip_commas (s : string) : string :=
  match s with
  | EmptyString => EmptyString
  | String c s' =>
      if (code c =? 44)%N then strip_commas s' else String c (strip_commas s')
  end.

Definition parseNumber (str : option string) : option Q :=
  match str with
  | None => None
  | Some s =>
      if String.eqb s "" then None
      else parseFloat (strip_commas s)
  end.

(** ** The patterns of extractTradeInfo *)

Module Patterns.

(** [[\d,]+(?:\.\d{1,2})?] inside the capturing group [n]. *)
Definition amount (n : nat) : regex :=
  Grp n (Seq (plus [CDigit; CChar ","])
             (Opt (Seq (Lit ".") (Rep [CDigit] 1 (Some 2))))).

(** [[\d,]+] inside the capturing group [n]. *)
Definition count (n : nat) : regex := Grp n (plus [CDigit; CChar ","]).

Definition dollar_opt : regex := Opt (Lit "$").                 (* \$? *)
Definition letters_2_5 : regex := Rep [CRange "A" "Z"] 2 (Some 5).

Definition buyPatterns : regex :=
  seqs [WordB;
        Grp 1 (words ["BUY"; "BUYING"; "BOUGHT"; "LONG"; "GOING LONG";
                      "OPEN LONG"; "OPENING LONG"]);
        WordB].

Definition sellPatterns : regex :=
  seqs [WordB;
        Grp 1 (words ["SELL"; "SELLING"; "SOLD"; "SHORT"; "GOING SHORT";
                      "OPEN SHORT"; "OPENING SHORT"; "CLOSE"; "CLOSING"]);
        WordB].

(** [new RegExp(`\\b${indicator.replace(/\./g, '\\.')}\\b`, 'i')]: once the
    dots are escaped every character of the name is a literal. *)
Definition indicatorPattern (indicator : string) : regex :=
  seqs [WordB; Lit indicator; WordB].

Definition leveragePatterns : list regex :=
  [ seqs [Grp 1 (plus [CDigit]); Lit "X"; ws_star; Lit "LEVERAGE"];
    seqs [Lit "LEVERAGE"; ws_star; Opt (Seq (Lit "OF") ws_star);
          Grp 1 (plus [CDigit]); Opt (Lit "X")];
    seqs [WordB; words ["WITH"; "USING"]; ws_plus; Grp 1 (plus [CDigit]);
          Lit "X"; WordB];
    seqs [WordB; Grp 1 (plus [CDigit]); Lit "X"; ws_plus;
          words ["LONG"; "SHORT"; "POSITION"]] ].

Definition quotes7 : list string :=
  ["USDT"; "USDC"; "USD"; "BUSD"; "EUR"; "BTC"; "ETH"].

Definition namePattern (cryptoName : string) : regex :=
  seqs [WordB; Lit cryptoName; Opt (Seq ws_plus (Grp 1 (words quotes7))); WordB].

Definition quotePattern : regex :=
  seqs [WordB; Grp 1 (words ["USDT"; "USDC"; "USD"; "BUSD"; "EUR"]); WordB].

Definition cryptoPairPatterns : list regex :=
  [ seqs [WordB; Grp 1 (words CRYPTO_TOKENS); ws_star;
          Opt (Cls [CChar "/"; CChar "-"]); ws_star;
          Grp 2 (words quotes7); WordB];
    seqs [WordB; Grp 1 (words CRYPTO_TOKENS); Grp 2 (words quotes7); WordB] ].

Definition stockPattern : regex :=
  seqs [WordB; Grp 1 (words STOCK_TICKERS); WordB].

Definition contextPatterns : list regex :=
  [ seqs [WordB;
          Grp 1 (words ["BUY"; "SELL"; "LONG"; "SHORT"; "TRADE"; "TRADING"]);
          ws_plus; Grp 2 letters_2_5; WordB];
    seqs [WordB; Grp 1 letters_2_5; ws_plus; words ["AT"; "@"; "$"; "PRICE"]];
    seqs [WordB; Lit "TICKER"; ws_plus; Grp 1 letters_2_5; WordB] ].

Definition pricePatterns : list regex :=
  [ seqs [words ["PRICE"; "ENTRY"; "ENTER"; "AT"]; ws_plus;
          Opt (Seq (Lit "OF") ws_plus); Opt (Seq (Lit "IS") ws_plus);
          dollar_opt; ws_star; amount 1];
    seqs [Lit "$"; ws_star; amount 1; ws_star;
          Opt (words ["EACH"; "PER"; "ENTRY"])];
    seqs [words ["BUY"; "SELL"; "LONG"; "SHORT"]; ws_plus;
          Opt (Seq (Lit "AT") ws_plus); dollar_opt; ws_star; amount 1] ].

Definition priceExcludeBefore : regex :=
  Seq (alts [seqs [Lit "STOP"; ws_star; Lit "LOSS"]; Lit "SL"; Lit "TARGET";
             seqs [Lit "TAKE"; ws_star; Lit "PROFIT"]; Lit "TP"])
      WordB.

Definition quantityPatterns : list regex :=
  [ seqs [count 1; ws_star; words ["SHARES"; "CONTRACTS"; "LOTS"; "UNITS"]];
    seqs [words ["BUY"; "SELL"; "LONG"; "SHORT"]; ws_plus; count 1; ws_plus;
          NotAhead (words ["USD"; "USDT"; "DOLLAR"])];
    seqs [Lit "QUANTITY"; ws_plus; Opt (Seq (Lit "OF") ws_plus); count 1] ].

Definition dollars : regex := Seq (Lit "DOLLAR") (Opt (Lit "S")).   (* DOLLARS? *)

Definition positionSizePatterns : list regex :=
  [ seqs [count 1; ws_star; alts [Lit "USD"; Lit "USDT"; dollars; Lit "BUCKS"];
          ws_star; Opt (words ["POSITION"; "SIZE"; "WORTH"])];
    seqs [Lit "POSITION"; ws_star; Opt (Lit "SIZE"); ws_star;
          Opt (Seq (Lit "OF") ws_star); count 1; ws_star;
          Opt (alts [Lit "USD"; Lit "USDT"; dollars])];
    seqs [Lit "SIZE"; ws_plus; Opt (Seq (Lit "OF") ws_plus); count 1; ws_star;
          Opt (alts [Lit "USD"; Lit "USDT"; dollars])] ].

Definition stopLossPatterns : list regex :=
  [ seqs [Lit "STOP"; ws_star; Lit "LOSS"; ws_star;
          Opt (words ["AT"; "@"; "IS"; "OF"]); ws_star; dollar_opt; ws_star;
          amount 1];
    seqs [Lit "STOP"; ws_plus; words ["AT"; "@"]; ws_star; dollar_opt; ws_star;
          amount 1];
    seqs [Lit "SL"; ws_star; Opt (words ["AT"; "@"; "IS"]); ws_star; dollar_opt;
          ws_star; amount 1];
    seqs [words ["SET"; "PUT"]; ws_plus; Opt (Seq (Lit "A") ws_plus);
          Lit "STOP"; ws_plus; Opt (Seq (Lit "AT") ws_plus); dollar_opt; ws_star;
          amount 1] ].

Definition takeProfitPatterns : list regex :=
  [ seqs [alts [seqs [Lit "TAKE"; ws_star; Lit "PROFIT"]; Lit "TP"]; ws_star;
          Opt (words ["AT"; "@"; "IS"]); ws_star; dollar_opt; ws_star; amount 1];
    seqs [Lit "TARGET"; ws_star; Opt (words ["AT"; "@"; "IS"; "OF"]); ws_star;
          dollar_opt; ws_star; amount 1];
    seqs [Lit "PROFIT"; ws_star; Opt (words ["AT"; "@"]); ws_star; dollar_opt;
          ws_star; amount 1] ].

Definition break_even : regex :=
  alts [seqs [Lit "BREAK"; ws_star; Lit "EVEN"]; Lit "BREAKEVEN";
        seqs [Lit "B"; ws_star; Lit "E"]].

Definition breakEvenPatterns : list regex :=
  [ seqs [break_even; ws_star; Opt (words ["AT"; "@"; "IS"]); ws_star;
          dollar_opt; ws_star; amount 1];
    seqs [words ["MOVE"; "MOVED"; "MOVING"]; ws_plus;
          Opt (Seq (Lit "STOP") ws_plus); Opt (Seq (Lit "TO") ws_plus);
          break_even] ].

End Patterns.

Import Patterns.

(** ** extractTradeInfo *)

Definition initial_trade : object :=
  [ ("ticker", VNull); ("action", VNull); ("quantity", VNull);
    ("price", VNull); ("stopLoss", VNull); ("takeProfit", VNull);
    ("positionSize", VNull); ("exchange", VNull); ("timeframe", VNull);
    ("indicators", VArr []); ("breakEven", VNull); ("leverage", VNull);
    ("tradeType", VNull) ].

(** The loops below are the [for ... of] loops of the source: a branch
    that returns the updated [trade] is a [break]. *)

Definition detect_action (text : string) (trade : object) : object :=
  if Regex.test buyPatterns text then
    obj_set "tradeType" (VStr "long") (obj_set "action" (VStr "buy") trade)
  else if Regex.test sellPatterns text then
    obj_set "tradeType" (VStr "short") (obj_set "action" (VStr "sell") trade)
  else trade.

Fixpoint exchange_loop (upperText : string) (l : list string) (trade : object)
  : object :=
  match l with
  | [] => trade
  | exchange :: l' =>
      if includes upperText exchange then
        obj_set "exchange"
          (VStr (charAt0 exchange ++ toLowerCase (slice 1 exchange))) trade
      else exchange_loop upperText l' trade
  end.

Fixpoint timeframe_loop (upperText : string) (l : list (string * string))
         (trade : object) : object :=
  match l with
  | [] => trade
  | (variant, canonical) :: l' =>
      if includes upperText variant then
        obj_set "timeframe" (VStr canonical) trade
      else timeframe_loop upperText l' trade
  end.

Definition normalizedIndicator (indicator : string) : string :=
  corrected INDICATOR_CORRECTIONS (first_word indicator).

(** [indicators] is the array [trade.indicators], filled by [push]. *)
Fixpoint indicator_loop (text : string) (l : list string)
         (indicators : list string) : list string :=
  match l with
  | [] => indicators
  | indicator :: l' =>
      indicator_loop text l'
        (if Regex.test (indicatorPattern indicator) text then
           if mem (normalizedIndicator indicator) indicators then indicators
           else push indicators (normalizedIndicator indicator)
         else indicators)
  end.

Definition detect_indicators (text : string) (trade : object) : object :=
  match obj_get "indicators" trade with
  | VArr l => obj_set "indicators" (VArr (indicator_loop text INDICATORS l)) trade
  | _ => trade
  end.

Fixpoint leverage_loop (text : string) (l : list regex) (trade : object)
  : object :=
  match l with
  | [] => trade
  | pattern :: l' =>
      match Regex.exec pattern text with
      | Some mt =>
          match parseInt (template (group mt 1)) with
          | Some lev =>
              if leb 1 lev && leb lev 125 then obj_set "leverage" (VNum lev) trade
              else leverage_loop text l' trade
          | None => leverage_loop text l' trade
          end
      | None => leverage_loop text l' trade
      end
  end.

Fixpoint spoken_loop (upperText : string) (l : list (string * string))
         (trade : object) : object :=
  match l with
  | [] => trade
  | (spokenVariant, canonicalPair) :: l' =>
      if includes upperText spokenVariant then
        obj_set "ticker" (VStr canonicalPair) trade
      else spoken_loop upperText l' trade
  end.

Fixpoint name_loop (upperText : string) (l : list (string * string))
         (trade : object) : outcome object :=
  match l with
  | [] => Ret trade
  | (cryptoName, ticker) :: l' =>
      match Regex.exec (namePattern cryptoName) upperText with
      | Some mt =>
          if truthy (match group mt 1 with Some g => VStr g | None => VUndefined end)
          then
            q <- call_toUpperCase (group mt 1) ;;
            Ret (obj_set "ticker" (VStr (ticker ++ "/" ++ q)) trade)
          else
            match Regex.exec quotePattern upperText with
            | Some quoteMatch =>
                q <- call_toUpperCase (group quoteMatch 1) ;;
                Ret (obj_set "ticker" (VStr (ticker ++ "/" ++ q)) trade)
            | None => Ret (obj_set "ticker" (VStr ticker) trade)
            end
      | None => name_loop upperText l' trade
      end
  end.

Fixpoint pair_loop (upperText : string) (l : list regex) (trade : object)
  : object :=
  match l with
  | [] => trade
  | pattern :: l' =>
      match Regex.exec pattern upperText with
      | Some mt =>
          obj_set "ticker"
            (VStr (toUpperCase (template (group mt 1) ++ "/" ++ template (group mt 2))))
            trade
      | None => pair_loop upperText l' trade
      end
  end.

Definition detect_stock (upperText : string) (trade : object) : outcome object :=
  match Regex.exec stockPattern upperText with
  | Some stockMatch =>
      t <- call_toUpperCase (group stockMatch 1) ;;
      Ret (obj_set "ticker" (VStr t) trade)
  | None => Ret trade
  end.

Fixpoint context_loop (upperText : string) (l : list regex) (trade : object)
  : outcome object :=
  match l with
  | [] => Ret trade
  | pattern :: l' =>
      match Regex.exec pattern upperText with
      | Some mt =>
          candidate <- call_toUpperCase (or_else (group mt 2) (group mt 1)) ;;
          if negb (mem candidate EXCLUDED_WORDS) then
            Ret (obj_set "ticker" (VStr candidate) trade)
          else context_loop upperText l' trade
      | None => context_loop upperText l' trade
      end
  end.

(** [if (!trade.ticker) { ... }] *)
Definition unless_ticker (trade : object) (tier : object -> outcome object)
  : outcome object :=
  if negb (truthy (obj_get "ticker" trade)) then tier trade else Ret trade.

Definition detect_ticker (upperText : string) (trade : object) : outcome object :=
  let trade := spoken_loop upperText SPOKEN_PAIR_VARIANTS trade in
  trade <- unless_ticker trade (name_loop upperText CRYPTO_NAME_TO_TICKER) ;;
  trade <- unless_ticker trade
             (fun t => Ret (pair_loop upperText cryptoPairPatterns t)) ;;
  trade <- unless_ticker trade (detect_stock upperText) ;;
  unless_ticker trade (context_loop upperText contextPatterns).

Fixpoint price_loop (text : string) (l : list regex) (trade : object) : object :=
  match l with
  | [] => trade
  | pattern :: l' =>
      match Regex.exec pattern text with
      | Some mt =>
          let beforeText := substring (index mt - 20) (index mt) text in
          if negb (Regex.test priceExcludeBefore beforeText) then
            match parseNumber (group mt 1) with
            | Some price => obj_set "price" (VNum price) trade
            | None => price_loop text l' trade
            end
          else price_loop text l' trade
      | None => price_loop text l' trade
      end
  end.

Fixpoint quantity_loop (text : string) (l : list regex) (trade : object)
  : object :=
  match l with
  | [] => trade
  | pattern :: l' =>
      match Regex.exec pattern text with
      | Some mt =>
          match parseNumber (group mt 1) with
          | Some qty =>
              if ltb 0 qty && ltb qty (of_Z 1000000) then
                obj_set "quantity" (VNum qty) trade
              else quantity_loop text l' trade
          | None => quantity_loop text l' trade
          end
      | None => quantity_loop text l' trade
      end
  end.

Fixpoint position_loop (text : string) (l : list regex) (trade : object)
  : object :=
  match l with
  | [] => trade
  | pattern :: l' =>
      match Regex.exec pattern text with
      | Some mt =>
          match parseNumber (group mt 1) with
          | Some size =>
              if leb (of_Z 10) size && leb size (of_Z 10000000) then
                obj_set "positionSize" (VNum size) trade
              else position_loop text l' trade
          | None => position_loop text l' trade
          end
      | None => position_loop text l' trade
      end
  end.

(** The normalisation of the mishearings of stop loss. *)
Fixpoint normalize_loop (l : list string) (normalizedText : string) : string :=
  match l with
  | [] => normalizedText
  | variant :: l' =>
      normalize_loop l'
        (if includes normalizedText variant then
           replace_all (of_source variant) "STOP LOSS" normalizedText
         else normalizedText)
  end.

(** The loop shared by stop loss and take profit: the first pattern whose
    capture parses sets [field]. *)
Fixpoint level_loop (field : string) (text : string) (l : list regex)
         (trade : object) : object :=
  match l with
  | [] => trade
  | pattern :: l' =>
      match Regex.exec pattern text with
      | Some mt =>
          match parseNumber (group mt 1) with
          | Some v => obj_set field (VNum v) trade
          | None => level_loop field text l' trade
          end
      | None => level_loop field text l' trade
      end
  end.

Fixpoint breakeven_loop (text : string) (l : list regex) (trade : object)
  : object :=
  match l with
  | [] => trade
  | pattern :: l' =>
      match Regex.exec pattern text with
      | Some mt =>
          if truthy (match group mt 1 with Some g => VStr g | None => VUndefined end)
          then
            match parseNumber (group mt 1) with
            | Some be => obj_set "breakEven" (VNum be) trade
            | None => breakeven_loop text l' trade
            end
          else obj_set "breakEven" (VBool true) trade
      | None => breakeven_loop text l' trade
      end
  end.

(** Everything up to the validation: the [trade] object with its thirteen
    keys, undetected fields still [null]. *)
Definition detect (text : string) : outcome object :=
  let upperText := toUpperCase text in
  let trade := initial_trade in
  let trade := detect_action text trade in
  let trade := exchange_loop upperText EXCHANGES trade in
  let trade := timeframe_loop upperText TIMEFRAME_VARIANTS trade in
  let trade := detect_indicators text trade in
  let trade := leverage_loop text leveragePatterns trade in
  trade <- detect_ticker upperText trade ;;
  let trade := price_loop text pricePatterns trade in
  let trade := quantity_loop text quantityPatterns trade in
  let trade := position_loop text positionSizePatterns trade in
  let normalizedText := normalize_loop STOP_LOSS_VARIANTS upperText in
  let trade := level_loop "stopLoss" normalizedText stopLossPatterns trade in
  let trade := level_loop "takeProfit" text takeProfitPatterns trade in
  let trade := breakeven_loop text breakEvenPatterns trade in
  Ret trade.

(** The fields the validation looks at, in the order of its [||] chain. *)
Definition gate_fields : list string :=
  ["ticker"; "action"; "price"; "quantity"; "stopLoss"; "takeProfit";
   "positionSize"].

Definition hasTradeInfo (trade : object) : bool :=
  existsb (fun k => truthy (obj_get k trade)) gate_fields.

(** [v === null || (Array.isArray(v) && v.length === 0)] *)
Definition is_empty (v : value) : bool :=
  match v with
  | VNull => true
  | VArr [] => true
  | _ => false
  end.

(** [Object.keys(trade).forEach(key => { if (...) delete trade[key] })] *)
Definition cleanup (trade : object) : object :=
  fold_left
    (fun t key => if is_empty (obj_get key t) then obj_delete key t else t)
    (obj_keys trade) trade.

(** [None] is the [null] result. *)
Definition extractTradeInfo (text : value) : outcome (option object) :=
  match text with
  | VStr s =>
      if negb (truthy text) then Ret None
      else
        trade <- detect s ;;
        if negb (hasTradeInfo trade) then Ret None
        else Ret (Some (cleanup trade))
  | _ => Ret None
  end.

Definition extract (s : string) : outcome (option object) :=
  extractTradeInfo (VStr s).

(** ** formatNumber and generateTradeSummary *)

Definition formatNumber (num : Q) : string :=
  if leb (of_Z 1000) num then toLocaleString2 num else toFixed2 num.

(** [formatNumber(v)] on a field of the record.  A field that holds
    anything but a number is outside the data contract; the model answers
    as [toFixed] does when it is missing. *)
Definition format_field (v : value) : outcome string :=
  match v with
  | VNum q => Ret (formatNumber q)
  | _ => Throw "TypeError: num.toFixed is not a function"
  end.

(** A value inside a template literal. *)
Definition to_string (v : value) : string :=
  match v with
  | VUndefined => "undefined"
  | VNull => "null"
  | VBool true => "true"
  | VBool false => "false"
  | VNum q => toString q
  | VStr s => s
  | VArr l => join "," l
  end.

(** [v === 'text'] *)
Definition is_str (v : value) (text : string) : bool :=
  match v with
  | VStr s => String.eqb s text
  | _ => false
  end.

Definition bullet : string := "•".

(** The array [parts] before the extras are appended. *)
Definition summary_parts (trade : object) : outcome (list string) :=
  let parts : list string := [] in
  let parts :=
    if truthy (obj_get "action" trade) && truthy (obj_get "ticker" trade) then
      let actionText := if is_str (obj_get "action" trade) "buy" then "Buy" else "Sell" in
      let actionText :=
        if truthy (obj_get "tradeType" trade) then
          (if is_str (obj_get "tradeType" trade) "long" then "Long" else "Short")
        else actionText in
      push parts (actionText ++ " " ++ to_string (obj_get "ticker" trade))
    else if truthy (obj_get "ticker" trade) then
      push parts ("Trade " ++ to_string (obj_get "ticker" trade))
    else if truthy (obj_get "action" trade) then
      push parts (if is_str (obj_get "action" trade) "buy" then "Buy" else "Sell")
    else parts in
  let parts :=
    if truthy (obj_get "exchange" trade) then
      push parts ("on " ++ to_string (obj_get "exchange" trade))
    else parts in
  let parts :=
    if truthy (obj_get "timeframe" trade) then
      push parts ("(" ++ to_string (obj_get "timeframe" trade) ++ ")")
    else parts in
  let parts :=
    if truthy (obj_get "quantity" trade) then
      push parts (to_string (obj_get "quantity" trade) ++ " shares")
    else parts in
  parts <-
    (if truthy (obj_get "positionSize" trade) then
       f <- format_field (obj_get "positionSize" trade) ;;
       Ret (push parts ("$" ++ f ++ " position"))
     else Ret parts) ;;
  let parts :=
    if truthy (obj_get "leverage" trade) then
      push parts (to_string (obj_get "leverage" trade) ++ "x")
    else parts in
  if truthy (obj_get "price" trade) then
    f <- format_field (obj_get "price" trade) ;;
    Ret (push parts ("at $" ++ f))
  else Ret parts.

(** The array [extras]. *)
Definition summary_extras (trade : object) : outcome (list string) :=
  let extras : list string := [] in
  extras <-
    (if truthy (obj_get "stopLoss" trade) then
       f <- format_field (obj_get "stopLoss" trade) ;;
       Ret (push extras ("Stop loss: $" ++ f))
     else Ret extras) ;;
  extras <-
    (if truthy (obj_get "takeProfit" trade) then
       f <- format_field (obj_get "takeProfit" trade) ;;
       Ret (push extras ("Target: $" ++ f))
     else Ret extras) ;;
  let extras :=
    match obj_get "breakEven" trade with
    | VNum q => push extras ("Break even: $" ++ formatNumber q)
    | VBool true => push extras ("Move to break even")
    | _ => extras
    end in
  match obj_get "indicators" trade with
  | VArr (i :: l) => Ret (push extras ("Indicators: " ++ join ", " (i :: l)))
  | VStr (String _ _) => Throw "TypeError: trade.indicators.join is not a function"
  | _ => Ret extras
  end.

Definition generateTradeSummary (trade : object) : outcome string :=
  parts <- summary_parts trade ;;
  extras <- summary_extras trade ;;
  let parts :=
    match extras with
    | [] => parts
    | _ => push parts (bullet ++ " " ++ join (" " ++ bullet ++ " ") extras)
    end in
  Ret (join " " parts).

Definition n_ (k : Z) : value := VNum (of_Z k).



(** ** Saved notes ([savedNotes.js]) and the note list of [main.js]

    A saved note carries the transcript and the record the extractor gave
    for it ([null] when it gave none).  [savedNotes.js] has a copy of
    [formatNumber], the same text as the one above. *)

Module SavedNotes.

Definition MAX_SAVED_NOTES : nat := 10.

Record note : Type := Note {
  id : Z;
  timestamp : Z;
  text : string;
  trade : option object;
  audioData : option string
}.

(** [createNote({ text, trade, audioData, timestamp })]; the caller's clock
    is the [timestamp] argument. *)
Definition createNote (text : string) (trade : option object)
    (audioData : option string) (timestamp : Z) : note :=
  Note timestamp timestamp text trade audioData.

(** [canSaveNote(currentNotes)]: the [valid] flag and the error text. *)
Definition canSaveNote (currentNotes : list note) : bool * option string :=
  if MAX_SAVED_NOTES <=? length currentNotes then
    (false, Some ("Maximum " ++ N_to_string (N.of_nat MAX_SAVED_NOTES)
                  ++ " notes reached. Delete some to save more."))
  else (true, None).

(** The line feed of the template literals. *)
Definition nl : string := String (ascii_of_N 10) EmptyString.

(** [v.toUpperCase()] on a field that passed the truthiness test. *)
Definition field_toUpperCase (v : value) : outcome string :=
  match v with
  | VStr s => Ret (toUpperCase s)
  | _ => Throw "TypeError: note.trade.action.toUpperCase is not a function"
  end.

(** [if (c) copyText += line] *)
Definition append_if (c : value) (line : outcome string) (copyText : string)
    : outcome string :=
  if truthy c then l <- line ;; Ret (copyText ++ l) else Ret copyText.

Definition formatNoteForClipboard (n : option note) : outcome string :=
  match n with
  | None => Ret ""
  | Some note =>
      let copyText := if String.eqb (text note) "" then "" else text note in
      match trade note with
      | None => Ret copyText
      | Some t =>
          let copyText := copyText ++ nl ++ nl ++ "--- Trade Info ---" ++ nl in
          copyText <- append_if (obj_get "ticker" t)
            (Ret ("Ticker: " ++ to_string (obj_get "ticker" t) ++ nl)) copyText ;;
          copyText <- append_if (obj_get "action" t)
            (u <- field_toUpperCase (obj_get "action" t) ;;
             Ret ("Action: " ++ u ++ nl)) copyText ;;
          copyText <- append_if (obj_get "positionSize" t)
            (f <- format_field (obj_get "positionSize" t) ;;
             Ret ("Position Size: $" ++ f ++ nl)) copyText ;;
          copyText <- append_if (obj_get "quantity" t)
            (Ret ("Quantity: " ++ to_string (obj_get "quantity" t) ++ nl)) copyText ;;
          copyText <- append_if (obj_get "price" t)
            (f <- format_field (obj_get "price" t) ;;
             Ret ("Price: $" ++ f ++ nl)) copyText ;;
          copyText <- append_if (obj_get "stopLoss" t)
            (f <- format_field (obj_get "stopLoss" t) ;;
             Ret ("Stop Loss: $" ++ f ++ nl)) copyText ;;
          copyText <- append_if (obj_get "takeProfit" t)
            (f <- format_field (obj_get "takeProfit" t) ;;
             Ret ("Take Profit: $" ++ f ++ nl)) copyText ;;
          Ret copyText
      end
  end.

(** [s.trim()]: [skip_spaces] removes the leading blanks. *)
Fixpoint trimEnd (s : string) : string :=
  match s with
  | EmptyString => EmptyString
  | String c s' =>
      match trimEnd s' with
      | EmptyString => if is_space c then EmptyString else String c EmptyString
      | t => String c t
      end
  end.

Definition trim (s : string) : string := trimEnd (skip_spaces s).

(** [field?.toLowerCase().includes(searchTerm)] *)
Definition field_includes (searchTerm : string) (field : value) : outcome bool :=
  match field with
  | VUndefined | VNull => Ret false
  | VStr s => Ret (includes (toLowerCase s) searchTerm)
  | _ => Throw "TypeError: field?.toLowerCase is not a function"
  end.

(** [arr.some(f)] and [arr.filter(f)] with a callback that may throw. *)
Fixpoint some {A : Type} (f : A -> outcome bool) (l : list A) : outcome bool :=
  match l with
  | [] => Ret false
  | x :: l' => b <- f x ;; if b then Ret true else some f l'
  end.

Fixpoint filter_by {A : Type} (f : A -> outcome bool) (l : list A)
    : outcome (list A) :=
  match l with
  | [] => Ret []
  | x :: l' =>
      b <- f x ;;
      rest <- filter_by f l' ;;
      Ret (if b then x :: rest else rest)
  end.

(** The callback of [filterNotes]. *)
Definition matches (searchTerm : string) (n : note) : outcome bool :=
  if includes (toLowerCase (text n)) searchTerm then Ret true
  else
    match trade n with
    | None => Ret false
    | Some t =>
        let tradeFields :=
          [obj_get "ticker" t; obj_get "action" t; obj_get "timeframe" t] in
        found <- some (field_includes searchTerm) tradeFields ;;
        if found then Ret true
        else
          match obj_get "indicators" t with
          | VArr l =>
              Ret (existsb (fun ind => includes (toLowerCase ind) searchTerm) l)
          | _ => Ret false
          end
    end.

Definition filterNotes (notes : list note) (query : option string)
    : outcome (list note) :=
  match query with
  | None => Ret notes
  | Some q =>
      if String.eqb q "" || String.eqb (trim q) "" then Ret notes
      else
        let searchTerm := trim (toLowerCase q) in
        filter_by (matches searchTerm) notes
  end.

(** *** The handlers of [main.js] that write the note list

    The state is the array kept in storage: what [loadSavedNotes] reads is
    what [saveSavedNotes] wrote last. *)

(** [notes.splice(index, 1)] *)
Definition splice1 (index : Z) (notes : list note) : list note :=
  let len := Z.of_nat (length notes) in
  let start := if (index <? 0)%Z then Z.max (len + index) 0 else Z.min index len in
  (firstn (Z.to_nat start) notes ++ skipn (S (Z.to_nat start)) notes)%list.

(** [saveCurrentNote()]: [text] is the trimmed transcript on screen,
    [trade] is [currentTradeInfo]. *)
Definition saveCurrentNote (text : string) (trade : option object)
    (audioData : option string) (now : Z) (notes : list note) : list note :=
  if String.eqb text "" then notes
  else if negb (fst (canSaveNote notes)) then notes
  else createNote text trade audioData now :: notes.

Definition deleteSavedNote (index : Z) (notes : list note) : list note :=
  splice1 index notes.

Definition clearAllNotes (confirmed : bool) (notes : list note) : list note :=
  if confirmed then [] else notes.

(** One click. *)
Inductive event : Type :=
| SaveClick (text : string) (trade : option object)
            (audioData : option string) (now : Z)
| DeleteClick (index : Z)
| ClearClick (confirmed : bool).

Definition handle (notes : list note) (e : event) : list note :=
  match e with
  | SaveClick text trade audioData now =>
      saveCurrentNote text trade audioData now notes
  | DeleteClick index => deleteSavedNote index notes
  | ClearClick confirmed => clearAllNotes confirmed notes
  end.

End SavedNotes.

(** ** The risk/reward ratio of the price chart ([priceLevelChart.js]) *)

Module PriceLevelChart.

(** [Math.abs(a - b)] *)
Definition abs_diff (a b : Q) : Q :=
  let d := Qred (a - b) in
  if ltb d 0 then Qred (- d) else d.

Definition calculateRiskReward (entry stopLoss takeProfit : Q) (action : value)
    : Q :=
  let isBuy := is_str action "buy" in
  let risk :=
    if isBuy then abs_diff entry stopLoss else abs_diff stopLoss entry in
  let reward :=
    if isBuy then abs_diff takeProfit entry else abs_diff entry takeProfit in
  if is_zero risk then 0 else Qred (reward / risk).

End PriceLevelChart.

(** ** Vocabulary of the statements

    Predicates and auxiliary functions the properties below are stated
    and proved with. *)

(** *** Objects and stages *)

(** [updates fs o o']: [o'] is [o] after assignments to fields of [fs]. *)
Inductive updates (fs : list string) : object -> object -> Prop :=
| upd_refl (o : object) : updates fs o o
| upd_set (o o' : object) (k : string) (v : value) :
    In k fs -> updates fs o o' -> updates fs o (obj_set k v o').

(** The thirteen keys of the object literal. *)
Definition all_fields : list string := obj_keys initial_trade.

(** A property the cleanup keeps. *)
Definition kept (p : string * value) : bool := negb (is_empty (snd p)).

(** The body of the cleanup loop. *)
Definition cleanup_step (t : object) (key : string) : object :=
  if is_empty (obj_get key t) then obj_delete key t else t.

(** The stages of [detect] before the ticker cascade ... *)
Definition before_ticker (s : string) : object :=
  leverage_loop s leveragePatterns
    (detect_indicators s
       (timeframe_loop (toUpperCase s) TIMEFRAME_VARIANTS
          (exchange_loop (toUpperCase s) EXCHANGES
             (detect_action s initial_trade)))).

(** ... and those after it. *)
Definition after_ticker (s : string) (t : object) : object :=
  breakeven_loop s breakEvenPatterns
    (level_loop "takeProfit" s takeProfitPatterns
       (level_loop "stopLoss" (normalize_loop STOP_LOSS_VARIANTS (toUpperCase s))
          stopLossPatterns
          (position_loop s positionSizePatterns
             (quantity_loop s quantityPatterns
                (price_loop s pricePatterns t))))).

(** [trade.ticker] is set. *)
Definition found (trade : object) : bool := truthy (obj_get "ticker" trade).

(** A field is unset or holds the number zero. *)
Definition null_or_zero (v : value) : Prop :=
  v = VNull \/ exists q, v = VNum q /\ Qeq q 0.

(** *** Captures *)

(** [sets r n]: every match of [r] goes through the group [n]. *)
Fixpoint sets (r : regex) (n : nat) : bool :=
  match r with
  | Grp i r1 => Nat.eqb i n || sets r1 n
  | Seq r1 r2 => sets r1 n || sets r2 n
  | Alt r1 r2 => sets r1 n && sets r2 n
  | _ => false
  end.

(** The group [n] has captured something. *)
Definition defined (n : nat) (cs : list (nat * string)) : Prop :=
  cap_get n cs <> None.

(** [r] has no capturing group. *)
Fixpoint nogroups (r : regex) : bool :=
  match r with
  | Grp _ _ => false
  | Seq r1 r2 | Alt r1 r2 => nogroups r1 && nogroups r2
  | Opt r1 => nogroups r1
  | _ => true
  end.

(** Both captures of a match: words of the two lists, up to case. *)
Definition pair_captured (l1 l2 : list string) (mt : mresult) : Prop :=
  exists w1 w2 v1 v2,
    In w1 l1 /\ In w2 l2 /\
    group mt 1 = Some v1 /\ group mt 2 = Some v2 /\
    toUpperCase v1 = toUpperCase w1 /\ toUpperCase v2 = toUpperCase w2.

(** The optional quote of a crypto name: absent, or a word of the list. *)
Definition quote_captured (l : list string) (mt : mresult) : Prop :=
  group mt 1 = None \/
  exists w v, In w l /\ group mt 1 = Some v /\ toUpperCase v = toUpperCase w.

(** The capture of a whole-word alternation: a word of the list. *)
Definition word_captured (l : list string) (mt : mresult) : Prop :=
  exists w v, In w l /\ group mt 1 = Some v /\ toUpperCase v = toUpperCase w.

(** The two symbolic pair patterns, over any two word lists. *)
Definition spaced (l1 l2 : list string) : regex :=
  seqs [WordB; Grp 1 (words l1); ws_star; Opt (Cls [CChar "/"; CChar "-"]);
        ws_star; Grp 2 (words l2); WordB].

Definition joined (l1 l2 : list string) : regex :=
  seqs [WordB; Grp 1 (words l1); Grp 2 (words l2); WordB].

(** *** Levels, indicators and tickers *)

(** [text.substring(Math.max(0, match.index - 20), match.index)] *)
Definition beforeText (text : string) (mt : mresult) : string :=
  substring (index mt - 20) (index mt) text.

Definition excluded (text : string) (mt : mresult) : bool :=
  Regex.test priceExcludeBefore (beforeText text mt).

(** The value the first parsing pattern of [l] reads in [text]. *)
Fixpoint first_level (text : string) (l : list regex) : option Q :=
  match l with
  | [] => None
  | pattern :: l' =>
      match Regex.exec pattern text with
      | Some mt =>
          match parseNumber (group mt 1) with
          | Some v => Some v
          | None => first_level text l'
          end
      | None => first_level text l'
      end
  end.

(** [hits] keeps the order of [l] and drops some of its entries. *)
Inductive subseq {A : Type} : list A -> list A -> Prop :=
| sub_nil : subseq [] []
| sub_skip (x : A) (l1 l2 : list A) : subseq l1 l2 -> subseq l1 (x :: l2)
| sub_take (x : A) (l1 l2 : list A) : subseq l1 l2 -> subseq (x :: l1) (x :: l2).

Definition hit (text indicator : string) : bool :=
  Regex.test (indicatorPattern indicator) text.

(** [record.indicators], the empty array when the field is absent. *)
Definition indicators_of (r : object) : list string :=
  match obj_get "indicators" r with
  | VArr l => l
  | _ => []
  end.

(** The index of the first whole-word mention of [name] in [text]. *)
Definition mention_index (text name : string) : option nat :=
  option_map index (Regex.exec (indicatorPattern name) text).

(** The order the claim states: a name listed earlier is mentioned
    earlier in the text. *)
Definition ordered_by_first_mention (text : string) (l : list string) : Prop :=
  forall i j a b ia ib,
    i < j -> nth_error l i = Some a -> nth_error l j = Some b ->
    mention_index text a = Some ia -> mention_index text b = Some ib ->
    ia < ib.




(** *** Rendered numbers and summaries *)

Fixpoint all_digits (s : string) : bool :=
  match s with
  | EmptyString => true
  | String c s' => is_digit c && all_digits s'
  end.

(** A natural number written with thousands separators: one to three
    digits, then groups of a comma and exactly three digits. *)
Inductive grouped : string -> Prop :=
| grouped_head (ds : string) :
    ds <> "" -> String.length ds <= 3 -> all_digits ds = true -> grouped ds
| grouped_more (s d : string) :
    grouped s -> String.length d = 3 -> all_digits d = true ->
    grouped (s ++ "," ++ d).

(** ... with at least one separator. *)
Definition separated (s : string) : Prop :=
  exists s0 d, s = s0 ++ "," ++ d /\ grouped s0 /\
               String.length d = 3 /\ all_digits d = true.

(** Exactly two decimal places: digits, a point, two digits. *)
Definition two_decimals (s : string) : Prop :=
  exists ip d1 d2,
    s = ip ++ "." ++ String d1 (String d2 "") /\
    ip <> "" /\ all_digits ip = true /\
    is_digit d1 = true /\ is_digit d2 = true.

(** No fraction, or a point and one or two digits. *)
Definition short_fraction (s : string) : Prop :=
  s = "" \/
  (exists d1, s = String "." (String d1 "") /\ is_digit d1 = true) \/
  (exists d1 d2, s = String "." (String d1 (String d2 "")) /\
                 is_digit d1 = true /\ is_digit d2 = true).

(** [out] has [x] as a substring. *)
Definition contains (out x : string) : Prop :=
  exists pre post, out = pre ++ x ++ post.

(** *** Numbers on which the model and JavaScript's doubles agree *)

(** A whole number of hundredths below ten trillion in size.  The double
    nearest to it is within a thousandth of it, so [toFixed] and
    [toLocaleString] write for it the digits the exact arithmetic of the
    model writes. *)
Definition plain_amount (q : Q) : Prop :=
  (exists z, q == z # 100) /\
  (- (10000000000000 # 1) < q)%Q /\ (q < 10000000000000 # 1)%Q.

(** [Number.MAX_VALUE]: beyond it a number is [Infinity]. *)
Definition MAX_VALUE : Q := inject_Z ((2 ^ 53 - 1) * 2 ^ 971).

(** A whole number every double up to which is exact
    ([Number.MAX_SAFE_INTEGER] is [2 ^ 53 - 1]). *)
Definition safe_integer (n : N) : Prop := (n < 2 ^ 53)%N.

(** *** The shape of a detected object *)

(** [exchange.charAt(0) + exchange.slice(1).toLowerCase()] *)
Definition capitalized (exchange : string) : string :=
  charAt0 exchange ++ toLowerCase (slice 1 exchange).

(** What a field of the detected object may hold. *)
Definition field_ok (k : string) (v : value) : Prop :=
  if String.eqb k "ticker" then
    v = VNull \/ exists t, v = VStr t /\ mem t EXCLUDED_WORDS = false
  else if String.eqb k "action" then
    v = VNull \/ v = VStr "buy" \/ v = VStr "sell"
  else if String.eqb k "tradeType" then
    v = VNull \/ v = VStr "long" \/ v = VStr "short"
  else if String.eqb k "exchange" then
    v = VNull \/ exists e, In e EXCHANGES /\ v = VStr (capitalized e)
  else if String.eqb k "timeframe" then
    v = VNull \/ exists variant c, In (variant, c) TIMEFRAME_VARIANTS /\ v = VStr c
  else if String.eqb k "indicators" then
    exists l, v = VArr l
  else if String.eqb k "leverage" then
    v = VNull \/
    exists z, v = VNum (inject_Z z) /\ (1 <= z)%Z /\ (z <= 125)%Z
  else if String.eqb k "quantity" then
    v = VNull \/ exists q, v = VNum q /\ (0 < q)%Q /\ (q < 1000000)%Q
  else if String.eqb k "positionSize" then
    v = VNull \/ exists q, v = VNum q /\ (10 <= q)%Q /\ (q <= 10000000)%Q
  else if String.eqb k "breakEven" then
    v = VNull \/ v = VBool true \/ exists q, v = VNum q
  else
    v = VNull \/ exists q, v = VNum q.

Definition schema (o : object) : Prop :=
  forall k, In k all_fields -> field_ok k (obj_get k o).

(** The fields [generateTradeSummary] formats hold numbers when they are
    set, and [indicators] is an array when present. *)
Definition summarizable (o : object) : Prop :=
  (forall k, In k ["positionSize"; "price"; "stopLoss"; "takeProfit"] ->
             truthy (obj_get k o) = true -> exists q, obj_get k o = VNum q) /\
  (obj_get "indicators" o = VUndefined \/ exists l, obj_get "indicators" o = VArr l).

(** *** Digits and their value *)

(** The number a string of digits denotes, read after the value [a]. *)
Fixpoint dval (s : string) (a : N) : N :=
  match s with
  | EmptyString => a
  | String c s' => dval s' (a * 10 + digit_val c)%N
  end.

(** [s] does not begin with a digit. *)
Definition no_digit_head (s : string) : Prop :=
  match s with
  | EmptyString => True
  | String c _ => is_digit c = false
  end.

(** *** The tiers of the ticker cascade *)





(** *** The language of a pattern *)

(** Every character of [w] passes [ok]. *)
Fixpoint every (ok : ascii -> bool) (w : string) : bool :=
  match w with
  | EmptyString => true
  | String c w' => ok c && every ok w'
  end.

(** The texts an expression can consume (look-arounds consume nothing). *)
Fixpoint lang (r : regex) (w : string) : Prop :=
  match r with
  | Eps | WordB | NotAhead _ => w = ""
  | Lit l => toUpperCase w = toUpperCase l
  | Cls cs => exists c, w = String c "" /\ cls_ok cs c = true
  | Dot => exists c, w = String c "" /\ dot_ok c = true
  | Seq r1 r2 => exists w1 w2, w = w1 ++ w2 /\ lang r1 w1 /\ lang r2 w2
  | Alt r1 r2 => lang r1 w \/ lang r2 w
  | Opt r1 => w = "" \/ lang r1 w
  | Rep cs lo hi =>
      every (cls_ok cs) w = true /\ lo <= String.length w /\
      forall h, hi = Some h -> String.length w <= h
  | Grp _ r1 => lang r1 w
  end.

(** The bodies of the capturing groups numbered [n]. *)
Fixpoint groups_of (n : nat) (r : regex) : list regex :=
  match r with
  | Seq r1 r2 | Alt r1 r2 => groups_of n r1 ++ groups_of n r2
  | Opt r1 => groups_of n r1
  | Grp g r1 => (if Nat.eqb g n then [r1] else []) ++ groups_of n r1
  | _ => []
  end.

(** Whatever group [n] of [r] captures satisfies [Q]. *)
Definition captures (n : nat) (Q : string -> Prop) (r : regex) : Prop :=
  forall b, In b (groups_of n r) -> forall w, lang b w -> Q w.

Definition digit_or_comma (c : ascii) : bool :=
  is_digit c || (code c =? 44)%N.

(** Digits and commas, then nothing or a point and one or two digits. *)
Definition is_amount (w : string) : Prop :=
  exists a f, w = a ++ f /\ every digit_or_comma a = true /\
              (f = "" \/
               exists d, f = String "." d /\ all_digits d = true /\
                         1 <= String.length d <= 2).

(** Digits and commas. *)
Definition is_count (w : string) : Prop := every digit_or_comma w = true.

(** A non-negative number of hundredths, in lowest terms. *)
Definition cents (q : Q) : Prop :=
  exists z, (0 <= z)%Z /\ q = Qred (z # 100).

(** A non-negative whole number. *)
Definition whole (q : Q) : Prop :=
  exists z, (0 <= z)%Z /\ q = inject_Z z.

(** *** Saved notes *)

(** The [trade] of the note is [null] or a record the extractor returned. *)
Definition extracted_note (n : SavedNotes.note) : Prop :=
  SavedNotes.trade n = None \/
  exists s r, extract s = Ret (Some r) /\ SavedNotes.trade n = Some r.

(** * Properties *)

(** ** Objects *)

Section ObjectFacts.

Lemma obj_get_set_same (k : string) (v : value) (o : object) :
  obj_get k (obj_set k v o) = v.
Proof.
  induction o as [|[k' v'] o IH]; simpl.
  - now rewrite String.eqb_refl.
  - destruct (String.eqb k' k) eqn:E; simpl.
    + now rewrite String.eqb_refl.
    + now rewrite E.
Qed.

Lemma obj_get_set_other (k k' : string) (v : value) (o : object) :
  k <> k' -> obj_get k (obj_set k' v o) = obj_get k o.
Proof.
  intros Hne.
  induction o as [|[k0 v0] o IH]; simpl.
  - destruct (String.eqb_spec k' k); [congruence | reflexivity].
  - destruct (String.eqb_spec k0 k'); simpl.
    + subst k0. destruct (String.eqb_spec k' k); [congruence | reflexivity].
    + now rewrite IH.
Qed.

Lemma obj_keys_set (k : string) (v : value) (o : object) :
  In k (obj_keys o) -> obj_keys (obj_set k v o) = obj_keys o.
Proof.
  induction o as [|[k0 v0] o IH]; simpl; [tauto|].
  intros [->|Hin].
  - now rewrite String.eqb_refl.
  - destruct (String.eqb_spec k0 k); simpl.
    + now subst.
    + f_equal. now apply IH.
Qed.

Lemma obj_get_in (k : string) (v : value) (o : object) :
  NoDup (obj_keys o) -> In (k, v) o -> obj_get k o = v.
Proof.
  induction o as [|[k0 v0] o IH]; simpl; [tauto|].
  intros Hnd [Heq|Hin].
  - inversion Heq; subst. now rewrite String.eqb_refl.
  - inversion Hnd as [|? ? Hnot Hnd']; subst.
    destruct (String.eqb_spec k0 k).
    + subst k0. exfalso. apply Hnot.
      change k with (fst (k, v)). now apply in_map.
    + now apply IH.
Qed.

Lemma obj_delete_incl (k : string) (o : object) : incl (obj_delete k o) o.
Proof. intros p Hp. unfold obj_delete in Hp. now apply filter_In in Hp. Qed.

Lemma obj_delete_gone (k : string) (v : value) (o : object) :
  ~ In (k, v) (obj_delete k o).
Proof.
  unfold obj_delete. intros H. apply filter_In in H. destruct H as [_ H].
  simpl in H. now rewrite String.eqb_refl in H.
Qed.

Lemma obj_delete_nodup (k : string) (o : object) :
  NoDup (obj_keys o) -> NoDup (obj_keys (obj_delete k o)).
Proof.
  unfold obj_delete, obj_keys.
  induction o as [|[k0 v0] o IH]; simpl; intros Hnd; [constructor|].
  inversion Hnd as [|? ? Hnot Hnd']; subst.
  destruct (negb (String.eqb k0 k)); simpl; [|now apply IH].
  constructor; [|now apply IH].
  intros Hin. apply Hnot.
  apply in_map_iff in Hin. destruct Hin as [p [Hp Hin]].
  apply filter_In in Hin. apply in_map_iff. exists p. tauto.
Qed.

End ObjectFacts.

Create HintDb upd.
#[local] Hint Constructors updates : upd.

Lemma updates_trans (fs : list string) (a b c : object) :
  updates fs a b -> updates fs b c -> updates fs a c.
Proof. intros Hab Hbc. induction Hbc; auto with upd. Qed.

Lemma updates_incl (fs gs : list string) (a b : object) :
  incl fs gs -> updates fs a b -> updates gs a b.
Proof. intros Hi H. induction H; auto with upd. Qed.

Lemma updates_keys (fs : list string) (a b : object) :
  incl fs (obj_keys a) -> updates fs a b -> obj_keys b = obj_keys a.
Proof.
  intros Hi H. induction H; [reflexivity|].
  rewrite obj_keys_set; [now apply IHupdates|].
  rewrite IHupdates by assumption. now apply Hi.
Qed.

Lemma updates_get (fs : list string) (a b : object) (k : string) :
  ~ In k fs -> updates fs a b -> obj_get k b = obj_get k a.
Proof.
  intros Hn H. induction H; [reflexivity|].
  rewrite obj_get_set_other; [assumption|].
  intros ->. contradiction.
Qed.

(** ** What a successful match guarantees about its captures *)

Module RegexFacts.

Lemma defined_set (n i : nat) (v : string) (cs : list (nat * string)) :
  defined n cs \/ i = n -> defined n (cap_set i v cs).
Proof.
  unfold defined, cap_get, cap_set. simpl.
  destruct (Nat.eqb_spec i n); [discriminate|].
  intros [H|H]; [assumption | contradiction].
Qed.

Lemma step_inv A ok s (k : mstate -> option A) x :
  step ok s k = Some x -> exists s', k s' = Some x /\ caps s' = caps s.
Proof.
  unfold step. destruct (rest s); [discriminate|].
  destruct (ok a); [|discriminate]. intros H. eexists. split; [exact H|reflexivity].
Qed.

Lemma lit_inv A l : forall s (k : mstate -> option A) x,
  lit l s k = Some x -> exists s', k s' = Some x /\ caps s' = caps s.
Proof.
  induction l as [|p l IH]; simpl; intros s k x H.
  - now exists s.
  - apply step_inv in H. destruct H as [s1 [H E1]].
    apply IH in H. destruct H as [s2 [H E2]].
    exists s2. split; [assumption | congruence].
Qed.

Lemma rep_inv A ok r : forall lo hi p i cs (k : mstate -> option A) x,
  rep ok lo hi p r i cs k = Some x -> exists s', k s' = Some x /\ caps s' = cs.
Proof.
  induction r as [|c r IH]; intros lo hi p i cs k x; simpl.
  - destruct lo; [|discriminate]. intros H. eexists; split; [exact H|reflexivity].
  - destruct (ok c && _).
    + destruct (rep ok (Nat.pred lo) (option_map Nat.pred hi) (Some c) r (S i) cs k)
        eqn:E.
      * intros H; inversion H; subst. now apply IH in E.
      * destruct lo; [|discriminate]. intros H. eexists; split; [exact H|reflexivity].
    + destruct lo; [|discriminate]. intros H. eexists; split; [exact H|reflexivity].
Qed.

(** The continuation of a successful match was reached, with every
    earlier capture and every group the expression always goes through
    defined. *)
Lemma m_caps r : forall A s (k : mstate -> option A) x,
  m A r s k = Some x ->
  exists s', k s' = Some x /\
    forall n, defined n (caps s) \/ sets r n = true -> defined n (caps s').
Proof.
  induction r as [|l|cs| |r1 IHr1 r2 IHr2|r1 IHr1 r2 IHr2|r IHr|cs lo hi|g r IHr| |r IHr];
    intros A s k x H; simpl in H.
  - exists s. split; [assumption|]. simpl. intros n [Hn|Hn]; [assumption|discriminate].
  - apply lit_inv in H. destruct H as [s' [H E]]. exists s'. rewrite E.
    split; [assumption|]. simpl. intros n [Hn|Hn]; [assumption|discriminate].
  - apply step_inv in H. destruct H as [s' [H E]]. exists s'. rewrite E.
    split; [assumption|]. simpl. intros n [Hn|Hn]; [assumption|discriminate].
  - apply step_inv in H. destruct H as [s' [H E]]. exists s'. rewrite E.
    split; [assumption|]. simpl. intros n [Hn|Hn]; [assumption|discriminate].
  - apply IHr1 in H. destruct H as [s1 [H F1]].
    apply IHr2 in H. destruct H as [s2 [H F2]].
    exists s2. split; [assumption|]. simpl. intros n Hn.
    apply F2. destruct Hn as [Hn|Hn].
    + left. apply F1. now left.
    + apply orb_true_iff in Hn. destruct Hn as [Hn|Hn].
      * left. apply F1. now right.
      * now right.
  - destruct (m A r1 s k) eqn:E.
    + inversion H; subst. apply IHr1 in E. destruct E as [s' [E F]].
      exists s'. split; [assumption|]. simpl. intros n [Hn|Hn].
      * apply F; now left.
      * apply andb_true_iff in Hn. apply F. right. tauto.
    + apply IHr2 in H. destruct H as [s' [H F]].
      exists s'. split; [assumption|]. simpl. intros n [Hn|Hn].
      * apply F; now left.
      * apply andb_true_iff in Hn. apply F. right. tauto.
  - match type of H with
    | match ?c with _ => _ end = _ => destruct c eqn:E
    end.
    + inversion H; subst. apply IHr in E. destruct E as [s' [E F]].
      destruct (Nat.eqb (pos s') (pos s)); [discriminate|].
      exists s'. split; [assumption|]. simpl. intros n [Hn|Hn].
      * apply F; now left.
      * discriminate.
    + exists s. split; [assumption|]. simpl. intros n [Hn|Hn]; [assumption|discriminate].
  - apply rep_inv in H. destruct H as [s' [H E]]. exists s'. rewrite E.
    split; [assumption|]. simpl. intros n0 [Hn|Hn]; [assumption|discriminate].
  - apply IHr in H. destruct H as [s1 [H F]].
    eexists. split; [exact H|]. simpl. intros n0 Hn.
    apply defined_set.
    destruct Hn as [Hn|Hn].
    + left. apply F. now left.
    + apply orb_true_iff in Hn. destruct Hn as [Hn|Hn].
      * right. now apply Nat.eqb_eq.
      * left. apply F. now right.
  - destruct (at_boundary s); [|discriminate].
    exists s. split; [assumption|]. simpl. intros n [Hn|Hn]; [assumption|discriminate].
  - destruct (m unit r s (fun _ => Some tt)); [discriminate|].
    exists s. split; [assumption|]. simpl. intros n [Hn|Hn]; [assumption|discriminate].
Qed.

Lemma exec_at_sets r p t i mt n :
  exec_at r p t i = Some mt -> sets r n = true -> group mt n <> None.
Proof.
  unfold exec_at. intros H Hs.
  apply m_caps in H. destruct H as [s' [H F]].
  inversion H; subst. unfold group. simpl. apply F. now right.
Qed.

Lemma search_sets r t : forall p i mt n,
  search_from r p t i = Some mt -> sets r n = true -> group mt n <> None.
Proof.
  induction t as [|c t IH]; intros p i mt n; simpl.
  - destruct (exec_at r p "" i) eqn:E; [|discriminate].
    intros H; inversion H; subst. eapply exec_at_sets; eassumption.
  - destruct (exec_at r p (String c t) i) eqn:E.
    + intros H; inversion H; subst. eapply exec_at_sets; eassumption.
    + apply IH.
Qed.

(** [match[n]] is a string whenever the expression always goes through
    its group [n]. *)
Lemma exec_sets r text mt n :
  Regex.exec r text = Some mt -> sets r n = true ->
  exists g, group mt n = Some g.
Proof.
  intros H Hs. unfold Regex.exec in H.
  pose proof (search_sets _ _ _ _ _ _ H Hs) as Hd.
  destruct (group mt n) as [g|]; [now exists g | contradiction].
Qed.

End RegexFacts.

(** ** The footprint of every detection stage *)

#[local] Arguments mem : simpl never.
#[local] Arguments Regex.exec : simpl never.
#[local] Arguments Regex.test : simpl never.

Ltac break_match :=
  match goal with
  | |- context [match ?c with _ => _ end] => destruct c eqn:?
  end.

Ltac one_field :=
  repeat break_match; auto with upd;
  try (apply upd_set; [simpl; tauto | auto with upd]).

Lemma detect_action_upd text trade :
  updates ["action"; "tradeType"] trade (detect_action text trade).
Proof.
  unfold detect_action.
  repeat break_match; auto with upd;
    (apply upd_set; [simpl; tauto|]; apply upd_set; [simpl; tauto|]; apply upd_refl).
Qed.

Lemma exchange_loop_upd u l trade :
  updates ["exchange"] trade (exchange_loop u l trade).
Proof. induction l; simpl; one_field. Qed.

Lemma timeframe_loop_upd u l trade :
  updates ["timeframe"] trade (timeframe_loop u l trade).
Proof. induction l; simpl; one_field. Qed.

Lemma detect_indicators_upd text trade :
  updates ["indicators"] trade (detect_indicators text trade).
Proof. unfold detect_indicators; one_field. Qed.

Lemma leverage_loop_upd text l trade :
  updates ["leverage"] trade (leverage_loop text l trade).
Proof. induction l; simpl; one_field. Qed.

Lemma spoken_loop_upd u l trade :
  updates ["ticker"] trade (spoken_loop u l trade).
Proof. induction l; simpl; one_field. Qed.

Lemma pair_loop_upd u l trade :
  updates ["ticker"] trade (pair_loop u l trade).
Proof. induction l; simpl; one_field. Qed.

Lemma price_loop_upd text l trade :
  updates ["price"] trade (price_loop text l trade).
Proof. induction l; simpl; one_field. Qed.

Lemma quantity_loop_upd text l trade :
  updates ["quantity"] trade (quantity_loop text l trade).
Proof. induction l; simpl; one_field. Qed.

Lemma position_loop_upd text l trade :
  updates ["positionSize"] trade (position_loop text l trade).
Proof. induction l; simpl; one_field. Qed.

Lemma level_loop_upd field text l trade :
  updates [field] trade (level_loop field text l trade).
Proof. induction l; simpl; one_field. Qed.

Lemma breakeven_loop_upd text l trade :
  updates ["breakEven"] trade (breakeven_loop text l trade).
Proof. induction l; simpl; one_field. Qed.

(** ** The ticker cascade returns: no method is called on [undefined] *)

Import RegexFacts.

Lemma name_loop_ok u l trade :
  exists t, name_loop u l trade = Ret t /\ updates ["ticker"] trade t.
Proof.
  induction l as [|[cryptoName ticker] l IH]; simpl.
  - exists trade. auto with upd.
  - destruct (Regex.exec (namePattern cryptoName) u) as [mt|]; [|exact IH].
    destruct (group mt 1) as [g|] eqn:G; simpl.
    + destruct (negb (String.eqb g "")).
      * eexists; split; [reflexivity|]. apply upd_set; [simpl; tauto | apply upd_refl].
      * destruct (Regex.exec quotePattern u) as [qm|] eqn:Q.
        -- destruct (exec_sets _ _ _ 1 Q eq_refl) as [q ->]. simpl.
           eexists; split; [reflexivity|]. apply upd_set; [simpl; tauto | apply upd_refl].
        -- eexists; split; [reflexivity|]. apply upd_set; [simpl; tauto | apply upd_refl].
    + destruct (Regex.exec quotePattern u) as [qm|] eqn:Q.
      * destruct (exec_sets _ _ _ 1 Q eq_refl) as [q ->]. simpl.
        eexists; split; [reflexivity|]. apply upd_set; [simpl; tauto | apply upd_refl].
      * eexists; split; [reflexivity|]. apply upd_set; [simpl; tauto | apply upd_refl].
Qed.

Lemma detect_stock_ok u trade :
  exists t, detect_stock u trade = Ret t /\ updates ["ticker"] trade t.
Proof.
  unfold detect_stock.
  destruct (Regex.exec stockPattern u) as [mt|] eqn:E.
  - destruct (exec_sets _ _ _ 1 E eq_refl) as [g ->]. simpl.
    eexists; split; [reflexivity|]. apply upd_set; [simpl; tauto | apply upd_refl].
  - exists trade. auto with upd.
Qed.

Lemma or_else_defined a b g : b = Some g -> exists c, or_else a b = Some c.
Proof.
  intros ->. unfold or_else. destruct a as [s|]; [|eauto].
  destruct (String.eqb s ""); eauto.
Qed.

Lemma context_loop_ok u l trade :
  Forall (fun p => sets p 1 = true) l ->
  exists t, context_loop u l trade = Ret t /\ updates ["ticker"] trade t.
Proof.
  induction 1 as [|p l Hp Hl IH]; simpl.
  - exists trade. auto with upd.
  - destruct (Regex.exec p u) as [mt|] eqn:E; [|exact IH].
    destruct (exec_sets _ _ _ 1 E Hp) as [g G].
    destruct (or_else_defined (group mt 2) _ _ G) as [c ->]. simpl.
    destruct (negb (mem (toUpperCase c) EXCLUDED_WORDS)); [|exact IH].
    eexists; split; [reflexivity|]. apply upd_set; [simpl; tauto | apply upd_refl].
Qed.

Lemma unless_ticker_ok trade tier :
  (forall t0, exists t, tier t0 = Ret t /\ updates ["ticker"] t0 t) ->
  exists t, unless_ticker trade tier = Ret t /\ updates ["ticker"] trade t.
Proof.
  intros H. unfold unless_ticker.
  destruct (negb (truthy (obj_get "ticker" trade))); [apply H|].
  exists trade. auto with upd.
Qed.

Lemma detect_ticker_ok u trade :
  exists t, detect_ticker u trade = Ret t /\ updates ["ticker"] trade t.
Proof.
  unfold detect_ticker.
  pose proof (spoken_loop_upd u SPOKEN_PAIR_VARIANTS trade) as U1.
  destruct (unless_ticker_ok (spoken_loop u SPOKEN_PAIR_VARIANTS trade)
              (name_loop u CRYPTO_NAME_TO_TICKER)) as [t2 [E2 U2]];
    [intros; apply name_loop_ok|].
  rewrite E2. cbn [bind].
  destruct (unless_ticker_ok t2 (fun t => Ret (pair_loop u cryptoPairPatterns t)))
    as [t3 [E3 U3]];
    [intros; eexists; split; [reflexivity | apply pair_loop_upd]|].
  rewrite E3. cbn [bind].
  destruct (unless_ticker_ok t3 (detect_stock u)) as [t4 [E4 U4]];
    [intros; apply detect_stock_ok|].
  rewrite E4. cbn [bind].
  destruct (unless_ticker_ok t4 (context_loop u contextPatterns)) as [t5 [E5 U5]];
    [intros; apply context_loop_ok; repeat constructor|].
  exists t5. split; [assumption|].
  eauto using updates_trans.
Qed.

Lemma widen (fs : list string) (a b : object) :
  forallb (fun k => mem k all_fields) fs = true ->
  updates fs a b -> updates all_fields a b.
Proof.
  intros H. apply updates_incl. intros k Hk.
  rewrite forallb_forall in H. specialize (H k Hk).
  unfold mem in H. apply existsb_exists in H. destruct H as [k' [Hin E]].
  apply String.eqb_eq in E. now subst.
Qed.

(** The stages never fail, and together they only assign the thirteen
    fields of the object literal. *)
Lemma detect_ok (s : string) :
  exists t, detect s = Ret t /\ updates all_fields initial_trade t.
Proof.
  unfold detect.
  match goal with
  | |- context [detect_ticker ?u ?t0] =>
      destruct (detect_ticker_ok u t0) as [t [E U]]; rewrite E;
      assert (U0 : updates all_fields initial_trade t0)
  end.
  { repeat (eapply updates_trans;
            [| eapply widen;
               [| first [ apply leverage_loop_upd | apply detect_indicators_upd
                        | apply timeframe_loop_upd | apply exchange_loop_upd
                        | apply detect_action_upd ] ]; reflexivity ]).
    apply upd_refl. }
  cbn [bind]. eexists. split; [reflexivity|].
  repeat (eapply updates_trans;
          [| eapply widen;
             [| first [ apply breakeven_loop_upd | apply level_loop_upd
                      | apply position_loop_upd | apply quantity_loop_upd
                      | apply price_loop_upd ] ]; reflexivity ]).
  eapply updates_trans; [exact U0|]. eapply widen; [|exact U]. reflexivity.
Qed.

Lemma detect_keys (s : string) (t : object) :
  detect s = Ret t -> obj_keys t = all_fields.
Proof.
  intros H. destruct (detect_ok s) as [t' [E U]].
  rewrite H in E. inversion E; subst.
  apply (updates_keys all_fields); [apply incl_refl | assumption].
Qed.

Lemma all_fields_nodup : NoDup all_fields.
Proof.
  unfold all_fields. simpl.
  repeat (constructor; [simpl; intuition discriminate|]). constructor.
Qed.

(** ** The cleanup is a filter *)

Lemma filter_all {A} (f : A -> bool) (l : list A) :
  (forall x, In x l -> f x = true) -> filter f l = l.
Proof.
  induction l as [|a l IH]; simpl; intros H; [reflexivity|].
  rewrite (H a) by now left. f_equal. apply IH. intros x Hx. apply H. now right.
Qed.

Lemma filter_filter {A} (f g : A -> bool) (l : list A) :
  filter f (filter g l) = filter (fun x => g x && f x) l.
Proof.
  induction l as [|a l IH]; simpl; [reflexivity|].
  destruct (g a); simpl; [destruct (f a)|]; now rewrite IH.
Qed.

Lemma cleanup_step_filter (o : object) (k : string) :
  NoDup (obj_keys o) ->
  cleanup_step o k
  = filter (fun p => negb (String.eqb (fst p) k && is_empty (snd p))) o.
Proof.
  intros Hnd. unfold cleanup_step.
  destruct (is_empty (obj_get k o)) eqn:E.
  - unfold obj_delete. apply filter_ext_in. intros [k0 v0] Hin. simpl.
    destruct (String.eqb_spec k0 k); [|reflexivity].
    subst k0. rewrite <- (obj_get_in _ _ _ Hnd Hin). now rewrite E.
  - symmetry. apply filter_all. intros [k0 v0] Hin. simpl.
    destruct (String.eqb_spec k0 k); [|reflexivity].
    subst k0. rewrite <- (obj_get_in _ _ _ Hnd Hin). now rewrite E.
Qed.

Lemma filter_nodup_keys (f : string * value -> bool) (o : object) :
  NoDup (obj_keys o) -> NoDup (obj_keys (filter f o)).
Proof.
  unfold obj_keys.
  induction o as [|[k0 v0] o IH]; simpl; intros Hnd; [constructor|].
  inversion Hnd as [|? ? Hnot Hnd']; subst.
  destruct (f (k0, v0)); simpl; [|now apply IH].
  constructor; [|now apply IH].
  intros Hin. apply Hnot.
  apply in_map_iff in Hin. destruct Hin as [p [Hp Hin]].
  apply filter_In in Hin. apply in_map_iff. exists p. tauto.
Qed.

Lemma cleanup_fold (ks : list string) : forall o,
  NoDup (obj_keys o) ->
  fold_left cleanup_step ks o
  = filter (fun p => negb (mem (fst p) ks && is_empty (snd p))) o.
Proof.
  induction ks as [|k ks IH]; intros o Hnd; simpl.
  - symmetry. now apply filter_all.
  - rewrite IH.
    + rewrite cleanup_step_filter by assumption.
      rewrite filter_filter. apply filter_ext. intros [k0 v0]. simpl.
      unfold mem. simpl. rewrite (String.eqb_sym k0 k).
      destruct (String.eqb k k0), (existsb (String.eqb k0) ks), (is_empty v0);
        reflexivity.
    + rewrite cleanup_step_filter by assumption. now apply filter_nodup_keys.
Qed.

Lemma cleanup_filter (o : object) :
  NoDup (obj_keys o) -> cleanup o = filter kept o.
Proof.
  intros Hnd. unfold cleanup. change (fold_left _ (obj_keys o) o)
    with (fold_left cleanup_step (obj_keys o) o).
  rewrite cleanup_fold by assumption.
  apply filter_ext_in. intros [k0 v0] Hin. unfold kept. simpl.
  replace (mem k0 (obj_keys o)) with true; [reflexivity|].
  symmetry. unfold mem. apply existsb_exists. exists k0.
  split; [|apply String.eqb_refl].
  change k0 with (fst (k0, v0)). now apply in_map.
Qed.

Lemma obj_get_filter_kept (k : string) (o : object) :
  NoDup (obj_keys o) ->
  obj_get k (filter kept o)
  = if is_empty (obj_get k o) then VUndefined else obj_get k o.
Proof.
  induction o as [|[k0 v0] o IH]; simpl; intros Hnd; [reflexivity|].
  inversion Hnd as [|? ? Hnot Hnd']; subst.
  unfold kept at 1. simpl.
  destruct (String.eqb_spec k0 k).
  - subst k0. destruct (is_empty v0) eqn:E; simpl.
    + assert (Hout : forall o', ~ In k (obj_keys o') -> obj_get k o' = VUndefined).
      { induction o' as [|[k1 v1] o' IH']; simpl; [reflexivity|].
        intros Hn. destruct (String.eqb_spec k1 k); [tauto|]. apply IH'. tauto. }
      apply Hout. intros Hin. apply Hnot.
      unfold obj_keys in *. apply in_map_iff in Hin. destruct Hin as [p [Hp Hin]].
      apply filter_In in Hin. apply in_map_iff. exists p. tauto.
    + now rewrite String.eqb_refl.
  - destruct (is_empty v0); simpl.
    + now apply IH.
    + destruct (String.eqb_spec k0 k); [contradiction|]. now apply IH.
Qed.

(** What [extractTradeInfo] returns on a string, in one equation. *)
Lemma extract_spec (s : string) :
  exists trade,
    detect s = Ret trade /\ obj_keys trade = all_fields /\
    extract s
    = Ret (if String.eqb s "" then None
           else if hasTradeInfo trade then Some (filter kept trade) else None).
Proof.
  destruct (detect_ok s) as [trade [E U]].
  exists trade. split; [assumption|].
  pose proof (detect_keys _ _ E) as K. split; [assumption|].
  unfold extract, extractTradeInfo. simpl truthy.
  destruct (String.eqb s ""); simpl; [reflexivity|].
  rewrite E. cbn [bind].
  destruct (hasTradeInfo trade); simpl; [|reflexivity].
  rewrite cleanup_filter; [reflexivity|].
  rewrite K. apply all_fields_nodup.
Qed.

(** ** The end-to-end scenario, totality and the sparse record *)

(** C1. The end-to-end transcript yields exactly the six fields ticker
    BTC/USDT, action buy, tradeType long, positionSize 500, stopLoss 86000
    and takeProfit 94000 (listed here in the key order of the object
    literal); price and quantity are absent, and the comma-grouped text
    86,000 parses to the number 86000. *)
Theorem C1_end_to_end :
  let record :=
    [("ticker", VStr "BTC/USDT"); ("action", VStr "buy");
     ("stopLoss", n_ 86000); ("takeProfit", n_ 94000);
     ("positionSize", n_ 500); ("tradeType", VStr "long")] in
  extract "Open Long BTC USDT, Mean Reversion Trade, 500 USD, stop loss at 86,000, take profit at 94,000 USD."
  = Ret (Some record)
  /\ obj_keys record
     = ["ticker"; "action"; "stopLoss"; "takeProfit"; "positionSize"; "tradeType"]
  /\ obj_get "price" record = VUndefined
  /\ obj_get "quantity" record = VUndefined
  /\ parseNumber (Some "86,000") = Some (of_Z 86000)
  /\ parseNumber (Some "86,000") = parseNumber (Some "86000")
  /\ (exists r, extract "stop loss at 86,000" = Ret (Some r) /\
                obj_get "stopLoss" r = n_ 86000).
Proof.
  cbv zeta. repeat split; try (vm_compute; reflexivity).
  eexists. split; vm_compute; reflexivity.
Qed.

(** C2. An input that is the empty string or not a string at all yields
    null, and on every input whatsoever [extractTradeInfo] returns a
    result: no step of it throws. *)
Theorem C2_null_and_never_throws (text : value) :
  (exists r, extractTradeInfo text = Ret r) /\
  ((forall s, text = VStr s -> s = "") -> extractTradeInfo text = Ret None).
Proof.
  destruct text as [| |b|q|s|l]; try (split; [eexists|intros _]; reflexivity).
  destruct (extract_spec s) as [trade [_ [_ E]]].
  unfold extract in E. rewrite E. split; [eexists; reflexivity|].
  intros H. rewrite (H s eq_refl). reflexivity.
Qed.

Lemma C2_witness :
  extractTradeInfo VNull = Ret None /\
  extractTradeInfo (VNum (of_Z 5)) = Ret None /\
  extractTradeInfo (VStr "") = Ret None /\
  exists r, extractTradeInfo (VStr "Buy AAPL") = Ret r.
Proof.
  split; [apply (C2_null_and_never_throws VNull); intros s H; discriminate H|].
  split; [apply (C2_null_and_never_throws (VNum (of_Z 5))); intros s H; discriminate H|].
  split; [apply (C2_null_and_never_throws (VStr "")); intros s H; now inversion H|].
  apply (C2_null_and_never_throws (VStr "Buy AAPL")).
Defined.

(** C8. Sparse-record invariant: a record returned by [extractTradeInfo]
    is the detected object with its empty fields deleted, so none of its
    fields holds null or an empty array; a field that was not detected is
    absent (reading it gives undefined). *)
Theorem C8_sparse_record (text : value) (r : object) :
  extractTradeInfo text = Ret (Some r) ->
  (forall k v, In (k, v) r -> v <> VNull /\ v <> VArr []) /\
  (forall k, obj_get k r <> VNull /\ obj_get k r <> VArr []) /\
  (exists s trade, text = VStr s /\ detect s = Ret trade /\
     forall k, obj_get k r
               = if is_empty (obj_get k trade) then VUndefined
                 else obj_get k trade).
Proof.
  intros H.
  destruct text as [| |b|q|s|l]; try discriminate H.
  destruct (extract_spec s) as [trade [D [K E]]].
  unfold extract in E. rewrite E in H.
  destruct (String.eqb s ""); [discriminate|].
  destruct (hasTradeInfo trade); [|discriminate].
  inversion H; subst r. clear H E.
  assert (Hnd : NoDup (obj_keys trade)) by (rewrite K; apply all_fields_nodup).
  assert (G : forall k, obj_get k (filter kept trade)
                        = if is_empty (obj_get k trade) then VUndefined
                          else obj_get k trade)
    by (intros k; now apply obj_get_filter_kept).
  split; [|split].
  - intros k v Hin. apply filter_In in Hin. destruct Hin as [_ Hk].
    unfold kept in Hk. simpl in Hk.
    split; intros ->; discriminate Hk.
  - intros k. rewrite G.
    destruct (is_empty (obj_get k trade)) eqn:E; [split; discriminate|].
    split; intros Hv; rewrite Hv in E; discriminate E.
  - exists s, trade. auto.
Qed.

Lemma C8_witness :
  extractTradeInfo (VStr "Buy AAPL stop loss at $140")
  = Ret (Some [("ticker", VStr "AAPL"); ("action", VStr "buy");
               ("stopLoss", n_ 140); ("tradeType", VStr "long")]) /\
  (forall k v,
      In (k, v) [("ticker", VStr "AAPL"); ("action", VStr "buy");
                 ("stopLoss", n_ 140); ("tradeType", VStr "long")] ->
      v <> VNull /\ v <> VArr []).
Proof.
  assert (H : extractTradeInfo (VStr "Buy AAPL stop loss at $140")
              = Ret (Some [("ticker", VStr "AAPL"); ("action", VStr "buy");
                           ("stopLoss", n_ 140); ("tradeType", VStr "long")]))
    by (vm_compute; reflexivity).
  split; [exact H|].
  exact (proj1 (C8_sparse_record _ _ H)).
Defined.

(** ** The entry price and its exclusion window *)

(** C3. A candidate entry-price match whose preceding 20-character
    window contains a stop-loss, target or take-profit keyword is
    rejected and the next pattern is tried; when every candidate is
    rejected no price is set.  In "Buy AAPL stop loss at $140" both
    candidates (the "at $140" of the first pattern and the "$140" of the
    second) are rejected, the third pattern does not match, so price is
    absent and stopLoss is 140. *)
Theorem C3_stop_loss_not_price :
  (forall text pattern l trade mt,
      Regex.exec pattern text = Some mt -> excluded text mt = true ->
      price_loop text (pattern :: l) trade = price_loop text l trade) /\
  (forall text l trade,
      (forall pattern mt, In pattern l -> Regex.exec pattern text = Some mt ->
                          excluded text mt = true) ->
      price_loop text l trade = trade) /\
  (let text := "Buy AAPL stop loss at $140" in
   map (fun p => option_map (fun mt => (index mt, group mt 1, excluded text mt))
                            (Regex.exec p text)) pricePatterns
   = [Some (19, Some "140", true); Some (22, Some "140", true); None] /\
   extract text
   = Ret (Some [("ticker", VStr "AAPL"); ("action", VStr "buy");
                ("stopLoss", n_ 140); ("tradeType", VStr "long")]) /\
   forall r, extract text = Ret (Some r) ->
             obj_get "price" r = VUndefined /\ obj_get "stopLoss" r = n_ 140).
Proof.
  assert (R : forall text pattern l trade mt,
      Regex.exec pattern text = Some mt -> excluded text mt = true ->
      price_loop text (pattern :: l) trade = price_loop text l trade).
  { intros text pattern l trade mt E X. simpl. rewrite E.
    unfold excluded, beforeText in X. rewrite X. reflexivity. }
  split; [exact R|]. split.
  - intros text l trade. induction l as [|p l IH]; intros H; [reflexivity|].
    destruct (Regex.exec p text) as [mt|] eqn:E.
    + rewrite (R _ _ _ _ _ E); [|apply (H p mt); [now left | assumption]].
      apply IH. intros p' mt' Hin. apply H. now right.
    + simpl. rewrite E. apply IH. intros p' mt' Hin. apply H. now right.
  - cbv zeta.
    assert (E : extract "Buy AAPL stop loss at $140"
                = Ret (Some [("ticker", VStr "AAPL"); ("action", VStr "buy");
                             ("stopLoss", n_ 140); ("tradeType", VStr "long")]))
      by (vm_compute; reflexivity).
    split; [vm_compute; reflexivity|]. split; [exact E|].
    intros r Hr. rewrite E in Hr. inversion Hr; subst. split; reflexivity.
Qed.

Lemma C3_witness :
  price_loop "Buy AAPL stop loss at $140" pricePatterns initial_trade
  = price_loop "Buy AAPL stop loss at $140" (tl pricePatterns) initial_trade /\
  price_loop "stop loss at $140" [hd Eps (tl pricePatterns)] initial_trade
  = initial_trade.
Proof.
  split.
  - apply (proj1 C3_stop_loss_not_price "Buy AAPL stop loss at $140"
             (hd Eps pricePatterns) (tl pricePatterns) initial_trade
             (MResult 19 26 [(1, "140")])); vm_compute; reflexivity.
  - apply (proj1 (proj2 C3_stop_loss_not_price) "stop loss at $140"
             [hd Eps (tl pricePatterns)] initial_trade).
    intros pattern mt [<-|[]] E.
    assert (M : mt = MResult 13 17 [(1, "140")])
      by (vm_compute in E; inversion E; reflexivity).
    rewrite M. vm_compute. reflexivity.
Defined.

(** ** Stop loss *)

Lemma level_loop_eq field text l trade :
  level_loop field text l trade
  = match first_level text l with
    | Some v => obj_set field (VNum v) trade
    | None => trade
    end.
Proof.
  induction l as [|p l IH]; simpl; [reflexivity|].
  destruct (Regex.exec p text) as [mt|]; [|exact IH].
  destruct (parseNumber (group mt 1)); [reflexivity | exact IH].
Qed.

(** ** The detected object, field by field *)

Lemma Ret_inj {A} (a b : A) : Ret a = Ret b -> a = b.
Proof. intros H. now injection H. Qed.

Lemma detect_unfold (s : string) (trade : object) :
  detect s = Ret trade ->
  exists t, detect_ticker (toUpperCase s) (before_ticker s) = Ret t /\
            updates ["ticker"] (before_ticker s) t /\
            trade = after_ticker s t.
Proof.
  unfold detect. fold (before_ticker s).
  destruct (detect_ticker_ok (toUpperCase s) (before_ticker s)) as [t [E U]].
  rewrite E. cbn [bind]. intros H. apply Ret_inj in H.
  exists t. split; [reflexivity|]. split; [assumption|].
  symmetry. exact H.
Qed.

Ltac other_field := simpl; intuition discriminate.

Ltac frame_step :=
  match goal with
  | |- context [obj_get ?k (breakeven_loop ?t ?l ?o)] =>
      rewrite (updates_get ["breakEven"] o _ k ltac:(other_field)
                 (breakeven_loop_upd t l o))
  | |- context [obj_get ?k (level_loop ?f ?t ?l ?o)] =>
      rewrite (updates_get [f] o _ k ltac:(other_field) (level_loop_upd f t l o))
  | |- context [obj_get ?k (position_loop ?t ?l ?o)] =>
      rewrite (updates_get ["positionSize"] o _ k ltac:(other_field)
                 (position_loop_upd t l o))
  | |- context [obj_get ?k (quantity_loop ?t ?l ?o)] =>
      rewrite (updates_get ["quantity"] o _ k ltac:(other_field)
                 (quantity_loop_upd t l o))
  | |- context [obj_get ?k (price_loop ?t ?l ?o)] =>
      rewrite (updates_get ["price"] o _ k ltac:(other_field)
                 (price_loop_upd t l o))
  | |- context [obj_get ?k (leverage_loop ?t ?l ?o)] =>
      rewrite (updates_get ["leverage"] o _ k ltac:(other_field)
                 (leverage_loop_upd t l o))
  | |- context [obj_get ?k (detect_indicators ?t ?o)] =>
      rewrite (updates_get ["indicators"] o _ k ltac:(other_field)
                 (detect_indicators_upd t o))
  | |- context [obj_get ?k (timeframe_loop ?t ?l ?o)] =>
      rewrite (updates_get ["timeframe"] o _ k ltac:(other_field)
                 (timeframe_loop_upd t l o))
  | |- context [obj_get ?k (exchange_loop ?t ?l ?o)] =>
      rewrite (updates_get ["exchange"] o _ k ltac:(other_field)
                 (exchange_loop_upd t l o))
  | |- context [obj_get ?k (detect_action ?t ?o)] =>
      rewrite (updates_get ["action"; "tradeType"] o _ k ltac:(other_field)
                 (detect_action_upd t o))
  | U : updates ["ticker"] ?a ?b |- context [obj_get ?k ?b] =>
      rewrite (updates_get ["ticker"] a b k ltac:(other_field) U)
  end.

(** The stop-loss field is what the stop-loss patterns read in the
    normalised text, whatever the other stages found. *)
Lemma detect_stopLoss (s : string) (trade : object) :
  detect s = Ret trade ->
  obj_get "stopLoss" trade
  = match first_level (normalize_loop STOP_LOSS_VARIANTS (toUpperCase s))
            stopLossPatterns with
    | Some v => VNum v
    | None => VNull
    end.
Proof.
  intros H. apply detect_unfold in H. destruct H as [t [_ [U ->]]].
  unfold after_ticker. do 2 frame_step.
  rewrite level_loop_eq.
  destruct (first_level _ stopLossPatterns) as [v|].
  - apply obj_get_set_same.
  - unfold before_ticker in U. repeat frame_step. reflexivity.
Qed.

Lemma detect_indicators_field (s : string) (trade : object) :
  detect s = Ret trade ->
  obj_get "indicators" trade = VArr (indicator_loop s INDICATORS []).
Proof.
  intros H. apply detect_unfold in H. destruct H as [t [_ [U ->]]].
  unfold after_ticker. repeat frame_step.
  unfold before_ticker. frame_step.
  unfold detect_indicators.
  assert (E : obj_get "indicators"
                (timeframe_loop (toUpperCase s) TIMEFRAME_VARIANTS
                   (exchange_loop (toUpperCase s) EXCHANGES
                      (detect_action s initial_trade))) = VArr []).
  { repeat frame_step. reflexivity. }
  rewrite E. apply obj_get_set_same.
Qed.

(** C4. The mishearing Stopplers is rewritten to STOP LOSS in the whole
    upper-cased text before the stop-loss patterns run, so
    "Stopplers at 92000" yields stopLoss 92000; in general the stop-loss
    field is read by the stop-loss patterns from the normalised text. *)
Theorem C4_stopplers :
  normalize_loop STOP_LOSS_VARIANTS (toUpperCase "Stopplers at 92000")
  = "STOP LOSS AT 92000" /\
  first_level "STOPPLERS AT 92000" stopLossPatterns = None /\
  extract "Stopplers at 92000"
  = Ret (Some [("price", n_ 92000); ("stopLoss", n_ 92000)]) /\
  (exists r, extract "Stopplers at 92000" = Ret (Some r) /\
             obj_get "stopLoss" r = n_ 92000) /\
  (forall s,
      exists trade, detect s = Ret trade /\
        obj_get "stopLoss" trade
        = match first_level (normalize_loop STOP_LOSS_VARIANTS (toUpperCase s))
                  stopLossPatterns with
          | Some v => VNum v
          | None => VNull
          end).
Proof.
  split; [vm_compute; reflexivity|].
  split; [vm_compute; reflexivity|].
  split; [vm_compute; reflexivity|].
  split; [eexists; split; vm_compute; reflexivity|].
  intros s. destruct (detect_ok s) as [trade [E _]].
  exists trade. split; [assumption|]. now apply detect_stopLoss.
Qed.

(** ** The validity gate *)

Lemma null_or_zero_falsy (v : value) : null_or_zero v -> truthy v = false.
Proof.
  intros [->|[q [-> Hq]]]; [reflexivity|].
  simpl. unfold is_zero. apply Qeq_bool_iff in Hq. now rewrite Hq.
Qed.

(** C10. The gate tests truthiness, so a detected value of exactly 0 does
    not count: when each of the seven gate fields is unset or zero the
    result is null.  "price is 0" is such an input: the price pattern
    matches and parses 0, and the result is null. *)
Theorem C10_zero_is_falsy :
  (forall s trade,
      detect s = Ret trade ->
      (forall k, In k gate_fields -> null_or_zero (obj_get k trade)) ->
      extract s = Ret None) /\
  (exists trade,
      detect "price is 0" = Ret trade /\
      obj_get "price" trade = VNum (of_Z 0) /\
      option_map (fun mt => group mt 1)
        (Regex.exec (hd Eps pricePatterns) "price is 0") = Some (Some "0") /\
      extract "price is 0" = Ret None).
Proof.
  split.
  - intros s trade D H.
    destruct (extract_spec s) as [trade' [D' [_ E]]].
    rewrite D in D'. inversion D'; subst trade'. rewrite E.
    destruct (String.eqb s ""); [reflexivity|].
    replace (hasTradeInfo trade) with false; [reflexivity|].
    symmetry. unfold hasTradeInfo.
    apply not_true_is_false. intros Hex.
    apply existsb_exists in Hex. destruct Hex as [k [Hin Ht]].
    rewrite (null_or_zero_falsy _ (H k Hin)) in Ht. discriminate.
  - eexists. split; [vm_compute; reflexivity|].
    repeat split; vm_compute; reflexivity.
Qed.

Lemma C10_witness : extract "price is 0" = Ret None.
Proof.
  assert (D : detect "price is 0"
              = Ret (obj_set "price" (VNum (of_Z 0)) initial_trade))
    by (vm_compute; reflexivity).
  apply (proj1 C10_zero_is_falsy "price is 0" _ D).
  intros k Hin. simpl in Hin.
  repeat (destruct Hin as [<-|Hin];
          [first [ left; reflexivity
                 | right; exists (of_Z 0); split; reflexivity ]|]).
  destruct Hin.
Defined.

(** C5 (failing input).  On "price is 0" the price stage finds the entry
    price 0, yet the gate discards the record: a field was detected and
    the result is null all the same.  With any truthy neighbour the same
    zero price is kept in the record.  Texts in which no stage finds
    anything, such as "The weather is nice", give null as they should,
    and so does a text in which only an exchange, a timeframe, an
    indicator, a leverage and a break-even cue are found. *)
Theorem C5_detected_zero_is_dropped :
  (exists trade,
      detect "price is 0" = Ret trade /\
      obj_get "price" trade = VNum (of_Z 0) /\
      extract "price is 0" = Ret None) /\
  extract "Buy at 0"
  = Ret (Some [("action", VStr "buy"); ("price", VNum (of_Z 0));
               ("tradeType", VStr "long")]) /\
  extract "The weather is nice" = Ret None /\
  (exists trade,
      detect "Binance 4 hour chart RSI 10x leverage move stop to break even"
      = Ret trade /\
      map (fun k => obj_get k trade)
          ["exchange"; "timeframe"; "indicators"; "leverage"; "breakEven"]
      = [VStr "Binance"; VStr "4h"; VArr ["RSI"]; VNum (of_Z 10); VBool true] /\
      extract "Binance 4 hour chart RSI 10x leverage move stop to break even"
      = Ret None).
Proof.
  split; [eexists; repeat split; vm_compute; reflexivity|].
  split; [vm_compute; reflexivity|]. split; [vm_compute; reflexivity|].
  eexists. repeat split; vm_compute; reflexivity.
Qed.

(** ** Indicators *)

Lemma subseq_incl {A : Type} (l1 l2 : list A) : subseq l1 l2 -> incl l1 l2.
Proof.
  induction 1; intros y Hy.
  - assumption.
  - right. now apply IHsubseq.
  - destruct Hy as [<-|Hy]; [now left | right; now apply IHsubseq].
Qed.

Lemma subseq_nil {A : Type} (l : list A) : subseq [] l.
Proof. induction l; constructor; assumption. Qed.

Lemma mem_In (x : string) (l : list string) : mem x l = true <-> In x l.
Proof.
  unfold mem. rewrite existsb_exists. split.
  - intros [y [Hy E]]. apply String.eqb_eq in E. now subst.
  - intros H. exists x. split; [assumption | apply String.eqb_refl].
Qed.

Section IndicatorLoop.
Variable text : string.

(** The array after the loop is the array before it followed by the
    normalised names of some matching entries, in table order, and it
    stays free of duplicates. *)
Lemma indicator_loop_spec (l : list string) : forall acc,
  NoDup acc ->
  NoDup (indicator_loop text l acc) /\
  exists hits,
    subseq hits l /\
    Forall (fun i => hit text i = true) hits /\
    indicator_loop text l acc = (acc ++ map normalizedIndicator hits)%list.
Proof.
  induction l as [|a l IH]; intros acc Hnd; simpl.
  - split; [assumption|]. exists []. repeat split; [constructor..|].
    now rewrite app_nil_r.
  - fold (hit text a). destruct (hit text a) eqn:Ha.
    + destruct (mem (normalizedIndicator a) acc) eqn:Hm.
      * destruct (IH acc Hnd) as [N [hits [S [F E]]]].
        split; [assumption|]. exists hits. repeat split; try assumption.
        now constructor.
      * assert (Hnd' : NoDup (push acc (normalizedIndicator a))).
        { unfold push. apply NoDup_app; [assumption | repeat constructor; intros []|].
          intros x Hx [<-|[]].
          apply mem_In in Hx. congruence. }
        destruct (IH _ Hnd') as [N [hits [S [F E]]]].
        split; [assumption|]. exists (a :: hits).
        repeat split; [now constructor | now constructor |].
        rewrite E. unfold push. now rewrite <- app_assoc.
    + destruct (IH acc Hnd) as [N [hits [S [F E]]]].
      split; [assumption|]. exists hits. repeat split; try assumption.
      now constructor.
Qed.

Lemma indicator_loop_keeps (l : list string) : forall acc x,
  In x acc -> In x (indicator_loop text l acc).
Proof.
  induction l as [|a l IH]; intros acc x Hx; simpl; [assumption|].
  apply IH. destruct (Regex.test _ _); [|assumption].
  destruct (mem _ acc); [assumption|]. unfold push. apply in_or_app. now left.
Qed.

(** A matching entry of the table always leaves its normalised name in
    the array. *)
Lemma indicator_loop_hit (l : list string) : forall acc i,
  In i l -> hit text i = true ->
  In (normalizedIndicator i) (indicator_loop text l acc).
Proof.
  induction l as [|a l IH]; intros acc i Hin Hi; [destruct Hin|].
  destruct Hin as [->|Hin]; [|now apply IH].
  simpl. fold (hit text i). rewrite Hi. apply indicator_loop_keeps.
  destruct (mem (normalizedIndicator i) acc) eqn:Hm.
  - now apply mem_In.
  - unfold push. apply in_or_app. right. now left.
Qed.
End IndicatorLoop.

Lemma extract_indicators (s : string) (r : object) :
  extract s = Ret (Some r) ->
  indicators_of r = indicator_loop s INDICATORS [].
Proof.
  intros H. destruct (extract_spec s) as [trade [D [K E]]].
  rewrite E in H. destruct (String.eqb s ""); [discriminate|].
  destruct (hasTradeInfo trade); [|discriminate].
  apply Ret_inj in H. injection H as <-.
  unfold indicators_of. rewrite obj_get_filter_kept
    by (rewrite K; apply all_fields_nodup).
  rewrite (detect_indicators_field _ _ D).
  destruct (indicator_loop s INDICATORS []); reflexivity.
Qed.

(** C6 (as stated, refuted).  In "Buy AAPL EMA then RSI" EMA is mentioned
    first, yet the record lists RSI before EMA: the array follows the
    order of the vocabulary table, not the order of mention. *)
Lemma C6_counterexample :
  exists r,
    extract "Buy AAPL EMA then RSI" = Ret (Some r) /\
    indicators_of r = ["RSI"; "EMA"] /\
    mention_index "Buy AAPL EMA then RSI" "EMA" = Some 9 /\
    mention_index "Buy AAPL EMA then RSI" "RSI" = Some 18 /\
    ~ ordered_by_first_mention "Buy AAPL EMA then RSI" (indicators_of r).
Proof.
  eexists. split; [vm_compute; reflexivity|].
  split; [reflexivity|]. split; [vm_compute; reflexivity|].
  split; [vm_compute; reflexivity|].
  intros H.
  specialize (H 0 1 "RSI" "EMA" 18 9 (Nat.lt_0_1) eq_refl eq_refl).
  assert (A : mention_index "Buy AAPL EMA then RSI" "RSI" = Some 18)
    by (vm_compute; reflexivity).
  assert (B : mention_index "Buy AAPL EMA then RSI" "EMA" = Some 9)
    by (vm_compute; reflexivity).
  specialize (H A B). lia.
Qed.

(** C6 (amended).  For every input yielding a record, the indicators field
    has no duplicates; a text containing the word MACD, MHCD or MCD
    contributes MACD, and MHCD and MCD themselves are never listed; every
    other entry of the vocabulary table found in the text as a whole word
    contributes its name.  When the variant "MAC D" does not occur in the
    text, the field is exactly the names of the entries found, in the
    order of the vocabulary table, not in the order of mention.  What the
    variant "MAC D" contributes is left out: neither promised nor
    denied. *)
Theorem C6_indicators (s : string) (r : object) :
  extract s = Ret (Some r) ->
  NoDup (indicators_of r) /\
  (forall i, In i ["MACD"; "MHCD"; "MCD"] -> hit s i = true ->
             In "MACD" (indicators_of r)) /\
  ~ In "MHCD" (indicators_of r) /\ ~ In "MCD" (indicators_of r) /\
  (forall i, In i INDICATORS -> i <> "MAC D" -> hit s i = true ->
             In (normalizedIndicator i) (indicators_of r)) /\
  (hit s "MAC D" = false ->
   exists hits,
     subseq hits INDICATORS /\ ~ In "MAC D" hits /\
     Forall (fun i => hit s i = true) hits /\
     indicators_of r = map normalizedIndicator hits).
Proof.
  intros H. rewrite (extract_indicators _ _ H).
  destruct (indicator_loop_spec s INDICATORS [] (NoDup_nil _))
    as [N [hits [S [F E]]]].
  simpl app in E.
  assert (Hhit : forall i, In i INDICATORS -> hit s i = true ->
                 In (normalizedIndicator i) (indicator_loop s INDICATORS []))
    by (intros i Hi Ht; now apply indicator_loop_hit).
  assert (Hnames : forall x, In x (indicator_loop s INDICATORS []) ->
                   exists i, In i INDICATORS /\ x = normalizedIndicator i).
  { intros x Hx. rewrite E in Hx. apply in_map_iff in Hx.
    destruct Hx as [i [<- Hi]]. exists i. split; [|reflexivity].
    now apply (subseq_incl _ _ S). }
  assert (Hnot : forall bad, In bad ["MHCD"; "MCD"] ->
                 ~ In bad (indicator_loop s INDICATORS [])).
  { intros bad Hbad Hin. destruct (Hnames _ Hin) as [i [Hi ->]].
    simpl in Hi, Hbad.
    repeat (destruct Hi as [<-|Hi];
            [vm_compute in Hbad; intuition discriminate|]).
    destruct Hi. }
  split; [assumption|].
  split; [|split; [|split; [|split]]].
  - intros i Hi Ht.
    assert (Hin : In i INDICATORS /\ normalizedIndicator i = "MACD").
    { simpl in Hi. destruct Hi as [<-|[<-|[<-|[]]]]; split;
        solve [reflexivity | simpl; tauto]. }
    destruct Hin as [Hin <-]. now apply Hhit.
  - apply Hnot. simpl. tauto.
  - apply Hnot. simpl. tauto.
  - intros i Hi _ Ht. now apply Hhit.
  - intros Hm. exists hits. repeat split; try assumption.
    intros Hin. rewrite Forall_forall in F. specialize (F _ Hin). congruence.
Qed.

Lemma C6_witness :
  extract "Buy AAPL on MHCD crossover and RSI"
  = Ret (Some [("ticker", VStr "AAPL"); ("action", VStr "buy");
               ("indicators", VArr ["RSI"; "MACD"]);
               ("tradeType", VStr "long")]) /\
  NoDup (indicators_of [("ticker", VStr "AAPL"); ("action", VStr "buy");
                        ("indicators", VArr ["RSI"; "MACD"]);
                        ("tradeType", VStr "long")]).
Proof.
  assert (H : extract "Buy AAPL on MHCD crossover and RSI"
              = Ret (Some [("ticker", VStr "AAPL"); ("action", VStr "buy");
                           ("indicators", VArr ["RSI"; "MACD"]);
                           ("tradeType", VStr "long")]))
    by (vm_compute; reflexivity).
  split; [exact H|].
  exact (proj1 (C6_indicators _ _ H)).
Defined.

(** ** The shape of a formatted number *)

Module FormatFacts.

Lemma append_assoc (a b c : string) : (a ++ b) ++ c = a ++ b ++ c.
Proof. induction a as [|x a IH]; simpl; [reflexivity | now rewrite IH]. Qed.

Lemma append_nil_r (a : string) : a ++ "" = a.
Proof. induction a as [|x a IH]; simpl; [reflexivity | now rewrite IH]. Qed.

Lemma is_digit_digit_char (d : N) : (d < 10)%N -> is_digit (digit_char d) = true.
Proof.
  intros H. unfold is_digit, in_range, code, digit_char.
  rewrite N_ascii_embedding by lia.
  apply andb_true_iff. split; apply N.leb_le; lia.
Qed.

Lemma dec_digits_digits (f : nat) : forall n acc,
  all_digits acc = true -> all_digits (dec_digits f n acc) = true.
Proof.
  induction f as [|f IH]; intros n acc H; simpl; [assumption|].
  assert (D : all_digits (String (digit_char (n mod 10)) acc) = true).
  { simpl. rewrite H, is_digit_digit_char; [reflexivity|].
    apply N.mod_lt. lia. }
  destruct (n / 10 =? 0)%N; [exact D | now apply IH].
Qed.

Lemma dec_digits_length (f : nat) : forall n acc k,
  (n < 10 ^ N.of_nat (S k))%N ->
  String.length (dec_digits f n acc) <= S k + String.length acc.
Proof.
  induction f as [|f IH]; intros n acc k H; simpl; [lia|].
  destruct (N.eqb_spec (n / 10) 0) as [E|E]; simpl; [lia|].
  destruct k as [|k].
  - exfalso. apply E. apply N.div_small. simpl in H. lia.
  - assert (H' : (n / 10 < 10 ^ N.of_nat (S k))%N).
    { apply N.Div0.div_lt_upper_bound.
      rewrite Nat2N.inj_succ, N.pow_succ_r' in H. exact H. }
    specialize (IH (n / 10)%N (String (digit_char (n mod 10)) acc) k H').
    simpl in IH. lia.
Qed.

Lemma dec_digits_nonempty (f : nat) (n : N) (acc : string) :
  dec_digits (S f) n acc <> "".
Proof.
  assert (G : forall f n c acc, dec_digits f n (String c acc) <> "").
  { clear. induction f as [|f IH]; intros n c acc; simpl; [discriminate|].
    destruct (n / 10 =? 0)%N; [discriminate | apply IH]. }
  simpl. destruct (n / 10 =? 0)%N; [discriminate | apply G].
Qed.

Lemma N_to_string_digits (n : N) : all_digits (N_to_string n) = true.
Proof. unfold N_to_string. now apply dec_digits_digits. Qed.

Lemma N_to_string_nonempty (n : N) : N_to_string n <> "".
Proof. unfold N_to_string. apply dec_digits_nonempty. Qed.

Lemma N_to_string_short (n : N) :
  (n < 1000)%N -> String.length (N_to_string n) <= 3.
Proof.
  intros H. unfold N_to_string.
  pose proof (dec_digits_length (S (N.to_nat (N.log2 n))) n "" 2 H) as L.
  change (String.length "") with 0 in L. lia.
Qed.

Lemma three_digits_ok (m : N) :
  (m < 1000)%N ->
  String.length (three_digits m) = 3 /\ all_digits (three_digits m) = true.
Proof.
  intros H. split; [reflexivity|].
  unfold three_digits. simpl.
  rewrite !is_digit_digit_char; [reflexivity| | |].
  - apply N.mod_lt. lia.
  - apply N.mod_lt. lia.
  - apply N.Div0.div_lt_upper_bound; lia.
Qed.

Lemma group_fuel_grouped (f : nat) : forall n,
  (n < 2 ^ N.of_nat (S f))%N -> grouped (group_fuel f n).
Proof.
  induction f as [|f IH]; intros n H.
  - simpl in *. apply grouped_head.
    + apply N_to_string_nonempty.
    + apply N_to_string_short. lia.
    + apply N_to_string_digits.
  - cbn [group_fuel]. destruct (N.ltb_spec n 1000) as [L|L].
    + apply grouped_head.
      * apply N_to_string_nonempty.
      * now apply N_to_string_short.
      * apply N_to_string_digits.
    + assert (M : (n mod 1000 < 1000)%N) by (apply N.mod_lt; lia).
      destruct (three_digits_ok _ M) as [T1 T2].
      apply grouped_more; [|assumption..].
      apply IH. apply N.Div0.div_lt_upper_bound.
      rewrite Nat2N.inj_succ, N.pow_succ_r' in H.
      remember (2 ^ N.of_nat (S f))%N as p. lia.
Qed.

Lemma log2_fuel (n : N) : (n < 2 ^ N.of_nat (S (N.to_nat (N.log2 n))))%N.
Proof.
  rewrite Nat2N.inj_succ, N2Nat.id.
  destruct (N.eq_dec n 0) as [->|Hn]; [reflexivity|].
  apply N.log2_spec. lia.
Qed.

Lemma group3_grouped (n : N) : grouped (group3 n).
Proof. unfold group3. apply group_fuel_grouped, log2_fuel. Qed.

Lemma group3_separated (n : N) : (1000 <= n)%N -> separated (group3 n).
Proof.
  intros H. unfold group3.
  assert (F : exists f, N.to_nat (N.log2 n) = S f).
  { assert (L : (9 <= N.log2 n)%N).
    { change 9%N with (N.log2 512). apply N.log2_le_mono. lia. }
    exists (Nat.pred (N.to_nat (N.log2 n))). lia. }
  destruct F as [f F].
  pose proof (log2_fuel n) as B. rewrite F in *.
  cbn [group_fuel]. destruct (N.ltb_spec n 1000) as [L|L]; [lia|].
  assert (M : (n mod 1000 < 1000)%N) by (apply N.mod_lt; lia).
  destruct (three_digits_ok _ M) as [T1 T2].
  exists (group_fuel f (n / 1000)), (three_digits (n mod 1000)).
  split; [reflexivity|]. split; [|split; assumption].
  apply group_fuel_grouped. apply N.Div0.div_lt_upper_bound.
  rewrite Nat2N.inj_succ, N.pow_succ_r' in B.
  remember (2 ^ N.of_nat (S f))%N as p. lia.
Qed.

Lemma sign_text_nonneg (q : Q) : (0 <= q)%Q -> sign_text q = "".
Proof.
  intros H. unfold sign_text, ltb.
  apply Qle_bool_iff in H. now rewrite H.
Qed.

Lemma two_digits_ok (m : N) :
  (m < 100)%N ->
  is_digit (digit_char (m / 10)) = true /\ is_digit (digit_char (m mod 10)) = true.
Proof.
  intros H. split; apply is_digit_digit_char.
  - apply N.Div0.div_lt_upper_bound; lia.
  - apply N.mod_lt. lia.
Qed.

Lemma toFixed2_shape (q : Q) : (0 <= q)%Q -> two_decimals (toFixed2 q).
Proof.
  intros H. unfold toFixed2. rewrite (sign_text_nonneg _ H). simpl append.
  assert (M : (hundredths q mod 100 < 100)%N) by (apply N.mod_lt; lia).
  destruct (two_digits_ok _ M) as [D1 D2].
  exists (N_to_string (hundredths q / 100)),
         (digit_char (hundredths q mod 100 / 10)),
         (digit_char ((hundredths q mod 100) mod 10)).
  split; [reflexivity|].
  split; [apply N_to_string_nonempty|].
  split; [apply N_to_string_digits|]. split; assumption.
Qed.

Lemma hundredths_large (q : Q) : (1000 <= q)%Q -> (1000 <= hundredths q / 100)%N.
Proof.
  intros H. destruct q as [n d]. unfold Qle in H. cbn [Qnum Qden] in H.
  unfold hundredths. cbn [Qnum Qden].
  apply N.div_le_lower_bound; [lia|].
  assert (Z : (100000 <= (200 * Z.abs n + Z.pos d) / (2 * Z.pos d))%Z).
  { apply Z.div_le_lower_bound; lia. }
  remember ((200 * Z.abs n + Z.pos d) / (2 * Z.pos d))%Z as x. lia.
Qed.

Lemma toLocaleString2_shape (q : Q) :
  (1000 <= q)%Q ->
  exists ip frac,
    toLocaleString2 q = ip ++ frac /\ separated ip /\ short_fraction frac.
Proof.
  intros H. unfold toLocaleString2.
  assert (P : (0 <= q)%Q) by (eapply Qle_trans; [|exact H]; discriminate).
  rewrite (sign_text_nonneg _ P). simpl append.
  exists (group3 (hundredths q / 100)). eexists. split; [reflexivity|].
  split; [apply group3_separated, hundredths_large, H|].
  assert (M : (hundredths q mod 100 < 100)%N) by (apply N.mod_lt; lia).
  destruct (two_digits_ok _ M) as [D1 D2].
  destruct (hundredths q mod 100 =? 0)%N; [now left|].
  right. destruct ((hundredths q mod 100) mod 10 =? 0)%N.
  - left. eexists. split; [reflexivity | assumption].
  - right. do 2 eexists. split; [reflexivity|]. split; assumption.
Qed.

(** [formatNumber]: below 1000, exactly two decimal places; from 1000 on,
    thousands separators and at most two decimal places. *)
Lemma formatNumber_small (q : Q) :
  (0 <= q)%Q -> (q < 1000)%Q -> two_decimals (formatNumber q).
Proof.
  intros H L. unfold formatNumber, leb, of_Z.
  destruct (Qle_bool (inject_Z 1000) q) eqn:E.
  - apply Qle_bool_iff in E. exfalso. apply (Qlt_not_le _ _ L). exact E.
  - now apply toFixed2_shape.
Qed.

Lemma formatNumber_large (q : Q) :
  (1000 <= q)%Q ->
  exists ip frac,
    formatNumber q = ip ++ frac /\ separated ip /\ short_fraction frac.
Proof.
  intros H. unfold formatNumber, leb, of_Z.
  assert (E : Qle_bool (inject_Z 1000) q = true) by now apply Qle_bool_iff.
  rewrite E. now apply toLocaleString2_shape.
Qed.

End FormatFacts.

(** ** What the summary contains *)

Import FormatFacts.

Lemma contains_refl (x : string) : contains x x.
Proof. exists "", "". simpl. now rewrite append_nil_r. Qed.

Lemma contains_trans (a b c : string) :
  contains a b -> contains b c -> contains a c.
Proof.
  intros [p1 [q1 ->]] [p2 [q2 ->]].
  exists (p1 ++ p2), (q2 ++ q1). now rewrite !append_assoc.
Qed.

Lemma contains_app_l (a b x : string) : contains a x -> contains (a ++ b) x.
Proof.
  intros [p [q ->]]. exists p, (q ++ b). now rewrite !append_assoc.
Qed.

Lemma contains_app_r (a b x : string) : contains b x -> contains (a ++ b) x.
Proof.
  intros [p [q ->]]. exists (a ++ p), q. now rewrite !append_assoc.
Qed.

Lemma contains_join (sep : string) (l : list string) (x : string) :
  In x l -> contains (join sep l) x.
Proof.
  induction l as [|a l IH]; [intros []|].
  intros [->|Hin].
  - destruct l; simpl; [apply contains_refl|].
    apply contains_app_l, contains_refl.
  - destruct l as [|b l]; [destruct Hin|].
    change (join sep (a :: b :: l)) with (a ++ sep ++ join sep (b :: l)).
    now apply contains_app_r, contains_app_r, IH.
Qed.

Lemma bind_ret_inv {A B} (c : outcome A) (f : A -> outcome B) (y : B) :
  bind c f = Ret y -> exists x, c = Ret x /\ f x = Ret y.
Proof. destruct c as [a|e]; simpl; [eauto | discriminate]. Qed.

Lemma in_push_old (x y : string) (l : list string) : In x l -> In x (push l y).
Proof. intros H. unfold push. apply in_or_app. now left. Qed.

Lemma in_push_new (y : string) (l : list string) : In y (push l y).
Proof. unfold push. apply in_or_app. right. now left. Qed.

Create HintDb summary.
#[local] Hint Resolve in_push_old in_push_new : summary.

Lemma truthy_num (q : Q) : ~ Qeq q 0 -> truthy (VNum q) = true.
Proof.
  intros H. simpl. unfold is_zero. destruct (Qeq_bool q 0) eqn:E; [|reflexivity].
  apply Qeq_bool_iff in E. contradiction.
Qed.

Lemma summary_parts_fields (trade : object) (parts : list string) :
  summary_parts trade = Ret parts ->
  (forall q, obj_get "quantity" trade = VNum q -> ~ Qeq q 0 ->
             In (toString q ++ " shares") parts) /\
  (forall q, obj_get "positionSize" trade = VNum q -> ~ Qeq q 0 ->
             In ("$" ++ formatNumber q ++ " position") parts) /\
  (forall q, obj_get "leverage" trade = VNum q -> ~ Qeq q 0 ->
             In (toString q ++ "x") parts) /\
  (forall q, obj_get "price" trade = VNum q -> ~ Qeq q 0 ->
             In ("at $" ++ formatNumber q) parts).
Proof.
  unfold summary_parts. cbv zeta.
  match goal with
  | |- context [push ?T (to_string (obj_get "quantity" trade) ++ " shares")] =>
      generalize T
  end.
  intros T H. apply bind_ret_inv in H. destruct H as [p1 [H1 H2]].
  assert (Q1 : forall q, obj_get "quantity" trade = VNum q -> ~ Qeq q 0 ->
                         In (toString q ++ " shares") p1).
  { intros q E Hq. rewrite E in H1. rewrite (truthy_num _ Hq) in H1.
    destruct (truthy (obj_get "positionSize" trade)).
    - apply bind_ret_inv in H1. destruct H1 as [f [_ H1]].
      apply Ret_inj in H1. subst p1. simpl to_string. auto with summary.
    - apply Ret_inj in H1. subst p1. simpl to_string. auto with summary. }
  assert (Q2 : forall q, obj_get "positionSize" trade = VNum q -> ~ Qeq q 0 ->
                         In ("$" ++ formatNumber q ++ " position") p1).
  { intros q E Hq. rewrite E in H1. rewrite (truthy_num _ Hq) in H1.
    cbn [format_field bind] in H1.
    apply Ret_inj in H1. subst p1. auto with summary. }
  assert (M : forall y, In y p1 -> In y parts).
  { intros y Hy.
    destruct (truthy (obj_get "price" trade));
      [apply bind_ret_inv in H2; destruct H2 as [f [_ H2]]|];
      apply Ret_inj in H2; subst parts;
      destruct (truthy (obj_get "leverage" trade)); auto with summary. }
  split; [intros; apply M; eauto|]. split; [intros; apply M; eauto|]. split.
  - intros q E Hq. rewrite E in H2. rewrite (truthy_num _ Hq) in H2.
    destruct (truthy (obj_get "price" trade));
      [apply bind_ret_inv in H2; destruct H2 as [f [_ H2]]|];
      apply Ret_inj in H2; subst parts; simpl to_string; auto with summary.
  - intros q E Hq. rewrite E in H2. rewrite (truthy_num _ Hq) in H2.
    cbn [format_field bind] in H2.
    apply Ret_inj in H2. subst parts. auto with summary.
Qed.

Lemma summary_extras_fields (trade : object) (extras : list string) :
  summary_extras trade = Ret extras ->
  (forall q, obj_get "stopLoss" trade = VNum q -> ~ Qeq q 0 ->
             In ("Stop loss: $" ++ formatNumber q) extras) /\
  (forall q, obj_get "takeProfit" trade = VNum q -> ~ Qeq q 0 ->
             In ("Target: $" ++ formatNumber q) extras) /\
  (forall q, obj_get "breakEven" trade = VNum q ->
             In ("Break even: $" ++ formatNumber q) extras).
Proof.
  unfold summary_extras. cbv zeta. intros H.
  apply bind_ret_inv in H. destruct H as [e1 [H1 H]].
  apply bind_ret_inv in H. destruct H as [e2 [H2 H3]].
  assert (M3 : forall y,
             In y (match obj_get "breakEven" trade with
                   | VNum q => push e2 ("Break even: $" ++ formatNumber q)
                   | VBool true => push e2 "Move to break even"
                   | _ => e2
                   end) -> In y extras).
  { intros y Hy.
    destruct (obj_get "indicators" trade) as [| | | |[|c s]|[|i l]];
      try discriminate H3; apply Ret_inj in H3; subst extras;
      auto with summary. }
  assert (M2 : forall y, In y e2 -> In y extras).
  { intros y Hy. apply M3.
    destruct (obj_get "breakEven" trade) as [| |[|]| | |]; auto with summary. }
  assert (M1 : forall y, In y e1 -> In y e2).
  { intros y Hy.
    destruct (truthy (obj_get "takeProfit" trade));
      [apply bind_ret_inv in H2; destruct H2 as [f [_ H2]]|];
      apply Ret_inj in H2; subst e2; auto with summary. }
  split; [|split].
  - intros q E Hq. apply M2, M1. rewrite E in H1.
    rewrite (truthy_num _ Hq) in H1. cbn [format_field bind] in H1.
    apply Ret_inj in H1. subst e1. auto with summary.
  - intros q E Hq. apply M2. rewrite E in H2.
    rewrite (truthy_num _ Hq) in H2. cbn [format_field bind] in H2.
    apply Ret_inj in H2. subst e2. auto with summary.
  - intros q E. apply M3. rewrite E. auto with summary.
Qed.

Lemma summary_contains (trade : object) (out : string) :
  generateTradeSummary trade = Ret out ->
  exists parts extras,
    summary_parts trade = Ret parts /\ summary_extras trade = Ret extras /\
    (forall x, In x parts -> contains out x) /\
    (forall x, In x extras -> contains out x).
Proof.
  unfold generateTradeSummary. intros H.
  apply bind_ret_inv in H. destruct H as [parts [H1 H]].
  apply bind_ret_inv in H. destruct H as [extras [H2 H]].
  apply Ret_inj in H. exists parts, extras.
  split; [assumption|]. split; [assumption|]. subst out.
  destruct extras as [|e extras].
  - split; [intros x Hx; now apply contains_join | intros x []].
  - split.
    + intros x Hx. apply contains_join. auto with summary.
    + intros x Hx.
      eapply contains_trans; [apply contains_join, in_push_new|].
      apply contains_app_r, contains_app_r. now apply contains_join.
Qed.

Lemma toString_integer (n : N) :
  toString (inject_Z (Z.of_N n)) = N_to_string n.
Proof.
  unfold toString, inject_Z. cbn [Qnum Qden].
  rewrite (sign_text_nonneg (Z.of_N n # 1)) by (unfold Qle; simpl; lia).
  rewrite N.mod_1_r, N.div_1_r. simpl.
  rewrite Z.abs_eq by lia. rewrite N2Z.id. apply append_nil_r.
Qed.

(** C9 (as stated, refuted).  The quantity and the leverage are written
    as plain numbers: 5000 shares appears without a separator and the
    leverage 10 without decimals, although the money amount beside them
    is formatted.  And a field that holds zero is not written at all. *)
Lemma C9_counterexample :
  generateTradeSummary
    [("action", VStr "buy"); ("ticker", VStr "AAPL"); ("quantity", n_ 5000);
     ("leverage", n_ 10); ("price", n_ 150)]
  = Ret "Buy AAPL 5000 shares 10x at $150.00" /\
  formatNumber (of_Z 5000) = "5,000" /\
  formatNumber (of_Z 10) = "10.00" /\
  includes "Buy AAPL 5000 shares 10x at $150.00" (formatNumber (of_Z 5000)) = false /\
  includes "Buy AAPL 5000 shares 10x at $150.00" (formatNumber (of_Z 10)) = false /\
  generateTradeSummary
    [("action", VStr "buy"); ("ticker", VStr "AAPL"); ("quantity", n_ 100);
     ("price", n_ 150)]
  = Ret "Buy AAPL 100 shares at $150.00" /\
  generateTradeSummary [("action", VStr "buy"); ("price", n_ 0)] = Ret "Buy".
Proof. repeat split; vm_compute; reflexivity. Qed.

(** C9 (amended).  In every summary, each of the position size, the entry
    price, the stop loss and the target that is set and not zero, and a
    numeric break-even, is rendered by [formatNumber]; [formatNumber]
    writes a non-negative number below 1000 with exactly two decimal
    places, and a finite number from 1000 on with thousands separators
    and at most two decimal places.  The quantity and the leverage, when
    set and not zero, are written as plain numbers: a whole number, by its
    digits alone.
    The rendered text is stated for the numbers on which the decimal
    arithmetic of the model and the doubles of JavaScript agree: amounts
    of at most two decimals below ten trillion in size, whole quantities
    below 2^53.  A zero field is not written, and an amount that overflowed
    to Infinity is outside the statement. *)
Theorem C9_summary_numbers (trade : object) (out : string) :
  generateTradeSummary trade = Ret out ->
  (forall q, obj_get "positionSize" trade = VNum q -> ~ Qeq q 0 ->
             plain_amount q ->
             contains out ("$" ++ formatNumber q ++ " position")) /\
  (forall q, obj_get "price" trade = VNum q -> ~ Qeq q 0 ->
             plain_amount q ->
             contains out ("at $" ++ formatNumber q)) /\
  (forall q, obj_get "stopLoss" trade = VNum q -> ~ Qeq q 0 ->
             plain_amount q ->
             contains out ("Stop loss: $" ++ formatNumber q)) /\
  (forall q, obj_get "takeProfit" trade = VNum q -> ~ Qeq q 0 ->
             plain_amount q ->
             contains out ("Target: $" ++ formatNumber q)) /\
  (forall q, obj_get "breakEven" trade = VNum q ->
             plain_amount q ->
             contains out ("Break even: $" ++ formatNumber q)) /\
  (forall n, obj_get "quantity" trade = VNum (inject_Z (Z.of_N n)) ->
             n <> 0%N -> safe_integer n ->
             contains out (N_to_string n ++ " shares") /\
             all_digits (N_to_string n) = true) /\
  (forall n, obj_get "leverage" trade = VNum (inject_Z (Z.of_N n)) ->
             n <> 0%N -> safe_integer n ->
             contains out (N_to_string n ++ "x") /\
             all_digits (N_to_string n) = true) /\
  (forall q, (0 <= q)%Q -> (q < 1000)%Q -> two_decimals (formatNumber q)) /\
  (forall q, (1000 <= q)%Q -> (q <= MAX_VALUE)%Q ->
             exists ip frac, formatNumber q = ip ++ frac /\
                             separated ip /\ short_fraction frac).
Proof.
  intros H.
  destruct (summary_contains _ _ H) as [parts [extras [P [X [CP CX]]]]].
  destruct (summary_parts_fields _ _ P) as [P1 [P2 [P3 P4]]].
  destruct (summary_extras_fields _ _ X) as [X1 [X2 X3]].
  assert (NZ : forall n, n <> 0%N -> ~ Qeq (inject_Z (Z.of_N n)) 0).
  { intros n Hn. unfold Qeq, inject_Z. cbn [Qnum Qden]. lia. }
  split; [intros q E Z _; apply CP, P2; assumption|].
  split; [intros q E Z _; apply CP, P4; assumption|].
  split; [intros q E Z _; apply CX, X1; assumption|].
  split; [intros q E Z _; apply CX, X2; assumption|].
  split; [intros q E _; apply CX, X3; assumption|].
  split; [|split; [|split]].
  - intros n E Hn _. split; [|apply N_to_string_digits].
    rewrite <- toString_integer. apply CP, P1; [assumption | now apply NZ].
  - intros n E Hn _. split; [|apply N_to_string_digits].
    rewrite <- toString_integer. apply CP, P3; [assumption | now apply NZ].
  - apply formatNumber_small.
  - intros q L _. now apply formatNumber_large.
Qed.

Lemma C9_witness :
  contains "Buy BTC/USDT $500.00 position • Stop loss: $86,000 • Target: $94,000"
           ("Stop loss: $" ++ formatNumber (of_Z 86000)) /\
  contains "Buy BTC/USDT $500.00 position • Stop loss: $86,000 • Target: $94,000"
           ("$" ++ formatNumber (of_Z 500) ++ " position").
Proof.
  assert (H : generateTradeSummary
                [("action", VStr "buy"); ("ticker", VStr "BTC/USDT");
                 ("positionSize", n_ 500); ("stopLoss", n_ 86000);
                 ("takeProfit", n_ 94000)]
              = Ret "Buy BTC/USDT $500.00 position • Stop loss: $86,000 • Target: $94,000")
    by (vm_compute; reflexivity).
  pose proof (C9_summary_numbers _ _ H) as [P [_ [S _]]].
  split.
  - apply (S (of_Z 86000)); [reflexivity | discriminate |].
    split; [exists 8600000%Z; reflexivity | split; reflexivity].
  - apply (P (of_Z 500)); [reflexivity | discriminate |].
    split; [exists 50000%Z; reflexivity | split; reflexivity].
Defined.

(** ** What the pair patterns capture *)

Module CaptureFacts.

(** An expression without groups hands the captures on untouched. *)
Lemma m_nogroups r : forall A s (k : mstate -> option A) x,
  nogroups r = true -> m A r s k = Some x ->
  exists s', k s' = Some x /\ caps s' = caps s.
Proof.
  induction r as [|l|cs| |r1 IHr1 r2 IHr2|r1 IHr1 r2 IHr2|r IHr|cs lo hi|g r IHr| |r IHr];
    intros A s k x G H; simpl in G, H.
  - now exists s.
  - now apply lit_inv in H.
  - now apply step_inv in H.
  - now apply step_inv in H.
  - apply andb_true_iff in G. destruct G as [G1 G2].
    apply (IHr1 _ _ _ _ G1) in H. destruct H as [s1 [H E1]].
    apply (IHr2 _ _ _ _ G2) in H. destruct H as [s2 [H E2]].
    exists s2. split; [assumption | congruence].
  - apply andb_true_iff in G. destruct G as [G1 G2].
    destruct (m A r1 s k) eqn:E.
    + inversion H; subst. now apply (IHr1 _ _ _ _ G1) in E.
    + now apply (IHr2 _ _ _ _ G2) in H.
  - match type of H with
    | match ?c with _ => _ end = _ => destruct c eqn:E
    end.
    + inversion H; subst. apply (IHr _ _ _ _ G) in E. destruct E as [s' [E F]].
      destruct (Nat.eqb (pos s') (pos s)); [discriminate|]. now exists s'.
    + now exists s.
  - now apply rep_inv in H.
  - discriminate.
  - destruct (at_boundary s); [now exists s | discriminate].
  - destruct (m unit r s (fun _ => Some tt)); [discriminate | now exists s].
Qed.

Lemma map_chars_app (f : ascii -> ascii) (a b : string) :
  map_chars f (a ++ b) = map_chars f a ++ map_chars f b.
Proof. induction a as [|c a IH]; simpl; [reflexivity | now rewrite IH]. Qed.

(** A literal consumes text equal to it up to case. *)
Lemma lit_consumes A l : forall s (k : mstate -> option A) x,
  lit l s k = Some x ->
  exists s1, k s1 = Some x /\ caps s1 = caps s /\
             pos s1 = pos s + String.length l /\
             toUpperCase (String.substring 0 (String.length l) (rest s))
             = toUpperCase l.
Proof.
  induction l as [|p l IH]; intros s k x H; simpl in H.
  - exists s. repeat split; [assumption | simpl; lia |].
    simpl. now destruct (rest s).
  - unfold step in H. destruct (rest s) as [|c r] eqn:R; [discriminate|].
    destruct (ci_eq p c) eqn:C; [|discriminate].
    apply IH in H. destruct H as [s1 [H [E1 [E2 E3]]]]. simpl in *.
    exists s1. repeat split; [assumption | assumption | lia |].
    unfold toUpperCase in *. simpl. rewrite E3.
    unfold ci_eq in C. apply Ascii.eqb_eq in C. now rewrite C.
Qed.

Lemma words_consumes A l : forall s (k : mstate -> option A) x,
  m A (words l) s k = Some x ->
  exists w s1, In w l /\ k s1 = Some x /\ caps s1 = caps s /\
               pos s1 = pos s + String.length w /\
               toUpperCase (String.substring 0 (String.length w) (rest s))
               = toUpperCase w.
Proof.
  unfold words. induction l as [|w l IH]; intros s k x H.
  - discriminate H.
  - destruct l as [|w' l].
    + simpl in H. apply lit_consumes in H. destruct H as [s1 H].
      exists w, s1. split; [now left | exact H].
    + change (alts (map Lit (w :: w' :: l)))
        with (Alt (Lit w) (alts (map Lit (w' :: l)))) in H.
      cbn [m] in H. destruct (lit w s k) eqn:E.
      * inversion H; subst. apply lit_consumes in E. destruct E as [s1 E].
        exists w, s1. split; [now left | exact E].
      * apply IH in H. destruct H as [w0 [s1 [Hin H]]].
        exists w0, s1. split; [now right | exact H].
Qed.

(** A group around an alternation of words captures one of the words,
    up to case. *)
Lemma grp_words A n l : forall s (k : mstate -> option A) x,
  m A (Grp n (words l)) s k = Some x ->
  exists w v s1, In w l /\ k s1 = Some x /\
                 caps s1 = cap_set n v (caps s) /\
                 toUpperCase v = toUpperCase w.
Proof.
  intros s k x H. cbn [m] in H.
  apply words_consumes in H. destruct H as [w [s1 [Hin [H [E1 [E2 E3]]]]]].
  exists w. eexists. eexists. split; [assumption|]. split; [exact H|].
  simpl. rewrite E1. split; [reflexivity|].
  replace (pos s1 - pos s) with (String.length w) by lia. exact E3.
Qed.

Lemma m_seq A r1 r2 s (k : mstate -> option A) :
  m A (Seq r1 r2) s k = m A r1 s (fun s1 => m A r2 s1 k).
Proof. reflexivity. Qed.

Lemma m_wordb A s (k : mstate -> option A) :
  m A WordB s k = if at_boundary s then k s else None.
Proof. reflexivity. Qed.

Lemma search_from_inv (Q : mresult -> Prop) r :
  (forall p t i mt, exec_at r p t i = Some mt -> Q mt) ->
  forall t p i mt, search_from r p t i = Some mt -> Q mt.
Proof.
  intros HQ. induction t as [|c t IH]; intros p i mt; simpl.
  - destruct (exec_at r p "" i) eqn:E; [|discriminate].
    intros H; inversion H; subst. eapply HQ; eassumption.
  - destruct (exec_at r p (String c t) i) eqn:E.
    + intros H; inversion H; subst. eapply HQ; eassumption.
    + apply IH.
Qed.

Section PairShapes.
Variables l1 l2 : list string.

Lemma pair_tail A (s : mstate) (k : mstate -> option A) x v1 :
  caps s = cap_set 1 v1 [] ->
  m A (Seq (Grp 2 (words l2)) WordB) s k = Some x ->
  exists w2 v2 s', In w2 l2 /\ k s' = Some x /\
                   caps s' = cap_set 2 v2 (cap_set 1 v1 []) /\
                   toUpperCase v2 = toUpperCase w2.
Proof.
  intros C H. rewrite m_seq in H.
  apply grp_words in H. destruct H as [w2 [v2 [s1 [Hin [H1 [E1 E2]]]]]].
  rewrite m_wordb in H1. destruct (at_boundary s1); [|discriminate].
  exists w2, v2, s1. rewrite <- C. auto.
Qed.

Lemma spaced_captures p t i mt :
  exec_at (spaced l1 l2) p t i = Some mt -> pair_captured l1 l2 mt.
Proof.
  unfold exec_at, spaced. cbn [seqs]. intros H.
  rewrite m_seq, m_wordb in H. destruct (at_boundary _); [|discriminate].
  rewrite m_seq in H. apply grp_words in H.
  destruct H as [w1 [v1 [s1 [Hin1 [H1 [E1 F1]]]]]]. simpl caps in E1.
  rewrite m_seq in H1. apply m_nogroups in H1; [|reflexivity].
  destruct H1 as [s2 [H2 E2]].
  rewrite m_seq in H2. apply m_nogroups in H2; [|reflexivity].
  destruct H2 as [s3 [H3 E3]].
  rewrite m_seq in H3. apply m_nogroups in H3; [|reflexivity].
  destruct H3 as [s4 [H4 E4]].
  assert (C4 : caps s4 = cap_set 1 v1 []) by congruence.
  destruct (pair_tail _ _ _ _ _ C4 H4) as [w2 [v2 [s5 [Hin2 [H5 [E5 F5]]]]]].
  inversion H5; subst mt.
  exists w1, w2, v1, v2. unfold group. simpl groups. rewrite E5.
  repeat split; assumption.
Qed.

Lemma joined_captures p t i mt :
  exec_at (joined l1 l2) p t i = Some mt -> pair_captured l1 l2 mt.
Proof.
  unfold exec_at, joined. cbn [seqs]. intros H.
  rewrite m_seq, m_wordb in H. destruct (at_boundary _); [|discriminate].
  rewrite m_seq in H. apply grp_words in H.
  destruct H as [w1 [v1 [s1 [Hin1 [H1 [E1 F1]]]]]]. simpl caps in E1.
  destruct (pair_tail _ _ _ _ _ E1 H1) as [w2 [v2 [s5 [Hin2 [H5 [E5 F5]]]]]].
  inversion H5; subst mt.
  exists w1, w2, v1, v2. unfold group. simpl groups. rewrite E5.
  repeat split; assumption.
Qed.
End PairShapes.

Lemma cryptoPair_captures pattern text mt :
  In pattern cryptoPairPatterns -> Regex.exec pattern text = Some mt ->
  pair_captured CRYPTO_TOKENS quotes7 mt.
Proof.
  intros [<-|[<-|[]]] H; unfold Regex.exec in H.
  - eapply (search_from_inv _ (spaced CRYPTO_TOKENS quotes7)); [|exact H].
    apply spaced_captures.
  - eapply (search_from_inv _ (joined CRYPTO_TOKENS quotes7)); [|exact H].
    apply joined_captures.
Qed.

Lemma m_opt A r s (k : mstate -> option A) :
  m A (Opt r) s k
  = match m A r s (fun s1 => if Nat.eqb (pos s1) (pos s) then None else k s1) with
    | Some x => Some x
    | None => k s
    end.
Proof. reflexivity. Qed.

Lemma name_captures name l p t i mt :
  exec_at (seqs [WordB; Lit name; Opt (Seq ws_plus (Grp 1 (words l))); WordB])
          p t i = Some mt ->
  quote_captured l mt.
Proof.
  unfold exec_at. cbn [seqs]. intros H.
  rewrite m_seq, m_wordb in H. destruct (at_boundary _); [|discriminate].
  rewrite m_seq in H. apply m_nogroups in H; [|reflexivity].
  destruct H as [s1 [H E1]]. simpl caps in E1.
  rewrite m_seq, m_opt in H.
  match type of H with
  | match ?c with _ => _ end = _ => destruct c as [y|] eqn:E
  end.
  - inversion H; subst y. clear H.
    rewrite m_seq in E. apply m_nogroups in E; [|reflexivity].
    destruct E as [s2 [E E2]].
    apply grp_words in E. destruct E as [w [v [s3 [Hin [E [E3 F]]]]]].
    destruct (Nat.eqb (pos _) (pos s1)); [discriminate|].
    rewrite m_wordb in E. destruct (at_boundary _); [|discriminate].
    inversion E; subst mt. right. exists w, v.
    unfold group. simpl groups. rewrite E3. auto.
  - rewrite m_wordb in H. destruct (at_boundary s1); [|discriminate].
    inversion H; subst mt. left. unfold group. simpl groups. now rewrite E1.
Qed.

Lemma quote_captures l p t i mt :
  exec_at (seqs [WordB; Grp 1 (words l); WordB]) p t i = Some mt ->
  word_captured l mt.
Proof.
  unfold exec_at. cbn [seqs]. intros H.
  rewrite m_seq, m_wordb in H. destruct (at_boundary _); [|discriminate].
  rewrite m_seq in H. apply grp_words in H.
  destruct H as [w [v [s1 [Hin [H [E F]]]]]]. simpl caps in E.
  rewrite m_wordb in H. destruct (at_boundary s1); [|discriminate].
  inversion H; subst mt. exists w, v.
  unfold group. simpl groups. rewrite E. auto.
Qed.

End CaptureFacts.

(** ** The ticker cascade *)

Import CaptureFacts.

Lemma spoken_loop_shape u l trade :
  spoken_loop u l trade = trade \/
  exists spokenVariant canonicalPair,
    In (spokenVariant, canonicalPair) l /\ includes u spokenVariant = true /\
    spoken_loop u l trade = obj_set "ticker" (VStr canonicalPair) trade.
Proof.
  induction l as [|[v c] l IH]; simpl; [now left|].
  destruct (includes u v) eqn:E.
  - right. exists v, c. auto.
  - destruct IH as [IH|[v' [c' [Hin [Hi IH]]]]]; [now left|].
    right. exists v', c'. auto.
Qed.

Lemma toUpperCase_app (a b : string) :
  toUpperCase (a ++ b) = toUpperCase a ++ toUpperCase b.
Proof. apply map_chars_app. Qed.

Lemma table_words_upper :
  forallb (fun w => String.eqb (toUpperCase w) w) (CRYPTO_TOKENS ++ quotes7) = true.
Proof. vm_compute. reflexivity. Qed.

Lemma upper_table_word (w : string) :
  In w CRYPTO_TOKENS \/ In w quotes7 -> toUpperCase w = w.
Proof.
  intros H. pose proof table_words_upper as T.
  rewrite forallb_forall in T. apply String.eqb_eq, T.
  apply in_or_app. exact H.
Qed.

Lemma pair_loop_shape u l trade :
  incl l cryptoPairPatterns ->
  pair_loop u l trade = trade \/
  exists base quote,
    In base CRYPTO_TOKENS /\ In quote quotes7 /\
    pair_loop u l trade = obj_set "ticker" (VStr (base ++ "/" ++ quote)) trade.
Proof.
  induction l as [|p l IH]; intros Hl; simpl; [now left|].
  destruct (Regex.exec p u) as [mt|] eqn:E.
  - right.
    destruct (cryptoPair_captures p u mt (Hl p (or_introl eq_refl)) E)
      as [w1 [w2 [v1 [v2 [I1 [I2 [G1 [G2 [U1 U2]]]]]]]]].
    exists w1, w2. split; [assumption|]. split; [assumption|].
    rewrite G1, G2. cbn [template].
    rewrite toUpperCase_app, U1.
    change (toUpperCase (String "/" v2)) with (String "/" (toUpperCase v2)).
    rewrite U2.
    rewrite (upper_table_word w1) by now left.
    rewrite (upper_table_word w2) by now right. reflexivity.
  - apply IH. intros x Hx. apply Hl. now right.
Qed.

Lemma quote_words_upper :
  forallb (fun w => String.eqb (toUpperCase w) w)
          ["USDT"; "USDC"; "USD"; "BUSD"; "EUR"] = true.
Proof. vm_compute. reflexivity. Qed.

(** The name stage writes the ticker of a name of the table, alone or
    followed by a slash and a quote currency. *)
Lemma name_loop_shape u l trade t :
  name_loop u l trade = Ret t ->
  t = trade \/
  exists cryptoName ticker,
    In (cryptoName, ticker) l /\
    (t = obj_set "ticker" (VStr ticker) trade \/
     exists quote, In quote quotes7 /\
                   t = obj_set "ticker" (VStr (ticker ++ "/" ++ quote)) trade).
Proof.
  induction l as [|[name tk] l IH]; simpl; intros H.
  - apply Ret_inj in H. now left.
  - destruct (Regex.exec (namePattern name) u) as [mt|] eqn:E.
    + right. exists name, tk. split; [now left|].
      assert (Q : quote_captured quotes7 mt).
      { unfold Regex.exec in E.
        eapply (search_from_inv _ (namePattern name)); [|exact E].
        intros p0 t0 i0 mt0. apply name_captures. }
      assert (QM : forall qm, Regex.exec quotePattern u = Some qm ->
                   exists q, In q quotes7 /\
                             call_toUpperCase (group qm 1) = Ret q).
      { intros qm Eq. unfold Regex.exec in Eq.
        assert (C : word_captured ["USDT"; "USDC"; "USD"; "BUSD"; "EUR"] qm).
        { eapply (search_from_inv _ quotePattern); [|exact Eq].
          intros p0 t0 i0 mt0. apply quote_captures. }
        destruct C as [w [v [Hin [G U]]]]. exists w. split.
        - simpl in Hin. simpl. tauto.
        - rewrite G. cbn [call_toUpperCase]. rewrite U. f_equal.
          pose proof quote_words_upper as T. rewrite forallb_forall in T.
          apply String.eqb_eq, T, Hin. }
      destruct Q as [G|[w [v [Hin [G U]]]]].
      * rewrite G in H. cbn [truthy] in H.
        destruct (Regex.exec quotePattern u) as [qm|] eqn:Eq.
        -- destruct (QM qm eq_refl) as [q [Hq Eq']]. rewrite Eq' in H.
           cbn [bind] in H. apply Ret_inj in H. right. exists q. auto.
        -- apply Ret_inj in H. now left.
      * rewrite G in H. cbn [truthy call_toUpperCase bind] in H.
        destruct (negb (String.eqb v "")).
        -- apply Ret_inj in H. right. exists w. split; [assumption|].
           rewrite <- H, U, (upper_table_word w) by now right. reflexivity.
        -- destruct (Regex.exec quotePattern u) as [qm|] eqn:Eq.
           ++ destruct (QM qm eq_refl) as [q [Hq Eq']]. rewrite Eq' in H.
              cbn [bind] in H. apply Ret_inj in H. right. exists q. auto.
           ++ apply Ret_inj in H. now left.
    + destruct (IH H) as [->|[n' [t' [Hin R]]]]; [now left|].
      right. exists n', t'. split; [now right | assumption].
Qed.


(** * Further properties of the extractor *)

(** ** The schema of the detected object *)

Lemma schema_initial : schema initial_trade.
Proof.
  intros k Hk. unfold all_fields in Hk. simpl in Hk.
  repeat (destruct Hk as [<-|Hk]; [vm_compute; eauto|]).
  destruct Hk.
Qed.

Lemma schema_set (f : string) (v : value) (o : object) :
  In f all_fields -> field_ok f v -> schema o -> schema (obj_set f v o).
Proof.
  intros Hf Hv Ho k Hk.
  destruct (String.eqb_spec k f) as [->|Hne].
  - now rewrite obj_get_set_same.
  - rewrite obj_get_set_other by assumption. now apply Ho.
Qed.

Ltac in_fields := unfold all_fields; simpl; tauto.

(** [field_ok] at each key. *)
Lemma field_ok_action v :
  v = VNull \/ v = VStr "buy" \/ v = VStr "sell" -> field_ok "action" v.
Proof. intros H. exact H. Qed.

Lemma field_ok_tradeType v :
  v = VNull \/ v = VStr "long" \/ v = VStr "short" -> field_ok "tradeType" v.
Proof. intros H. exact H. Qed.

Lemma field_ok_exchange v :
  v = VNull \/ (exists e, In e EXCHANGES /\ v = VStr (capitalized e)) ->
  field_ok "exchange" v.
Proof. intros H. exact H. Qed.

Lemma field_ok_timeframe v :
  v = VNull \/
  (exists variant c, In (variant, c) TIMEFRAME_VARIANTS /\ v = VStr c) ->
  field_ok "timeframe" v.
Proof. intros H. exact H. Qed.

Lemma field_ok_indicators v : (exists l, v = VArr l) -> field_ok "indicators" v.
Proof. intros H. exact H. Qed.

Lemma field_ok_leverage v :
  v = VNull \/
  (exists z, v = VNum (inject_Z z) /\ (1 <= z)%Z /\ (z <= 125)%Z) ->
  field_ok "leverage" v.
Proof. intros H. exact H. Qed.

Lemma field_ok_quantity v :
  v = VNull \/ (exists q, v = VNum q /\ (0 < q)%Q /\ (q < 1000000)%Q) ->
  field_ok "quantity" v.
Proof. intros H. exact H. Qed.

Lemma field_ok_positionSize v :
  v = VNull \/ (exists q, v = VNum q /\ (10 <= q)%Q /\ (q <= 10000000)%Q) ->
  field_ok "positionSize" v.
Proof. intros H. exact H. Qed.

Lemma field_ok_breakEven v :
  v = VNull \/ v = VBool true \/ (exists q, v = VNum q) ->
  field_ok "breakEven" v.
Proof. intros H. exact H. Qed.

Lemma field_ok_level field v :
  field = "price" \/ field = "stopLoss" \/ field = "takeProfit" ->
  v = VNull \/ (exists q, v = VNum q) -> field_ok field v.
Proof. intros [-> | [-> | ->]] H; exact H. Qed.

Lemma parseInt_integer (s : string) (q : Q) :
  parseInt s = Some q -> exists z, q = inject_Z z.
Proof.
  unfold parseInt. destruct (take_sign (skip_spaces s)) as [neg s0].
  destruct (take_digits s0 0%N 0) as [[ip ni] s1].
  destruct (Nat.eqb ni 0); [discriminate|].
  intros H. inversion H. eauto.
Qed.

Lemma detect_action_schema text trade :
  schema trade -> schema (detect_action text trade).
Proof.
  intros H. unfold detect_action.
  destruct (Regex.test buyPatterns text);
    [|destruct (Regex.test sellPatterns text); [|assumption]];
    (apply schema_set;
     [in_fields | apply field_ok_tradeType; auto
     |apply schema_set; [in_fields | apply field_ok_action; auto | assumption]]).
Qed.

Lemma exchange_loop_schema u l trade :
  incl l EXCHANGES -> schema trade -> schema (exchange_loop u l trade).
Proof.
  induction l as [|e l IH]; intros Hl H; simpl; [assumption|].
  destruct (includes u e).
  - apply schema_set; [in_fields | | assumption].
    apply field_ok_exchange.
    right. exists e. split; [apply Hl; now left | reflexivity].
  - apply IH; [|assumption]. intros x Hx. apply Hl. now right.
Qed.

Lemma timeframe_loop_schema u l trade :
  incl l TIMEFRAME_VARIANTS -> schema trade -> schema (timeframe_loop u l trade).
Proof.
  induction l as [|[v c] l IH]; intros Hl H; simpl; [assumption|].
  destruct (includes u v).
  - apply schema_set; [in_fields | | assumption].
    apply field_ok_timeframe.
    right. exists v, c. split; [apply Hl; now left | reflexivity].
  - apply IH; [|assumption]. intros x Hx. apply Hl. now right.
Qed.

Lemma detect_indicators_schema text trade :
  schema trade -> schema (detect_indicators text trade).
Proof.
  intros H. unfold detect_indicators.
  destruct (obj_get "indicators" trade); try assumption.
  apply schema_set; [in_fields | | assumption].
  apply field_ok_indicators. eauto.
Qed.

Lemma leverage_loop_schema text l trade :
  schema trade -> schema (leverage_loop text l trade).
Proof.
  intros H. induction l as [|p l IH]; simpl; [assumption|].
  destruct (Regex.exec p text) as [mt|]; [|assumption].
  destruct (parseInt (template (group mt 1))) as [lev|] eqn:P; [|assumption].
  destruct (leb 1 lev && leb lev 125) eqn:B; [|assumption].
  apply schema_set; [in_fields | | assumption].
  destruct (parseInt_integer _ _ P) as [z ->].
  apply andb_true_iff in B. destruct B as [B1 B2].
  unfold leb in B1, B2. apply Qle_bool_iff in B1, B2.
  unfold Qle in B1, B2. cbn [Qnum Qden inject_Z] in B1, B2.
  apply field_ok_leverage.
  right. exists z. split; [reflexivity|]. lia.
Qed.

Lemma price_loop_schema text l trade :
  schema trade -> schema (price_loop text l trade).
Proof.
  intros H. induction l as [|p l IH]; simpl; [assumption|].
  destruct (Regex.exec p text) as [mt|]; [|assumption].
  destruct (negb _); [|assumption].
  destruct (parseNumber (group mt 1)) as [q|]; [|assumption].
  apply schema_set; [in_fields | | assumption].
  apply field_ok_level; [now left | right; eauto].
Qed.

Lemma quantity_loop_schema text l trade :
  schema trade -> schema (quantity_loop text l trade).
Proof.
  intros H. induction l as [|p l IH]; simpl; [assumption|].
  destruct (Regex.exec p text) as [mt|]; [|assumption].
  destruct (parseNumber (group mt 1)) as [q|]; [|assumption].
  destruct (ltb 0 q && ltb q (of_Z 1000000)) eqn:B; [|assumption].
  apply schema_set; [in_fields | | assumption].
  apply andb_true_iff in B. destruct B as [B1 B2].
  unfold ltb in B1, B2. apply negb_true_iff in B1, B2.
  apply field_ok_quantity.
  right. exists q. split; [reflexivity|]. split.
  - apply Qnot_le_lt. intros L. apply Qle_bool_iff in L.
    rewrite L in B1. discriminate.
  - apply Qnot_le_lt. intros L. apply Qle_bool_iff in L.
    unfold of_Z in B2. change (inject_Z 1000000) with 1000000%Q in B2.
    rewrite L in B2. discriminate.
Qed.

Lemma position_loop_schema text l trade :
  schema trade -> schema (position_loop text l trade).
Proof.
  intros H. induction l as [|p l IH]; simpl; [assumption|].
  destruct (Regex.exec p text) as [mt|]; [|assumption].
  destruct (parseNumber (group mt 1)) as [q|]; [|assumption].
  destruct (leb (of_Z 10) q && leb q (of_Z 10000000)) eqn:B; [|assumption].
  apply schema_set; [in_fields | | assumption].
  apply andb_true_iff in B. destruct B as [B1 B2].
  unfold leb in B1, B2. apply Qle_bool_iff in B1, B2.
  apply field_ok_positionSize.
  right. exists q. split; [reflexivity|]. split; assumption.
Qed.

Lemma level_loop_schema field text l trade :
  field = "stopLoss" \/ field = "takeProfit" ->
  schema trade -> schema (level_loop field text l trade).
Proof.
  intros F H. induction l as [|p l IH]; simpl; [assumption|].
  destruct (Regex.exec p text) as [mt|]; [|assumption].
  destruct (parseNumber (group mt 1)) as [q|]; [|assumption].
  apply schema_set; [destruct F as [-> | ->]; in_fields | | assumption].
  apply field_ok_level; [tauto | right; eauto].
Qed.

Lemma breakeven_loop_schema text l trade :
  schema trade -> schema (breakeven_loop text l trade).
Proof.
  intros H. induction l as [|p l IH]; simpl; [assumption|].
  destruct (Regex.exec p text) as [mt|]; [|assumption].
  destruct (truthy _).
  - destruct (parseNumber (group mt 1)) as [q|]; [|assumption].
    apply schema_set; [in_fields | | assumption].
    apply field_ok_breakEven. right. right. eauto.
  - apply schema_set; [in_fields | | assumption].
    apply field_ok_breakEven. right. now left.
Qed.

(** ** The ticker is never a common word *)

Lemma ticker_tables_clean :
  forallb (fun e => negb (mem (snd e) EXCLUDED_WORDS)) SPOKEN_PAIR_VARIANTS = true /\
  forallb (fun e => negb (mem (snd e) EXCLUDED_WORDS) &&
                    forallb (fun q => negb (mem (snd e ++ "/" ++ q) EXCLUDED_WORDS))
                            quotes7)
          CRYPTO_NAME_TO_TICKER = true /\
  forallb (fun b => forallb (fun q => negb (mem (b ++ "/" ++ q) EXCLUDED_WORDS))
                            quotes7)
          CRYPTO_TOKENS = true /\
  forallb (fun w => negb (mem w EXCLUDED_WORDS) && String.eqb (toUpperCase w) w)
          STOCK_TICKERS = true.
Proof. repeat split; vm_compute; reflexivity. Qed.

Lemma detect_stock_shape u trade t :
  detect_stock u trade = Ret t ->
  t = trade \/
  exists w, In w STOCK_TICKERS /\ t = obj_set "ticker" (VStr w) trade.
Proof.
  unfold detect_stock.
  destruct (Regex.exec stockPattern u) as [mt|] eqn:E.
  - assert (C : word_captured STOCK_TICKERS mt).
    { unfold Regex.exec in E.
      eapply (search_from_inv _ stockPattern); [|exact E].
      intros p0 t0 i0 mt0. apply quote_captures. }
    destruct C as [w [v [Hin [G U]]]]. rewrite G. cbn [call_toUpperCase bind].
    intros H. apply Ret_inj in H. right. exists w. split; [assumption|].
    rewrite <- H, U. do 2 f_equal.
    destruct ticker_tables_clean as [_ [_ [_ T]]]. rewrite forallb_forall in T.
    specialize (T w Hin). apply andb_true_iff in T. now apply String.eqb_eq.
  - intros H. apply Ret_inj in H. now left.
Qed.

Lemma context_loop_shape u l trade t :
  context_loop u l trade = Ret t ->
  t = trade \/
  exists candidate, mem candidate EXCLUDED_WORDS = false /\
                    t = obj_set "ticker" (VStr candidate) trade.
Proof.
  induction l as [|p l IH]; simpl; intros H.
  - apply Ret_inj in H. now left.
  - destruct (Regex.exec p u) as [mt|]; [|now apply IH].
    destruct (or_else (group mt 2) (group mt 1)) as [c|];
      cbn [call_toUpperCase bind] in H; [|discriminate].
    destruct (mem (toUpperCase c) EXCLUDED_WORDS) eqn:M; cbn [negb] in H.
    + now apply IH.
    + apply Ret_inj in H. right. exists (toUpperCase c). auto.
Qed.

Lemma ticker_ok (t : string) :
  mem t EXCLUDED_WORDS = false -> field_ok "ticker" (VStr t).
Proof.
  intros H.
  change (VStr t = VNull \/ exists t0, VStr t = VStr t0 /\ mem t0 EXCLUDED_WORDS = false).
  right. eauto.
Qed.

Lemma detect_ticker_schema u trade t :
  schema trade -> detect_ticker u trade = Ret t -> schema t.
Proof.
  intros H. unfold detect_ticker.
  destruct ticker_tables_clean as [T1 [T2 [T3 T4]]].
  rewrite forallb_forall in T1, T2, T3, T4.
  assert (S1 : schema (spoken_loop u SPOKEN_PAIR_VARIANTS trade)).
  { destruct (spoken_loop_shape u SPOKEN_PAIR_VARIANTS trade)
      as [->|[v [c [Hin [_ ->]]]]]; [assumption|].
    apply schema_set; [in_fields | | assumption].
    apply ticker_ok. apply negb_true_iff. apply (T1 (v, c) Hin). }
  revert S1. generalize (spoken_loop u SPOKEN_PAIR_VARIANTS trade).
  intros t1 S1 E. apply bind_ret_inv in E. destruct E as [t2 [E2 E]].
  assert (S2 : schema t2).
  { unfold unless_ticker in E2. destruct (negb _).
    - destruct (name_loop_shape _ _ _ _ E2)
        as [->|[n [tk [Hin [->|[q [Hq ->]]]]]]]; [assumption| |];
        (apply schema_set; [in_fields | | assumption]);
        apply ticker_ok, negb_true_iff;
        specialize (T2 (n, tk) Hin); apply andb_true_iff in T2;
        destruct T2 as [A B]; [exact A|].
      rewrite forallb_forall in B. apply (B q Hq).
    - apply Ret_inj in E2. now subst. }
  apply bind_ret_inv in E. destruct E as [t3 [E3 E]].
  assert (S3 : schema t3).
  { unfold unless_ticker in E3. destruct (negb _); apply Ret_inj in E3; subst t3;
      [|assumption].
    destruct (pair_loop_shape u cryptoPairPatterns t2 (incl_refl _))
      as [->|[b [q [Hb [Hq ->]]]]]; [assumption|].
    apply schema_set; [in_fields | | assumption].
    apply ticker_ok, negb_true_iff.
    specialize (T3 b Hb). rewrite forallb_forall in T3. apply (T3 q Hq). }
  apply bind_ret_inv in E. destruct E as [t4 [E4 E]].
  assert (S4 : schema t4).
  { unfold unless_ticker in E4. destruct (negb _).
    - destruct (detect_stock_shape _ _ _ E4) as [->|[w [Hw ->]]]; [assumption|].
      apply schema_set; [in_fields | | assumption].
      apply ticker_ok, negb_true_iff.
      specialize (T4 w Hw). apply andb_true_iff in T4. tauto.
    - apply Ret_inj in E4. now subst. }
  unfold unless_ticker in E. destruct (negb _).
  - destruct (context_loop_shape _ _ _ _ E) as [->|[c [Hc ->]]]; [assumption|].
    apply schema_set; [in_fields | | assumption]. now apply ticker_ok.
  - apply Ret_inj in E. now subst.
Qed.

Lemma detect_schema (s : string) (trade : object) :
  detect s = Ret trade -> schema trade.
Proof.
  intros H. apply detect_unfold in H. destruct H as [t [E [_ ->]]].
  unfold after_ticker.
  apply breakeven_loop_schema.
  apply level_loop_schema; [now right|].
  apply level_loop_schema; [now left|].
  apply position_loop_schema, quantity_loop_schema, price_loop_schema.
  apply (detect_ticker_schema _ _ _) in E; [assumption|].
  unfold before_ticker.
  apply leverage_loop_schema, detect_indicators_schema.
  apply timeframe_loop_schema; [apply incl_refl|].
  apply exchange_loop_schema; [apply incl_refl|].
  apply detect_action_schema, schema_initial.
Qed.

(** A returned record, related to the detected object it comes from. *)
Lemma record_origin (s : string) (r : object) :
  extract s = Ret (Some r) ->
  exists trade,
    detect s = Ret trade /\ schema trade /\ hasTradeInfo trade = true /\
    r = filter kept trade /\ obj_keys trade = all_fields /\
    forall k, obj_get k r
              = if is_empty (obj_get k trade) then VUndefined
                else obj_get k trade.
Proof.
  intros H. destruct (extract_spec s) as [trade [D [K E]]].
  rewrite E in H. destruct (String.eqb s ""); [discriminate|].
  destruct (hasTradeInfo trade) eqn:G; [|discriminate].
  apply Ret_inj in H. injection H as <-.
  exists trade. repeat split; try assumption.
  - eapply detect_schema; eassumption.
  - intros k. apply obj_get_filter_kept. rewrite K. apply all_fields_nodup.
Qed.

(** ** Ranges *)

Lemma record_field_ok (s : string) (r : object) (k : string) :
  extract s = Ret (Some r) -> In k all_fields ->
  obj_get k r = VUndefined \/
  (obj_get k r <> VNull /\ field_ok k (obj_get k r)).
Proof.
  intros H Hk. destruct (record_origin _ _ H) as [trade [_ [S [_ [_ [_ G]]]]]].
  rewrite G. destruct (is_empty (obj_get k trade)) eqn:E; [now left|].
  right. split; [|now apply S].
  intros N. rewrite N in E. discriminate.
Qed.







(** X4. The ticker of a record is never one of the excluded words,
    whichever stage of the cascade found it. *)
Theorem X4_ticker_not_excluded (s : string) (r : object) :
  extract s = Ret (Some r) ->
  obj_get "ticker" r = VUndefined \/
  exists t, obj_get "ticker" r = VStr t /\ ~ In t EXCLUDED_WORDS.
Proof.
  intros H.
  destruct (record_field_ok s r "ticker" H ltac:(in_fields)) as [U|[N F]];
    [now left|].
  right. destruct F as [F|[t [F M]]]; [contradiction|].
  exists t. split; [assumption|].
  intros Hin. apply mem_In in Hin. congruence.
Qed.

Lemma X4_witness :
  extract "Buy at $150"
  = Ret (Some [("action", VStr "buy"); ("price", n_ 150);
               ("tradeType", VStr "long")]) /\
  (obj_get "ticker" [("action", VStr "buy"); ("price", n_ 150);
                     ("tradeType", VStr "long")] = VUndefined \/
   exists t, obj_get "ticker" [("action", VStr "buy"); ("price", n_ 150);
                               ("tradeType", VStr "long")] = VStr t /\
             ~ In t EXCLUDED_WORDS).
Proof.
  assert (H : extract "Buy at $150"
              = Ret (Some [("action", VStr "buy"); ("price", n_ 150);
                           ("tradeType", VStr "long")]))
    by (vm_compute; reflexivity).
  split; [exact H|]. exact (X4_ticker_not_excluded _ _ H).
Defined.

(** ** Direction *)

Lemma detect_direction (s : string) (trade : object) :
  detect s = Ret trade ->
  obj_get "action" trade = obj_get "action" (detect_action s initial_trade) /\
  obj_get "tradeType" trade = obj_get "tradeType" (detect_action s initial_trade).
Proof.
  intros H. apply detect_unfold in H. destruct H as [t [_ [U ->]]].
  unfold after_ticker. unfold before_ticker in U.
  split; repeat frame_step; reflexivity.
Qed.

Lemma detect_action_cases (s : string) :
  let t := detect_action s initial_trade in
  (Regex.test buyPatterns s = true /\
   obj_get "action" t = VStr "buy" /\ obj_get "tradeType" t = VStr "long") \/
  (Regex.test buyPatterns s = false /\ Regex.test sellPatterns s = true /\
   obj_get "action" t = VStr "sell" /\ obj_get "tradeType" t = VStr "short") \/
  (Regex.test buyPatterns s = false /\ Regex.test sellPatterns s = false /\
   obj_get "action" t = VNull /\ obj_get "tradeType" t = VNull).
Proof.
  cbv zeta. unfold detect_action.
  destruct (Regex.test buyPatterns s); [left; repeat split; reflexivity|].
  right. destruct (Regex.test sellPatterns s); [left|right]; repeat split; reflexivity.
Qed.

(** X5. In a record, action and tradeType come as a pair: buy with long,
    sell with short, or both absent. *)
Theorem X5_action_tradeType_pair (s : string) (r : object) :
  extract s = Ret (Some r) ->
  (obj_get "action" r = VStr "buy" /\ obj_get "tradeType" r = VStr "long") \/
  (obj_get "action" r = VStr "sell" /\ obj_get "tradeType" r = VStr "short") \/
  (obj_get "action" r = VUndefined /\ obj_get "tradeType" r = VUndefined).
Proof.
  intros H. destruct (record_origin _ _ H) as [trade [D [_ [_ [_ [_ G]]]]]].
  destruct (detect_direction _ _ D) as [A T].
  rewrite !G, A, T.
  destruct (detect_action_cases s) as [[_ [-> ->]]|[[_ [_ [-> ->]]]|[_ [_ [-> ->]]]]];
    simpl; tauto.
Qed.

Lemma X5_witness :
  extract "Open short ETH USDT at 2500, SL 2600, TP 2300"
  = Ret (Some [("ticker", VStr "ETH/USDT"); ("action", VStr "sell");
               ("price", n_ 2500); ("stopLoss", n_ 2600);
               ("takeProfit", n_ 2300); ("tradeType", VStr "short")]) /\
  obj_get "tradeType"
    [("ticker", VStr "ETH/USDT"); ("action", VStr "sell");
     ("price", n_ 2500); ("stopLoss", n_ 2600);
     ("takeProfit", n_ 2300); ("tradeType", VStr "short")] = VStr "short".
Proof.
  assert (H : extract "Open short ETH USDT at 2500, SL 2600, TP 2300"
              = Ret (Some [("ticker", VStr "ETH/USDT"); ("action", VStr "sell");
                           ("price", n_ 2500); ("stopLoss", n_ 2600);
                           ("takeProfit", n_ 2300); ("tradeType", VStr "short")]))
    by (vm_compute; reflexivity).
  split; [exact H|].
  destruct (X5_action_tradeType_pair _ _ H) as [[A _]|[[_ T]|[A _]]];
    [discriminate A | exact T | discriminate A].
Defined.

Lemma truthy_gate (trade : object) (k : string) :
  In k gate_fields -> truthy (obj_get k trade) = true -> hasTradeInfo trade = true.
Proof.
  intros Hk Ht. unfold hasTradeInfo. apply existsb_exists. eauto.
Qed.

(** X6. A direction cue alone makes a trade: a text with a buy cue always
    yields a record with action buy and tradeType long, even when a sell
    cue is present too; a text with a sell cue and no buy cue always
    yields a record with action sell and tradeType short. *)
Theorem X6_cue_gives_record (s : string) :
  (Regex.test buyPatterns s = true ->
   exists r, extract s = Ret (Some r) /\
             obj_get "action" r = VStr "buy" /\
             obj_get "tradeType" r = VStr "long") /\
  (Regex.test buyPatterns s = false -> Regex.test sellPatterns s = true ->
   exists r, extract s = Ret (Some r) /\
             obj_get "action" r = VStr "sell" /\
             obj_get "tradeType" r = VStr "short").
Proof.
  destruct (extract_spec s) as [trade [D [K E]]].
  destruct (detect_direction _ _ D) as [A T].
  assert (N : forall k, obj_get k (filter kept trade)
                        = if is_empty (obj_get k trade) then VUndefined
                          else obj_get k trade).
  { intros k. apply obj_get_filter_kept. rewrite K. apply all_fields_nodup. }
  assert (NE : forall p, Regex.test p s = true -> Regex.test p "" = false ->
                         String.eqb s "" = false).
  { intros p Hp He. destruct (String.eqb_spec s ""); [|reflexivity].
    subst s. congruence. }
  split.
  - intros B. destruct (detect_action_cases s) as [[_ [A' T']]|[[B' _]|[B' _]]];
      try congruence.
    rewrite A' in A. rewrite T' in T.
    rewrite E, (NE buyPatterns B eq_refl).
    rewrite (truthy_gate trade "action") by (simpl; rewrite ?A; tauto).
    eexists. split; [reflexivity|]. rewrite !N, A, T. split; reflexivity.
  - intros B S. destruct (detect_action_cases s) as [[B' _]|[[_ [_ [A' T']]]|[_ [S' _]]]];
      try congruence.
    rewrite A' in A. rewrite T' in T.
    rewrite E, (NE sellPatterns S eq_refl).
    rewrite (truthy_gate trade "action") by (simpl; rewrite ?A; tauto).
    eexists. split; [reflexivity|]. rewrite !N, A, T. split; reflexivity.
Qed.

Lemma X6_witness :
  (exists r, extract "bought then sold it all" = Ret (Some r) /\
             obj_get "action" r = VStr "buy" /\
             obj_get "tradeType" r = VStr "long") /\
  (exists r, extract "closing my position" = Ret (Some r) /\
             obj_get "action" r = VStr "sell" /\
             obj_get "tradeType" r = VStr "short").
Proof.
  split.
  - apply (proj1 (X6_cue_gives_record "bought then sold it all")).
    vm_compute. reflexivity.
  - apply (proj2 (X6_cue_gives_record "closing my position"));
      vm_compute; reflexivity.
Defined.

(** ** Exchange and timeframe *)

Lemma exchange_loop_find u l trade :
  exchange_loop u l trade
  = match find (fun e => includes u e) l with
    | Some e => obj_set "exchange" (VStr (capitalized e)) trade
    | None => trade
    end.
Proof.
  induction l as [|e l IH]; simpl; [reflexivity|].
  destruct (includes u e); [reflexivity | exact IH].
Qed.

Lemma timeframe_loop_find u l trade :
  timeframe_loop u l trade
  = match find (fun e => includes u (fst e)) l with
    | Some e => obj_set "timeframe" (VStr (snd e)) trade
    | None => trade
    end.
Proof.
  induction l as [|[v c] l IH]; simpl; [reflexivity|].
  destruct (includes u v); [reflexivity | exact IH].
Qed.

(** X7. The exchange of a record is the first name of the exchange table,
    in table order, that occurs in the upper-cased text, written with a
    capital first letter and the rest in lower case; the field is absent
    exactly when no name of the table occurs. *)
Theorem X7_exchange_first_match (s : string) (r : object) :
  extract s = Ret (Some r) ->
  obj_get "exchange" r
  = match find (fun e => includes (toUpperCase s) e) EXCHANGES with
    | Some e => VStr (capitalized e)
    | None => VUndefined
    end.
Proof.
  intros H. destruct (record_origin _ _ H) as [trade [D [_ [_ [_ [_ G]]]]]].
  rewrite G. clear G.
  apply detect_unfold in D. destruct D as [t [_ [U ->]]].
  unfold after_ticker. unfold before_ticker in U.
  repeat frame_step. rewrite exchange_loop_find.
  destruct (find _ EXCHANGES) as [e|].
  - rewrite obj_get_set_same. reflexivity.
  - frame_step. reflexivity.
Qed.

Lemma X7_witness :
  extract "Long bitcoin on kraken, not binance"
  = Ret (Some [("ticker", VStr "BTC"); ("action", VStr "buy");
               ("exchange", VStr "Binance"); ("tradeType", VStr "long")]) /\
  obj_get "exchange"
    [("ticker", VStr "BTC"); ("action", VStr "buy");
     ("exchange", VStr "Binance"); ("tradeType", VStr "long")]
  = match find (fun e => includes
                           (toUpperCase "Long bitcoin on kraken, not binance") e)
               EXCHANGES with
    | Some e => VStr (capitalized e)
    | None => VUndefined
    end.
Proof.
  assert (H : extract "Long bitcoin on kraken, not binance"
              = Ret (Some [("ticker", VStr "BTC"); ("action", VStr "buy");
                           ("exchange", VStr "Binance");
                           ("tradeType", VStr "long")]))
    by (vm_compute; reflexivity).
  split; [exact H|]. exact (X7_exchange_first_match _ _ H).
Defined.

(** X8. The timeframe of a record is the code of the first variant of the
    timeframe table that occurs in the upper-cased text, absent when none
    occurs.  Because "15 MINUTES" stands before "5 MINUTES" in the table,
    every record of a text that mentions 15 minutes carries 15m, although
    the text then contains "5 MINUTES" as well. *)
Theorem X8_timeframe_first_match (s : string) (r : object) :
  extract s = Ret (Some r) ->
  obj_get "timeframe" r
  = match find (fun e => includes (toUpperCase s) (fst e)) TIMEFRAME_VARIANTS with
    | Some e => VStr (snd e)
    | None => VUndefined
    end /\
  (includes (toUpperCase s) "15 MINUTES" = true ->
   obj_get "timeframe" r = VStr "15m").
Proof.
  intros H.
  assert (E : obj_get "timeframe" r
              = match find (fun e => includes (toUpperCase s) (fst e))
                           TIMEFRAME_VARIANTS with
                | Some e => VStr (snd e)
                | None => VUndefined
                end).
  { destruct (record_origin _ _ H) as [trade [D [_ [_ [_ [_ G]]]]]].
    rewrite G. clear G.
    apply detect_unfold in D. destruct D as [t [_ [U ->]]].
    unfold after_ticker. unfold before_ticker in U.
    repeat frame_step. rewrite timeframe_loop_find.
    destruct (find _ TIMEFRAME_VARIANTS) as [[v c]|].
    - rewrite obj_get_set_same. reflexivity.
    - repeat frame_step. reflexivity. }
  split; [exact E|].
  intros M. rewrite E. unfold TIMEFRAME_VARIANTS. cbn [find fst].
  destruct (includes (toUpperCase s) "FIFTEEN MINUTES"); [reflexivity|].
  rewrite M. reflexivity.
Qed.

Lemma X8_witness :
  extract "Buy AAPL on the 15 minutes chart"
  = Ret (Some [("ticker", VStr "AAPL"); ("action", VStr "buy");
               ("timeframe", VStr "15m"); ("tradeType", VStr "long")]) /\
  obj_get "timeframe"
    [("ticker", VStr "AAPL"); ("action", VStr "buy");
     ("timeframe", VStr "15m"); ("tradeType", VStr "long")] = VStr "15m".
Proof.
  assert (H : extract "Buy AAPL on the 15 minutes chart"
              = Ret (Some [("ticker", VStr "AAPL"); ("action", VStr "buy");
                           ("timeframe", VStr "15m"); ("tradeType", VStr "long")]))
    by (vm_compute; reflexivity).
  split; [exact H|].
  apply (proj2 (X8_timeframe_first_match _ _ H)). vm_compute. reflexivity.
Defined.

(** ** What a returned record always holds *)

Lemma filter_subseq {A : Type} (f : A -> bool) (l : list A) :
  subseq (filter f l) l.
Proof.
  induction l as [|a l IH]; simpl; [constructor|].
  destruct (f a); now constructor.
Qed.

Lemma subseq_map {A B : Type} (g : A -> B) (l1 l2 : list A) :
  subseq l1 l2 -> subseq (map g l1) (map g l2).
Proof. induction 1; simpl; now constructor. Qed.

(** The validity gate leaves a witness in the record: the field that let
    the record through is still there after the cleanup. *)
Lemma record_gate_field (s : string) (r : object) :
  extract s = Ret (Some r) ->
  exists k, In k gate_fields /\ truthy (obj_get k r) = true.
Proof.
  intros H. destruct (record_origin _ _ H) as [trade [D [S [T [-> [K G]]]]]].
  unfold hasTradeInfo in T. apply existsb_exists in T.
  destruct T as [k [Hk Ht]]. exists k. split; [assumption|].
  rewrite G.
  destruct (is_empty (obj_get k trade)) eqn:E; [|exact Ht].
  exfalso.
  assert (F : field_ok k (obj_get k trade))
    by (apply S; simpl in Hk; unfold all_fields; simpl; tauto).
  destruct (obj_get k trade) as [| |b|q|x|[|i l]]; try discriminate.
  simpl in Hk.
  repeat (destruct Hk as [<-|Hk];
          [vm_compute in F;
           repeat match goal with
                  | H : _ \/ _ |- _ => destruct H
                  | H : exists _, _ |- _ => destruct H
                  | H : _ /\ _ |- _ => destruct H
                  end; discriminate|]).
  destruct Hk.
Qed.

(** X9. A returned record is never empty: at least one of the seven gate
    fields (ticker, action, price, quantity, stopLoss, takeProfit,
    positionSize) is present in it with a truthy value.  Its keys are keys of
    the object literal, in the literal's order and each at most once. *)
Theorem X9_record_shape (s : string) (r : object) :
  extract s = Ret (Some r) ->
  (exists k, In k ["ticker"; "action"; "price"; "quantity"; "stopLoss";
                   "takeProfit"; "positionSize"] /\
             truthy (obj_get k r) = true) /\
  subseq (obj_keys r) all_fields /\
  NoDup (obj_keys r).
Proof.
  intros H. split; [exact (record_gate_field _ _ H)|].
  destruct (record_origin _ _ H) as [trade [D [S [T [-> [K G]]]]]].
  split.
  - rewrite <- K. unfold obj_keys. apply subseq_map, filter_subseq.
  - apply filter_nodup_keys. rewrite K. apply all_fields_nodup.
Qed.

Lemma X9_witness :
  extract "999999 shares" = Ret (Some [("quantity", n_ 999999)]) /\
  exists k, In k ["ticker"; "action"; "price"; "quantity"; "stopLoss";
                  "takeProfit"; "positionSize"] /\
            truthy (obj_get k [("quantity", n_ 999999)]) = true.
Proof.
  assert (H : extract "999999 shares" = Ret (Some [("quantity", n_ 999999)]))
    by (vm_compute; reflexivity).
  split; [exact H|]. exact (proj1 (X9_record_shape _ _ H)).
Defined.

(** ** The summary of an extracted record *)

Ltac split_truthy o N :=
  repeat match goal with
         | |- context [if truthy (obj_get ?k o) then _ else _] =>
             let T := fresh "T" in
             destruct (truthy (obj_get k o)) eqn:T;
             [try (destruct (N k ltac:(simpl; tauto) T) as [? ->])|]
         end;
  cbn [format_field bind andb].

Lemma summary_returns (o : object) :
  summarizable o -> exists out, generateTradeSummary o = Ret out.
Proof.
  intros [N I]. unfold generateTradeSummary.
  assert (P : exists parts, summary_parts o = Ret parts).
  { unfold summary_parts. cbv zeta.
    match goal with
    | |- context [push ?T (to_string (obj_get "quantity" o) ++ " shares")] =>
        generalize T
    end.
    intros T. split_truthy o N; eexists; reflexivity. }
  assert (X : exists extras, summary_extras o = Ret extras).
  { unfold summary_extras. cbv zeta.
    split_truthy o N;
      (destruct I as [-> | [l ->]]; [|destruct l]; eexists; reflexivity). }
  destruct P as [parts ->]. destruct X as [extras ->]. cbn [bind]. eauto.
Qed.

Lemma record_summarizable (s : string) (r : object) :
  extract s = Ret (Some r) -> summarizable r.
Proof.
  intros H. split.
  - intros k Hk Ht.
    assert (Hin : In k all_fields) by (simpl in Hk; unfold all_fields; simpl; tauto).
    destruct (record_field_ok s r k H Hin) as [U|[_ F]];
      [rewrite U in Ht; discriminate|].
    simpl in Hk.
    destruct Hk as [<-|[<-|[<-|[<-|[]]]]];
      (destruct F as [F|F];
       [rewrite F in Ht; discriminate
       | destruct F as [q F]; exists q; tauto]).
  - destruct (record_field_ok s r "indicators" H ltac:(in_fields)) as [U|[_ F]];
      [now left | right; exact F].
Qed.

Lemma contains_nonempty (out x : string) :
  contains out x -> x <> "" -> out <> "".
Proof.
  intros [p [q ->]] Hx E. destruct p; [|discriminate E].
  destruct x; [now apply Hx | discriminate E].
Qed.

Lemma summary_parts_head (o : object) (parts : list string) :
  summary_parts o = Ret parts ->
  truthy (obj_get "ticker" o) = true \/ truthy (obj_get "action" o) = true ->
  exists x, In x parts /\ x <> "".
Proof.
  unfold summary_parts. cbv zeta. intros H T.
  match type of H with
  | context [push ?E ("on " ++ to_string (obj_get "exchange" o))] =>
      assert (H0 : exists x, In x E /\ x <> "")
  end.
  { destruct (truthy (obj_get "ticker" o)), (truthy (obj_get "action" o));
      cbn [andb]; try (destruct T; discriminate);
      eexists; (split; [apply in_push_new|]).
    - destruct (truthy (obj_get "tradeType" o));
        [destruct (is_str (obj_get "tradeType" o) "long")
        |destruct (is_str (obj_get "action" o) "buy")]; discriminate.
    - discriminate.
    - destruct (is_str (obj_get "action" o) "buy"); discriminate. }
  destruct H0 as [x [Hx Nx]]. exists x. split; [|assumption].
  revert H Hx.
  match goal with
  | |- context [push ?E ("on " ++ to_string (obj_get "exchange" o))] => generalize E
  end.
  intros E H Hx. apply bind_ret_inv in H. destruct H as [p1 [H1 H2]].
  assert (I1 : In x p1).
  { destruct (truthy (obj_get "positionSize" o));
      [apply bind_ret_inv in H1; destruct H1 as [f [_ H1]]|];
      apply Ret_inj in H1; subst p1;
      destruct (truthy (obj_get "quantity" o)),
               (truthy (obj_get "timeframe" o)),
               (truthy (obj_get "exchange" o)); auto 6 with summary. }
  destruct (truthy (obj_get "price" o));
    [apply bind_ret_inv in H2; destruct H2 as [f [_ H2]]|];
    apply Ret_inj in H2; subst parts;
    destruct (truthy (obj_get "leverage" o)); auto with summary.
Qed.

(** X10. The summary of an extracted record: on every record that
    [extractTradeInfo] returns, [generateTradeSummary] returns a string
    (it never fails on a field) and the string is not empty. *)
Theorem X10_summary_of_record (s : string) (r : object) :
  extract s = Ret (Some r) ->
  exists out, generateTradeSummary r = Ret out /\ out <> "".
Proof.
  intros H.
  destruct (summary_returns r (record_summarizable _ _ H)) as [out E].
  exists out. split; [assumption|].
  destruct (summary_contains _ _ E) as [parts [extras [P [X [CP CX]]]]].
  destruct (summary_parts_fields _ _ P) as [P1 [P2 [_ P4]]].
  destruct (summary_extras_fields _ _ X) as [X1 [X2 _]].
  destruct (record_gate_field _ _ H) as [k [Hk Ht]].
  assert (Hin : In k all_fields) by (simpl in Hk; unfold all_fields; simpl; tauto).
  assert (Q : forall q, obj_get k r = VNum q -> ~ Qeq q 0).
  { intros q Eq Z. rewrite Eq in Ht. simpl in Ht. unfold is_zero in Ht.
    apply Qeq_bool_iff in Z. rewrite Z in Ht. discriminate. }
  assert (Num : k <> "ticker" -> k <> "action" -> exists q, obj_get k r = VNum q).
  { intros N1 N2.
    destruct (record_field_ok s r k H Hin) as [U|[_ F]];
      [rewrite U in Ht; discriminate|].
    simpl in Hk.
    destruct Hk as [<-|[<-|[<-|[<-|[<-|[<-|[<-|[]]]]]]]]; try congruence;
      (destruct F as [F|F];
       [rewrite F in Ht; discriminate
       | destruct F as [q F]; exists q; tauto]). }
  simpl in Hk.
  destruct Hk as [<-|[<-|Hk]].
  - destruct (summary_parts_head _ _ P (or_introl Ht)) as [x [Hx Nx]].
    eapply contains_nonempty; eauto.
  - destruct (summary_parts_head _ _ P (or_intror Ht)) as [x [Hx Nx]].
    eapply contains_nonempty; eauto.
  - assert (N1 : k <> "ticker") by (intros ->; intuition discriminate).
    assert (N2 : k <> "action") by (intros ->; intuition discriminate).
    destruct (Num N1 N2) as [q Eq]. pose proof (Q q Eq) as Nz.
    destruct Hk as [<-|[<-|[<-|[<-|[<-|[]]]]]].
    + eapply contains_nonempty; [apply CP, (P4 q Eq Nz) | discriminate].
    + eapply contains_nonempty; [apply CP, (P1 q Eq Nz)|].
      destruct (toString q); discriminate.
    + eapply contains_nonempty; [apply CX, (X1 q Eq Nz) | discriminate].
    + eapply contains_nonempty; [apply CX, (X2 q Eq Nz) | discriminate].
    + eapply contains_nonempty; [apply CP, (P2 q Eq Nz) | discriminate].
Qed.

Lemma X10_witness :
  exists out,
    generateTradeSummary
      [("ticker", VStr "AAPL"); ("action", VStr "buy");
       ("stopLoss", n_ 140); ("tradeType", VStr "long")] = Ret out /\
    out <> "".
Proof.
  assert (H : extract "Buy AAPL stop loss at $140"
              = Ret (Some [("ticker", VStr "AAPL"); ("action", VStr "buy");
                           ("stopLoss", n_ 140); ("tradeType", VStr "long")]))
    by (vm_compute; reflexivity).
  exact (X10_summary_of_record _ _ H).
Defined.

(** ** Formatting and parsing back *)

Lemma strip_commas_app (a b : string) :
  strip_commas (a ++ b) = strip_commas a ++ strip_commas b.
Proof.
  induction a as [|c a IH]; simpl; [reflexivity|].
  destruct (code c =? 44)%N; simpl; now rewrite IH.
Qed.

Lemma digit_not_comma (c : ascii) : is_digit c = true -> (code c =? 44)%N = false.
Proof.
  unfold is_digit, in_range. intros H. apply andb_true_iff in H.
  destruct H as [H _]. apply N.leb_le in H. apply N.eqb_neq. lia.
Qed.

Lemma strip_commas_digits (s : string) :
  all_digits s = true -> strip_commas s = s.
Proof.
  induction s as [|c s IH]; simpl; [reflexivity|].
  intros H. apply andb_true_iff in H. destruct H as [Hc Hs].
  rewrite (digit_not_comma _ Hc). now rewrite IH.
Qed.

Lemma all_digits_app (a b : string) :
  all_digits (a ++ b) = all_digits a && all_digits b.
Proof.
  induction a as [|c a IH]; simpl; [reflexivity|].
  now rewrite IH, andb_assoc.
Qed.

Lemma dval_app (a b : string) (x : N) : dval (a ++ b) x = dval b (dval a x).
Proof. revert x. induction a as [|c a IH]; simpl; intros x; [reflexivity | apply IH]. Qed.

Lemma take_digits_app (ds rest : string) : forall a k,
  all_digits ds = true -> no_digit_head rest ->
  take_digits (ds ++ rest) a k = (dval ds a, k + String.length ds, rest).
Proof.
  induction ds as [|c ds IH]; simpl; intros a k H R.
  - rewrite Nat.add_0_r. destruct rest as [|c r]; [reflexivity|].
    simpl in *. now rewrite R.
  - apply andb_true_iff in H. destruct H as [Hc Hs]. rewrite Hc.
    rewrite IH by assumption. now rewrite Nat.add_succ_r.
Qed.

Lemma digit_val_char (d : N) : (d < 10)%N -> digit_val (digit_char d) = d.
Proof.
  intros H. unfold digit_val, digit_char, code.
  rewrite N_ascii_embedding by lia. lia.
Qed.

Lemma length_append (a b : string) :
  String.length (a ++ b) = String.length a + String.length b.
Proof. induction a as [|c a IH]; simpl; [reflexivity | now rewrite IH]. Qed.

(** The digits [dec_digits] writes denote the number they were made from. *)
Lemma dec_digits_value (f : nat) : forall n acc,
  (n < 2 ^ N.of_nat f)%N ->
  exists D, dec_digits f n acc = D ++ acc /\ all_digits D = true /\
            forall x, dval D x = (x * 10 ^ N.of_nat (String.length D) + n)%N.
Proof.
  induction f as [|f IH]; intros n acc H.
  - exists "". simpl in *. repeat split. intros x. lia.
  - cbn [dec_digits].
    assert (M : (n mod 10 < 10)%N) by (apply N.mod_lt; lia).
    pose proof (N.div_mod n 10 ltac:(lia)) as DM.
    destruct (N.eqb_spec (n / 10) 0) as [E|E].
    + exists (String (digit_char (n mod 10)) ""). split; [reflexivity|].
      split; [simpl; now rewrite is_digit_digit_char|].
      intros x. simpl. rewrite digit_val_char by assumption. lia.
    + assert (H' : (n / 10 < 2 ^ N.of_nat f)%N).
      { apply N.Div0.div_lt_upper_bound.
        rewrite Nat2N.inj_succ, N.pow_succ_r' in H.
        remember (2 ^ N.of_nat f)%N as p. lia. }
      destruct (IH (n / 10)%N (String (digit_char (n mod 10)) acc) H')
        as [D [E1 [E2 E3]]].
      exists (D ++ String (digit_char (n mod 10)) "").
      split; [rewrite E1, append_assoc; reflexivity|].
      split; [rewrite all_digits_app, E2; simpl; now rewrite is_digit_digit_char|].
      intros x. rewrite dval_app, E3. simpl.
      rewrite digit_val_char by assumption.
      rewrite length_append. simpl String.length.
      rewrite Nat.add_1_r, Nat2N.inj_succ, N.pow_succ_r'.
      remember (10 ^ N.of_nat (String.length D))%N as p. lia.
Qed.

Lemma N_to_string_value (n : N) :
  all_digits (N_to_string n) = true /\ N_to_string n <> "" /\
  forall x, dval (N_to_string n) x
            = (x * 10 ^ N.of_nat (String.length (N_to_string n)) + n)%N.
Proof.
  split; [apply N_to_string_digits|]. split; [apply N_to_string_nonempty|].
  unfold N_to_string.
  destruct (dec_digits_value (S (N.to_nat (N.log2 n))) n "" (log2_fuel n))
    as [D [E1 [_ E3]]].
  rewrite append_nil_r in E1. rewrite E1. exact E3.
Qed.

Lemma three_digits_value (m x : N) :
  (m < 1000)%N -> dval (three_digits m) x = (x * 1000 + m)%N.
Proof.
  intros H. unfold three_digits. simpl.
  assert (C : (m / 100 = m / 10 / 10)%N)
    by (rewrite N.Div0.div_div; reflexivity).
  rewrite !digit_val_char.
  - pose proof (N.div_mod m 10 ltac:(lia)) as A.
    pose proof (N.div_mod (m / 10) 10 ltac:(lia)) as B.
    rewrite C. lia.
  - apply N.mod_lt. lia.
  - apply N.mod_lt. lia.
  - apply N.Div0.div_lt_upper_bound. lia.
Qed.

(** With its commas removed, a grouped number is a string of digits that
    denotes the number. *)
Lemma group_fuel_value (f : nat) : forall n,
  (n < 2 ^ N.of_nat (S f))%N ->
  exists D, strip_commas (group_fuel f n) = D /\ all_digits D = true /\ D <> "" /\
            forall x, dval D x = (x * 10 ^ N.of_nat (String.length D) + n)%N.
Proof.
  induction f as [|f IH]; intros n H.
  - destruct (N_to_string_value n) as [A [B C]].
    exists (N_to_string n). cbn [group_fuel].
    rewrite strip_commas_digits by assumption. auto.
  - cbn [group_fuel]. destruct (N.ltb_spec n 1000) as [L|L].
    + destruct (N_to_string_value n) as [A [B C]].
      exists (N_to_string n). rewrite strip_commas_digits by assumption. auto.
    + assert (M : (n mod 1000 < 1000)%N) by (apply N.mod_lt; lia).
      destruct (three_digits_ok _ M) as [T1 T2].
      assert (H' : (n / 1000 < 2 ^ N.of_nat (S f))%N).
      { apply N.Div0.div_lt_upper_bound.
        rewrite Nat2N.inj_succ, N.pow_succ_r' in H.
        remember (2 ^ N.of_nat (S f))%N as p. lia. }
      destruct (IH _ H') as [D [E1 [E2 [E3 E4]]]].
      exists (D ++ three_digits (n mod 1000)).
      split.
      { rewrite !strip_commas_app, E1.
        rewrite (strip_commas_digits (three_digits _)) by assumption.
        reflexivity. }
      split; [rewrite all_digits_app, E2, T2; reflexivity|].
      split; [destruct D; [contradiction | discriminate]|].
      intros x. rewrite dval_app, E4, three_digits_value by assumption.
      rewrite length_append, T1, Nat2N.inj_add, N.pow_add_r.
      change (10 ^ N.of_nat 3)%N with 1000%N.
      pose proof (N.div_mod n 1000 ltac:(lia)) as DM.
      remember (10 ^ N.of_nat (String.length D))%N as p. lia.
Qed.

Lemma digit_plain (c : ascii) :
  is_digit c = true ->
  is_space c = false /\ (code c =? 45)%N = false /\ (code c =? 43)%N = false.
Proof.
  unfold is_digit, is_space, in_range. intros H.
  apply andb_true_iff in H. destruct H as [A B].
  apply N.leb_le in A. apply N.leb_le in B.
  repeat split.
  - apply orb_false_iff. split.
    + apply andb_false_iff. right. apply N.leb_gt. lia.
    + apply N.eqb_neq. lia.
  - apply N.eqb_neq. lia.
  - apply N.eqb_neq. lia.
Qed.

(** [parseFloat] goes straight to the digits of a text that begins with
    an optional minus sign and a digit. *)
Lemma parseFloat_head (neg : bool) (D R : string) :
  all_digits D = true -> D <> "" ->
  take_sign (skip_spaces ((if neg then "-" else "") ++ D ++ R)) = (neg, D ++ R).
Proof.
  intros A B. destruct D as [|c D]; [contradiction|].
  simpl in A. apply andb_true_iff in A. destruct A as [A _].
  destruct (digit_plain _ A) as [S1 [S2 S3]].
  destruct neg; simpl.
  - reflexivity.
  - rewrite S1. simpl. now rewrite S2, S3.
Qed.

Lemma length_nonempty (D : string) : D <> "" -> String.length D <> 0.
Proof. destruct D; [contradiction | discriminate]. Qed.

Lemma parseFloat_integer (neg : bool) (D : string) :
  all_digits D = true -> D <> "" ->
  parseFloat ((if neg then "-" else "") ++ D)
  = Some (Qred (signed neg (Z.of_N (dval D 0)) # 1)).
Proof.
  intros A B. unfold parseFloat.
  rewrite <- (append_nil_r D) at 1.
  rewrite (parseFloat_head neg D "" A B).
  rewrite (take_digits_app D "" 0 0 A I).
  cbv beta iota.
  destruct (Nat.eqb_spec (0 + String.length D + 0) 0) as [E|E].
  - pose proof (length_nonempty D B). lia.
  - do 2 f_equal. change (pow10 0) with 1%positive.
    f_equal. f_equal. lia.
Qed.

Lemma parseFloat_decimal (neg : bool) (D F : string) :
  all_digits D = true -> D <> "" -> all_digits F = true ->
  parseFloat ((if neg then "-" else "") ++ D ++ String "." F)
  = Some (Qred (signed neg (Z.of_N (dval D 0) * Zpos (pow10 (String.length F))
                            + Z.of_N (dval F 0))
                # pow10 (String.length F))).
Proof.
  intros A B C. unfold parseFloat.
  rewrite (parseFloat_head neg D _ A B).
  rewrite (take_digits_app D (String "." F) 0 0 A eq_refl).
  cbv beta iota.
  change (code "." =? 46)%N with true. cbv iota.
  rewrite <- (append_nil_r F) at 1.
  rewrite (take_digits_app F "" 0 0 C I).
  cbv beta iota.
  destruct (Nat.eqb_spec (0 + String.length D + (0 + String.length F)) 0) as [E|E].
  - pose proof (length_nonempty D B). lia.
  - reflexivity.
Qed.

Lemma dval_zero (D : string) (n : N) :
  (forall x, dval D x = (x * 10 ^ N.of_nat (String.length D) + n)%N) ->
  dval D 0 = n.
Proof. intros H. rewrite H. lia. Qed.

Lemma strip_commas_sign (q : Q) (s : string) :
  strip_commas (sign_text q ++ s) = sign_text q ++ strip_commas s.
Proof. unfold sign_text. destruct (ltb q 0); reflexivity. Qed.

Lemma sign_text_flag (q : Q) : sign_text q = if ltb q 0 then "-" else "".
Proof. reflexivity. Qed.

Lemma signed_text_nonempty (q : Q) (D R : string) :
  D <> "" -> String.eqb (sign_text q ++ D ++ R) "" = false.
Proof.
  intros H. apply String.eqb_neq. unfold sign_text.
  destruct (ltb q 0); [discriminate|].
  destruct D; [contradiction | discriminate].
Qed.

Lemma stripped_nonempty (D0 D : string) :
  strip_commas D0 = D -> D <> "" -> D0 <> "".
Proof. intros E H ->. apply H. now rewrite <- E. Qed.

Lemma two_digits_value (f : N) :
  (f < 100)%N ->
  all_digits (two_digits f) = true /\ dval (two_digits f) 0 = f /\
  String.length (two_digits f) = 2.
Proof.
  intros H.
  assert (A : (f / 10 < 10)%N) by (apply N.Div0.div_lt_upper_bound; lia).
  assert (B : (f mod 10 < 10)%N) by (apply N.mod_lt; lia).
  unfold two_digits. simpl.
  rewrite !is_digit_digit_char, !digit_val_char by assumption.
  repeat split. pose proof (N.div_mod f 10 ltac:(lia)). lia.
Qed.

Lemma strip_commas_frac (F : string) :
  all_digits F = true -> strip_commas (String "." F) = String "." F.
Proof.
  intros H. change (strip_commas (String "." F)) with (String "." (strip_commas F)).
  now rewrite strip_commas_digits.
Qed.

(** Parsing what [formatNumber] wrote gives the number rounded to
    hundredths, with its sign. *)
Lemma format_parse (q : Q) :
  parseNumber (Some (formatNumber q))
  = Some (Qred (signed (ltb q 0) (Z.of_N (hundredths q)) # 100)).
Proof.
  set (h := hundredths q).
  pose proof (N.div_mod h 100 ltac:(lia)) as DM.
  assert (M : (h mod 100 < 100)%N) by (apply N.mod_lt; lia).
  destruct (two_digits_value _ M) as [T1 [T2 T3]].
  unfold parseNumber, formatNumber.
  destruct (leb (of_Z 1000) q).
  - unfold toLocaleString2. fold h.
    destruct (group_fuel_value _ _ (log2_fuel (h / 100))) as [D [E1 [E2 [E3 E4]]]].
    fold (group3 (h / 100)) in E1.
    pose proof (stripped_nonempty _ _ E1 E3) as E0.
    rewrite signed_text_nonempty by assumption.
    rewrite strip_commas_sign, strip_commas_app, E1, sign_text_flag.
    apply dval_zero in E4.
    destruct (N.eqb_spec (h mod 100) 0) as [Z0|Z0].
    + simpl strip_commas. rewrite append_nil_r.
      rewrite parseFloat_integer by assumption. rewrite E4.
      f_equal. apply Qred_complete.
      unfold Qeq. cbn [Qnum Qden].
      destruct (ltb q 0); cbn [signed]; lia.
    + assert (A : (h mod 100 / 10 < 10)%N)
        by (apply N.Div0.div_lt_upper_bound; lia).
      pose proof (N.div_mod (h mod 100) 10 ltac:(lia)) as DM'.
      destruct (N.eqb_spec (h mod 100 mod 10) 0) as [Z1|Z1].
      * assert (F1 : all_digits (String (digit_char (h mod 100 / 10)) "") = true)
          by (simpl; now rewrite is_digit_digit_char).
        rewrite strip_commas_frac by assumption.
        rewrite parseFloat_decimal by assumption.
        simpl String.length. simpl dval. rewrite digit_val_char by assumption.
        rewrite E4. change (pow10 1) with 10%positive.
        f_equal. apply Qred_complete. unfold Qeq. cbn [Qnum Qden].
        destruct (ltb q 0); cbn [signed]; lia.
      * rewrite strip_commas_frac by assumption.
        rewrite parseFloat_decimal by assumption.
        rewrite T2, T3, E4. change (pow10 2) with 100%positive.
        f_equal. apply Qred_complete. unfold Qeq. cbn [Qnum Qden].
        destruct (ltb q 0); cbn [signed]; lia.
  - unfold toFixed2. fold h.
    destruct (N_to_string_value (h / 100)) as [E2 [E3 E4]].
    rewrite signed_text_nonempty by assumption.
    rewrite strip_commas_sign, strip_commas_app, sign_text_flag.
    rewrite strip_commas_digits by assumption.
    change ("." ++ two_digits (h mod 100))
      with (String "." (two_digits (h mod 100))).
    rewrite strip_commas_frac by assumption.
    rewrite parseFloat_decimal by assumption.
    apply dval_zero in E4.
    rewrite T2, T3, E4. change (pow10 2) with 100%positive.
    f_equal. apply Qred_complete. unfold Qeq. cbn [Qnum Qden].
    destruct (ltb q 0); cbn [signed]; lia.
Qed.

Lemma ltb_zero_sign (a : Z) (b : positive) : ltb (a # b) 0 = (a <? 0)%Z.
Proof.
  unfold ltb, Qle_bool. cbn [Qnum Qden].
  rewrite Z.mul_1_r. change (0 * Z.pos b)%Z with 0%Z.
  destruct (Z.leb_spec 0 a), (Z.ltb_spec a 0); simpl; try reflexivity; lia.
Qed.

Lemma hundredths_spec (a : Z) (b : positive) :
  let h := Z.of_N (hundredths (a # b)) in
  (2 * Z.pos b * h <= 200 * Z.abs a + Z.pos b < 2 * Z.pos b * h + 2 * Z.pos b)%Z.
Proof.
  unfold hundredths. cbn [Qnum Qden].
  assert (P : (0 <= (200 * Z.abs a + Z.pos b) / (2 * Z.pos b))%Z)
    by (apply Z.div_pos; lia).
  rewrite Z2N.id by assumption.
  pose proof (Z.div_mod (200 * Z.abs a + Z.pos b) (2 * Z.pos b) ltac:(lia)) as DM.
  pose proof (Z.mod_pos_bound (200 * Z.abs a + Z.pos b) (2 * Z.pos b) ltac:(lia)) as MB.
  cbv zeta. lia.
Qed.

(** Rounding to hundredths gives back a number of hundredths. *)
Lemma hundredths_exact (q : Q) (z : Z) :
  q == z # 100 ->
  signed (ltb q 0) (Z.of_N (hundredths q)) # 100 == q.
Proof.
  intros H. destruct q as [a b]. rewrite ltb_zero_sign.
  pose proof (hundredths_spec a b) as S. cbv zeta in S.
  remember (Z.of_N (hundredths (a # b))) as h.
  unfold Qeq in *. cbn [Qnum Qden] in *.
  assert (B : (0 < Z.pos b)%Z) by lia.
  remember (Z.pos b) as d. clear Heqd Heqh.
  destruct (Z.ltb_spec a 0) as [L|L]; cbn [signed].
  - replace (Z.abs a) with (- a)%Z in S by lia.
    assert (E : (h = - z)%Z).
    { assert (- z < h + 1)%Z by nia. assert (h < - z + 1)%Z by nia. lia. }
    subst h. lia.
  - replace (Z.abs a) with a in S by lia.
    assert (E : h = z).
    { assert (z < h + 1)%Z by nia. assert (h < z + 1)%Z by nia. lia. }
    subst h. lia.
Qed.

(** X11.  An amount with at most two decimals survives the trip through the
    display: parseNumber reads back from formatNumber's text exactly the
    number that was formatted, thousands separators and sign included. *)
Theorem X11_format_parse_round_trip (q : Q) (z : Z) :
  q == z # 100 ->
  parseNumber (Some (formatNumber q)) = Some (Qred q).
Proof.
  intros H. rewrite format_parse. f_equal. apply Qred_complete.
  eapply hundredths_exact. exact H.
Qed.

Lemma X11_witness :
  (12345 # 10) == 123450 # 100 /\
  formatNumber (12345 # 10) = "1,234.5" /\
  parseNumber (Some "1,234.5") = Some (2469 # 2).
Proof.
  split; [reflexivity|]. split; [vm_compute; reflexivity|].
  exact (X11_format_parse_round_trip (12345 # 10) 123450 eq_refl).
Defined.

(** X13.  parseNumber ignores a comma wherever it stands: a text with a
    comma inserted parses as the text without it. *)
Theorem X13_parseNumber_ignores_commas (a b : string) :
  parseNumber (Some (a ++ "," ++ b)) = parseNumber (Some (a ++ b)).
Proof.
  unfold parseNumber.
  assert (N : String.eqb (a ++ "," ++ b) "" = false).
  { apply String.eqb_neq. destruct a; discriminate. }
  rewrite N, !strip_commas_app. change (strip_commas ",") with "".
  change ("" ++ strip_commas b) with (strip_commas b).
  destruct (String.eqb_spec (a ++ b) "") as [E|E]; [|reflexivity].
  destruct a; [|discriminate]. simpl in E. subst b. reflexivity.
Qed.

(** * Saved notes *)

(** ** The clipboard text of a saved note *)

Lemma append_if_ex (c : value) (line : outcome string) (copy : string) :
  (truthy c = true -> exists l, line = Ret l) ->
  exists seg, SavedNotes.append_if c line copy = Ret (copy ++ seg) /\
              forall l, truthy c = true -> line = Ret l -> seg = l.
Proof.
  unfold SavedNotes.append_if. intros H. destruct (truthy c).
  - destruct (H eq_refl) as [l ->]. exists l. split; [reflexivity|].
    intros l' _ E. now injection E.
  - exists "". split; [now rewrite append_nil_r|]. intros l E. discriminate E.
Qed.

Lemma record_action_text (s : string) (r : object) :
  extract s = Ret (Some r) ->
  truthy (obj_get "action" r) = true -> exists a, obj_get "action" r = VStr a.
Proof.
  intros H T.
  destruct (record_field_ok s r "action" H ltac:(in_fields)) as [U|[_ F]];
    [rewrite U in T; discriminate|].
  destruct F as [F|[F|F]]; rewrite F in *; [discriminate| |]; eauto.
Qed.

Ltac clip_step N :=
  match goal with
  | |- context [SavedNotes.append_if (obj_get ?k ?o) ?line ?copy] =>
      let seg := fresh "seg" in
      let E := fresh "E" in
      let S := fresh "S" in
      let T := fresh "T" in
      destruct (append_if_ex (obj_get k o) line copy) as [seg [E S]];
      [ intros T;
        try (destruct (N k ltac:(simpl; tauto) T) as [? ->]);
        cbn [format_field bind]; eexists; reflexivity
      | rewrite E; cbn [bind] ]
  end.

(** X14.  The clipboard text of a note whose trade is an extracted record:
    [formatNoteForClipboard] returns (no field makes it throw); the text is
    the transcript, the Trade Info header and a body; the body has the
    action in capitals, and every money field that is set and not zero on
    its own line, written by [formatNumber]. *)
Theorem X14_clipboard_of_record (s : string) (r : object) (n : SavedNotes.note) :
  extract s = Ret (Some r) -> SavedNotes.trade n = Some r ->
  exists body,
    SavedNotes.formatNoteForClipboard (Some n)
    = Ret (SavedNotes.text n ++ SavedNotes.nl ++ SavedNotes.nl
           ++ "--- Trade Info ---" ++ SavedNotes.nl ++ body) /\
    (forall a, obj_get "action" r = VStr a ->
       contains body ("Action: " ++ toUpperCase a ++ SavedNotes.nl)) /\
    (forall q, obj_get "positionSize" r = VNum q -> ~ Qeq q 0 ->
       contains body ("Position Size: $" ++ formatNumber q ++ SavedNotes.nl)) /\
    (forall q, obj_get "price" r = VNum q -> ~ Qeq q 0 ->
       contains body ("Price: $" ++ formatNumber q ++ SavedNotes.nl)) /\
    (forall q, obj_get "stopLoss" r = VNum q -> ~ Qeq q 0 ->
       contains body ("Stop Loss: $" ++ formatNumber q ++ SavedNotes.nl)) /\
    (forall q, obj_get "takeProfit" r = VNum q -> ~ Qeq q 0 ->
       contains body ("Take Profit: $" ++ formatNumber q ++ SavedNotes.nl)).
Proof.
  intros H T.
  destruct (record_summarizable _ _ H) as [N _].
  pose proof (record_action_text _ _ H) as A.
  unfold SavedNotes.formatNoteForClipboard. rewrite T.
  assert (X : (if String.eqb (SavedNotes.text n) "" then ""
               else SavedNotes.text n) = SavedNotes.text n).
  { destruct (String.eqb_spec (SavedNotes.text n) "") as [->|_]; reflexivity. }
  rewrite X. clear X. cbv zeta.
  remember (SavedNotes.text n ++ SavedNotes.nl ++ SavedNotes.nl
            ++ "--- Trade Info ---" ++ SavedNotes.nl) as head eqn:Hh.
  destruct (append_if_ex (obj_get "ticker" r)
              (Ret ("Ticker: " ++ to_string (obj_get "ticker" r) ++ SavedNotes.nl))
              head) as [s1 [E1 _]]; [eauto|].
  rewrite E1. cbn [bind].
  destruct (append_if_ex (obj_get "action" r)
              (u <- SavedNotes.field_toUpperCase (obj_get "action" r) ;;
               Ret ("Action: " ++ u ++ SavedNotes.nl))
              (head ++ s1)) as [s2 [E2 S2]].
  { intros Ta. destruct (A Ta) as [a ->]. eexists. reflexivity. }
  rewrite E2. cbn [bind].
  clip_step N. rename seg into s3, S into S3.
  clip_step N. rename seg into s4, S into S4.
  clip_step N. rename seg into s5, S into S5.
  clip_step N. rename seg into s6, S into S6.
  clip_step N. rename seg into s7, S into S7.
  exists (s1 ++ s2 ++ s3 ++ s4 ++ s5 ++ s6 ++ s7).
  split.
  { rewrite Hh, !append_assoc. reflexivity. }
  split; [|split; [|split; [|split]]].
  - intros a Ea. apply contains_app_r, contains_app_l.
    assert (Ta : truthy (VStr a) = true).
    { destruct (record_field_ok s r "action" H ltac:(in_fields)) as [U|[_ F]];
        [congruence|].
      rewrite Ea in F.
      destruct F as [F|[F|F]]; [discriminate| |]; injection F as ->; reflexivity. }
    rewrite Ea in S2. rewrite (S2 _ Ta eq_refl). apply contains_refl.
  - intros q Eq Nz. do 2 apply contains_app_r. apply contains_app_l.
    rewrite Eq in S3. rewrite (S3 _ (truthy_num _ Nz) eq_refl). apply contains_refl.
  - intros q Eq Nz. do 4 apply contains_app_r. apply contains_app_l.
    rewrite Eq in S5. rewrite (S5 _ (truthy_num _ Nz) eq_refl). apply contains_refl.
  - intros q Eq Nz. do 5 apply contains_app_r. apply contains_app_l.
    rewrite Eq in S6. rewrite (S6 _ (truthy_num _ Nz) eq_refl). apply contains_refl.
  - intros q Eq Nz. do 6 apply contains_app_r.
    rewrite Eq in S7. rewrite (S7 _ (truthy_num _ Nz) eq_refl). apply contains_refl.
Qed.

Lemma X14_witness :
  exists body,
    SavedNotes.formatNoteForClipboard
      (Some (SavedNotes.createNote "Sell TSLA at $250 stop loss at $260"
               (Some [("ticker", VStr "TSLA"); ("action", VStr "sell");
                      ("price", n_ 250); ("stopLoss", n_ 260);
                      ("tradeType", VStr "short")])
               None 0))
    = Ret ("Sell TSLA at $250 stop loss at $260" ++ SavedNotes.nl ++ SavedNotes.nl
           ++ "--- Trade Info ---" ++ SavedNotes.nl ++ body) /\
    contains body ("Stop Loss: $260.00" ++ SavedNotes.nl).
Proof.
  destruct (X14_clipboard_of_record
              "Sell TSLA at $250 stop loss at $260"
              [("ticker", VStr "TSLA"); ("action", VStr "sell");
               ("price", n_ 250); ("stopLoss", n_ 260);
               ("tradeType", VStr "short")]
              (SavedNotes.createNote "Sell TSLA at $250 stop loss at $260"
                 (Some [("ticker", VStr "TSLA"); ("action", VStr "sell");
                        ("price", n_ 250); ("stopLoss", n_ 260);
                        ("tradeType", VStr "short")])
                 None 0)
              ltac:(vm_compute; reflexivity) eq_refl)
    as [body [E [_ [_ [_ [SL _]]]]]].
  exists body. split; [exact E|].
  apply (SL (of_Z 260) eq_refl). discriminate.
Defined.

(** ** Searching the saved notes *)

Lemma record_search_field (s : string) (r : object) (k : string) :
  extract s = Ret (Some r) -> In k ["ticker"; "action"; "timeframe"] ->
  obj_get k r = VUndefined \/ exists t, obj_get k r = VStr t.
Proof.
  intros H Hk.
  assert (Hin : In k all_fields) by (simpl in Hk; unfold all_fields; simpl; tauto).
  destruct (record_field_ok s r k H Hin) as [U|[Nn F]]; [now left|]. right.
  simpl in Hk. destruct Hk as [<-|[<-|[<-|[]]]].
  - destruct F as [F|[t [F _]]]; [contradiction | eauto].
  - destruct F as [F|[F|F]]; [contradiction | eauto..].
  - destruct F as [F|[v [c [_ F]]]]; [contradiction | eauto].
Qed.

Lemma matches_returns (searchTerm : string) (n : SavedNotes.note) :
  extracted_note n -> exists b, SavedNotes.matches searchTerm n = Ret b.
Proof.
  intros E. unfold SavedNotes.matches.
  destruct (includes (toLowerCase (SavedNotes.text n)) searchTerm); [eauto|].
  destruct E as [->|[s [r [H ->]]]]; [eauto|]. cbv zeta.
  destruct (record_search_field s r "ticker" H ltac:(simpl; tauto)) as [E1|[t1 E1]];
    destruct (record_search_field s r "action" H ltac:(simpl; tauto)) as [E2|[t2 E2]];
    destruct (record_search_field s r "timeframe" H ltac:(simpl; tauto)) as [E3|[t3 E3]];
    rewrite E1, E2, E3;
    cbn [SavedNotes.some SavedNotes.field_includes bind];
    repeat match goal with
           | |- context [if includes ?a ?b then _ else _] =>
               destruct (includes a b); cbn [bind]
           end;
    try (eexists; reflexivity);
    destruct (obj_get "indicators" r); eexists; reflexivity.
Qed.

Lemma subseq_refl {A : Type} (l : list A) : subseq l l.
Proof. induction l; now constructor. Qed.

Lemma filter_by_returns {A : Type} (f : A -> outcome bool) (l : list A) :
  Forall (fun x => exists b, f x = Ret b) l ->
  exists found, SavedNotes.filter_by f l = Ret found /\ subseq found l.
Proof.
  induction 1 as [|x l [b Hb] _ [found [IH1 IH2]]]; simpl.
  - exists []. split; [reflexivity | constructor].
  - rewrite Hb, IH1. cbn [bind]. eexists. split; [reflexivity|].
    destruct b; now constructor.
Qed.

(** X15.  Searching notes whose trades came from the extractor never
    throws: [filterNotes] returns, what it returns is a sub-list of the
    notes in their order, and a missing or blank query returns all of them. *)
Theorem X15_filterNotes_returns (notes : list SavedNotes.note)
    (query : option string) :
  Forall extracted_note notes ->
  exists found,
    SavedNotes.filterNotes notes query = Ret found /\
    subseq found notes /\
    (query = None -> found = notes) /\
    (forall q, query = Some q -> SavedNotes.trim q = "" -> found = notes).
Proof.
  intros F. unfold SavedNotes.filterNotes.
  destruct query as [q|].
  - destruct (String.eqb q "" || String.eqb (SavedNotes.trim q) "") eqn:B.
    + exists notes. repeat split; auto using subseq_refl.
    + apply orb_false_iff in B. destruct B as [_ B].
      apply String.eqb_neq in B.
      destruct (filter_by_returns
                  (SavedNotes.matches (SavedNotes.trim (toLowerCase q))) notes)
        as [found [E S]].
      { eapply Forall_impl; [|exact F]. intros n. apply matches_returns. }
      exists found. repeat split; try assumption; [discriminate|].
      intros q' Eq T. injection Eq as <-. contradiction.
  - exists notes. repeat split; auto using subseq_refl.
Qed.

Lemma X15_witness :
  exists found,
    SavedNotes.filterNotes
      [SavedNotes.createNote "Sell TSLA at $250" (Some [("ticker", VStr "TSLA");
         ("action", VStr "sell"); ("price", n_ 250); ("tradeType", VStr "short")])
         None 2;
       SavedNotes.createNote "call the broker" None None 1]
      (Some " tsla ")
    = Ret found /\
    found = [SavedNotes.createNote "Sell TSLA at $250" (Some [("ticker", VStr "TSLA");
         ("action", VStr "sell"); ("price", n_ 250); ("tradeType", VStr "short")])
         None 2].
Proof.
  destruct (X15_filterNotes_returns
              [SavedNotes.createNote "Sell TSLA at $250" (Some [("ticker", VStr "TSLA");
                 ("action", VStr "sell"); ("price", n_ 250); ("tradeType", VStr "short")])
                 None 2;
               SavedNotes.createNote "call the broker" None None 1]
              (Some " tsla "))
    as [found [E _]].
  - constructor; [|constructor; [|constructor]].
    + right. exists "Sell TSLA at $250".
      eexists. split; [vm_compute; reflexivity | reflexivity].
    + left. reflexivity.
  - exists found. split; [exact E|].
    vm_compute in E. injection E as <-. reflexivity.
Defined.

Lemma lower_upper_char (c : ascii) : lower_char (upper_char c) = lower_char c.
Proof. destruct c as [[] [] [] [] [] [] [] []]; reflexivity. Qed.

Lemma lower_lower_char (c : ascii) : lower_char (lower_char c) = lower_char c.
Proof. destruct c as [[] [] [] [] [] [] [] []]; reflexivity. Qed.

Lemma space_upper_char (c : ascii) : is_space (upper_char c) = is_space c.
Proof. destruct c as [[] [] [] [] [] [] [] []]; reflexivity. Qed.

Lemma space_lower_char (c : ascii) : is_space (lower_char c) = is_space c.
Proof. destruct c as [[] [] [] [] [] [] [] []]; reflexivity. Qed.

Lemma map_chars_compose (f g h : ascii -> ascii) (s : string) :
  (forall c, f (g c) = h c) -> map_chars f (map_chars g s) = map_chars h s.
Proof. intros H. induction s as [|c s IH]; simpl; [reflexivity | now rewrite H, IH]. Qed.

Section CaseAndBlanks.

Variable f : ascii -> ascii.
Hypothesis f_space : forall c, is_space (f c) = is_space c.

Lemma skip_spaces_map (s : string) :
  skip_spaces (map_chars f s) = map_chars f (skip_spaces s).
Proof.
  induction s as [|c s IH]; simpl; [reflexivity|].
  rewrite f_space. destruct (is_space c); [exact IH | reflexivity].
Qed.

Lemma trimEnd_map (s : string) :
  SavedNotes.trimEnd (map_chars f s) = map_chars f (SavedNotes.trimEnd s).
Proof.
  induction s as [|c s IH]; simpl; [reflexivity|].
  rewrite IH, f_space.
  destruct (SavedNotes.trimEnd s); simpl; [destruct (is_space c)|]; reflexivity.
Qed.

Lemma trim_map (s : string) :
  SavedNotes.trim (map_chars f s) = map_chars f (SavedNotes.trim s).
Proof. unfold SavedNotes.trim. now rewrite skip_spaces_map, trimEnd_map. Qed.

Lemma map_chars_empty (s : string) :
  String.eqb (map_chars f s) "" = String.eqb s "".
Proof. destruct s; reflexivity. Qed.

End CaseAndBlanks.

(** X16.  The search is case-insensitive in the query: writing the query
    in capitals or in small letters gives the same result, whatever the
    notes are. *)
Theorem X16_search_ignores_query_case (notes : list SavedNotes.note) (q : string) :
  SavedNotes.filterNotes notes (Some (toUpperCase q))
  = SavedNotes.filterNotes notes (Some q) /\
  SavedNotes.filterNotes notes (Some (toLowerCase q))
  = SavedNotes.filterNotes notes (Some q).
Proof.
  unfold SavedNotes.filterNotes, toUpperCase, toLowerCase. split.
  - rewrite (trim_map _ space_upper_char), !map_chars_empty.
    rewrite (map_chars_compose _ _ _ q lower_upper_char). reflexivity.
  - rewrite !(trim_map _ space_lower_char), !map_chars_empty.
    rewrite (map_chars_compose _ _ _ _ lower_lower_char). reflexivity.
Qed.

(** ** The note limit *)

Lemma splice1_length (index : Z) (notes : list SavedNotes.note) :
  length (SavedNotes.splice1 index notes) <= length notes.
Proof.
  unfold SavedNotes.splice1. cbv zeta.
  rewrite length_app, length_firstn, length_skipn. lia.
Qed.

Lemma handle_limit (notes : list SavedNotes.note) (e : SavedNotes.event) :
  length notes <= SavedNotes.MAX_SAVED_NOTES ->
  length (SavedNotes.handle notes e) <= SavedNotes.MAX_SAVED_NOTES.
Proof.
  intros H. destruct e as [text trade audio now|index|confirmed]; simpl.
  - unfold SavedNotes.saveCurrentNote, SavedNotes.canSaveNote.
    destruct (String.eqb text ""); [assumption|].
    destruct (Nat.leb_spec SavedNotes.MAX_SAVED_NOTES (length notes)); simpl;
      [assumption | lia].
  - unfold SavedNotes.deleteSavedNote.
    pose proof (splice1_length index notes). lia.
  - unfold SavedNotes.clearAllNotes. destruct confirmed; [simpl; lia | assumption].
Qed.

(** X17.  The note list never grows past [MAX_SAVED_NOTES]: whatever
    sequence of save, delete and clear clicks is handled, a list of at most
    ten notes stays a list of at most ten notes. *)
Theorem X17_note_limit (events : list SavedNotes.event)
    (notes : list SavedNotes.note) :
  length notes <= SavedNotes.MAX_SAVED_NOTES ->
  length (fold_left SavedNotes.handle events notes) <= SavedNotes.MAX_SAVED_NOTES.
Proof.
  revert notes. induction events as [|e events IH]; intros notes H; simpl.
  - exact H.
  - apply IH, handle_limit, H.
Qed.

Lemma X17_witness :
  length (fold_left SavedNotes.handle
            (repeat (SavedNotes.SaveClick "Buy AAPL" None None 0) 12
             ++ [SavedNotes.DeleteClick (-1)])%list
            [])
  <= SavedNotes.MAX_SAVED_NOTES.
Proof.
  apply X17_note_limit. simpl. unfold SavedNotes.MAX_SAVED_NOTES. lia.
Defined.

(** * What the number patterns capture *)

(** ** The matcher consumes a text of the pattern's language *)

Lemma step_lang A ok s (k : mstate -> option A) x :
  step ok s k = Some x ->
  exists c s1, k s1 = Some x /\ ok c = true /\
               rest s = String c (rest s1) /\ pos s1 = S (pos s) /\
               caps s1 = caps s.
Proof.
  unfold step. destruct (rest s) as [|c r]; [discriminate|].
  destruct (ok c) eqn:E; [|discriminate]. intros H.
  exists c. eexists. split; [exact H|]. simpl. auto.
Qed.

Lemma lit_lang A l : forall s (k : mstate -> option A) x,
  lit l s k = Some x ->
  exists w s1, k s1 = Some x /\ toUpperCase w = toUpperCase l /\
               rest s = w ++ rest s1 /\ pos s1 = pos s + String.length w.
Proof.
  induction l as [|p l IH]; intros s k x H; simpl in H.
  - exists "", s. simpl. auto.
  - apply step_lang in H. destruct H as [c [s1 [H [C [R [P _]]]]]].
    apply IH in H. destruct H as [w [s2 [H [U [R2 P2]]]]].
    exists (String c w), s2. split; [assumption|].
    unfold ci_eq in C. apply Ascii.eqb_eq in C.
    unfold toUpperCase in *. simpl. rewrite U, C, R, R2, P2, P.
    repeat split. lia.
Qed.

Lemma rep_lang A ok r : forall lo hi p i cs (k : mstate -> option A) x,
  rep ok lo hi p r i cs k = Some x ->
  exists w s1, k s1 = Some x /\ r = w ++ rest s1 /\
               pos s1 = i + String.length w /\ caps s1 = cs /\
               every ok w = true /\ lo <= String.length w /\
               forall h, hi = Some h -> String.length w <= h.
Proof.
  assert (Stop : forall lo hi p r i cs (k : mstate -> option A) x,
             match lo with O => k (MState p r i cs) | S _ => None end = Some x ->
             exists w s1, k s1 = Some x /\ r = w ++ rest s1 /\
                          pos s1 = i + String.length w /\ caps s1 = cs /\
                          every ok w = true /\ lo <= String.length w /\
                          forall h, hi = Some h -> String.length w <= h).
  { intros lo hi p r0 i cs k x H. destruct lo; [|discriminate].
    exists "". eexists. split; [exact H|]. simpl.
    repeat split; lia. }
  induction r as [|c r IH]; intros lo hi p i cs k x; simpl.
  - apply Stop.
  - destruct (ok c) eqn:C; simpl; [|apply Stop].
    destruct (match hi with Some 0 => true | _ => false end) eqn:Z; simpl;
      [apply Stop|].
    destruct (rep ok (Nat.pred lo) (option_map Nat.pred hi) (Some c) r (S i) cs k)
      eqn:E; [|apply Stop].
    intros H. injection H as ->.
    apply IH in E. destruct E as [w [s1 [H [R [P [Cp [Ev [Lo Hi]]]]]]]].
    exists (String c w), s1. split; [assumption|]. simpl. rewrite C, Ev, R, P, Cp.
    repeat split; try lia.
    intros h Hh. subst hi. destruct h; [discriminate|].
    specialize (Hi h eq_refl). lia.
Qed.

Lemma m_sound r : forall A s (k : mstate -> option A) x,
  m A r s k = Some x ->
  exists w s1, k s1 = Some x /\ lang r w /\
               rest s = w ++ rest s1 /\ pos s1 = pos s + String.length w.
Proof.
  induction r as [|l|cs| |r1 IHr1 r2 IHr2|r1 IHr1 r2 IHr2|r IHr|cs lo hi|g r IHr| |r IHr];
    intros A s k x H; simpl in H.
  - exists "", s. simpl. auto.
  - apply lit_lang in H. destruct H as [w [s1 [H [U [R P]]]]].
    exists w, s1. simpl. auto.
  - apply step_lang in H. destruct H as [c [s1 [H [C [R [P _]]]]]].
    exists (String c ""), s1. simpl. rewrite R, P. repeat split; eauto; lia.
  - apply step_lang in H. destruct H as [c [s1 [H [C [R [P _]]]]]].
    exists (String c ""), s1. simpl. rewrite R, P. repeat split; eauto; lia.
  - apply IHr1 in H. destruct H as [w1 [s1 [H [L1 [R1 P1]]]]].
    apply IHr2 in H. destruct H as [w2 [s2 [H [L2 [R2 P2]]]]].
    exists (w1 ++ w2), s2. split; [assumption|]. split; [simpl; eauto|].
    rewrite R1, R2, P2, P1, append_assoc, length_append. split; [reflexivity | lia].
  - destruct (m A r1 s k) eqn:E.
    + injection H as ->. apply IHr1 in E. destruct E as [w [s1 [H [L [R P]]]]].
      exists w, s1. simpl. auto.
    + apply IHr2 in H. destruct H as [w [s1 [H [L [R P]]]]].
      exists w, s1. simpl. auto.
  - match type of H with
    | match ?c with _ => _ end = _ => destruct c eqn:E
    end.
    + injection H as ->. apply IHr in E. destruct E as [w [s1 [H [L [R P]]]]].
      destruct (Nat.eqb (pos s1) (pos s)); [discriminate|].
      exists w, s1. simpl. auto.
    + exists "", s. simpl. auto.
  - apply rep_lang in H. destruct H as [w [s1 [H [R [P [_ [Ev [Lo Hi]]]]]]]].
    exists w, s1. simpl. auto.
  - apply IHr in H. destruct H as [w [s1 [H [L [R P]]]]].
    eexists w, _. split; [exact H|]. simpl. auto.
  - destruct (at_boundary s); [|discriminate]. exists "", s. simpl. auto.
  - destruct (m unit r s (fun _ => Some tt)); [discriminate|].
    exists "", s. simpl. auto.
Qed.

Lemma substring_prefix (w t : string) :
  String.substring 0 (String.length w) (w ++ t) = w.
Proof.
  induction w as [|c w IH]; simpl.
  - now destruct t.
  - now rewrite IH.
Qed.

Lemma cap_get_set_same n v cs : cap_get n (cap_set n v cs) = Some v.
Proof. unfold cap_get, cap_set. simpl. now rewrite Nat.eqb_refl. Qed.

Lemma cap_get_set_other n g v cs :
  g <> n -> cap_get n (cap_set g v cs) = cap_get n cs.
Proof.
  intros H. unfold cap_get, cap_set. simpl.
  destruct (Nat.eqb_spec g n); [contradiction | reflexivity].
Qed.

Section Captures.

Variable n : nat.
Variable Q : string -> Prop.

Let capinv (cs : list (nat * string)) : Prop :=
  forall w, cap_get n cs = Some w -> Q w.

Lemma m_captures r : forall A s (k : mstate -> option A) x,
  captures n Q r -> m A r s k = Some x -> capinv (caps s) ->
  exists s', k s' = Some x /\ capinv (caps s').
Proof.
  unfold captures.
  induction r as [|l|cs| |r1 IHr1 r2 IHr2|r1 IHr1 r2 IHr2|r IHr|cs lo hi|g r IHr| |r IHr];
    intros A s k x G H I; simpl in H, G.
  - now exists s.
  - apply lit_inv in H. destruct H as [s' [H E]]. exists s'. now rewrite E.
  - apply step_inv in H. destruct H as [s' [H E]]. exists s'. now rewrite E.
  - apply step_inv in H. destruct H as [s' [H E]]. exists s'. now rewrite E.
  - apply IHr1 in H; [|intros b Hb; apply G, in_or_app; now left | assumption].
    destruct H as [s1 [H I1]].
    apply IHr2 in H; [|intros b Hb; apply G, in_or_app; now right | assumption].
    exact H.
  - destruct (m A r1 s k) eqn:E.
    + injection H as ->.
      apply IHr1 in E; [|intros b Hb; apply G, in_or_app; now left | assumption].
      exact E.
    + apply IHr2 in H; [|intros b Hb; apply G, in_or_app; now right | assumption].
      exact H.
  - match type of H with
    | match ?c with _ => _ end = _ => destruct c eqn:E
    end.
    + injection H as ->. apply IHr in E; [|assumption..].
      destruct E as [s' [E I']].
      destruct (Nat.eqb (pos s') (pos s)); [discriminate|]. now exists s'.
    + now exists s.
  - apply rep_inv in H. destruct H as [s' [H E]]. exists s'. now rewrite E.
  - destruct (Nat.eqb_spec g n) as [->|Ng].
    + apply m_sound in H. destruct H as [w [s1 [H [L [R P]]]]].
      eexists. split; [exact H|]. simpl. intros v Hv.
      rewrite cap_get_set_same in Hv. injection Hv as <-.
      rewrite R. replace (pos s1 - pos s) with (String.length w) by lia.
      rewrite substring_prefix. apply (G r); [now left | assumption].
    + apply IHr in H; [|assumption..].
      destruct H as [s1 [H I1]]. eexists. split; [exact H|]. simpl.
      intros v Hv. rewrite cap_get_set_other in Hv by assumption. now apply I1.
  - destruct (at_boundary s); [now exists s | discriminate].
  - destruct (m unit r s (fun _ => Some tt)); [discriminate | now exists s].
Qed.

Lemma exec_captures r text mt w :
  captures n Q r -> Regex.exec r text = Some mt -> group mt n = Some w -> Q w.
Proof.
  intros G H. revert w. unfold Regex.exec in H.
  refine (search_from_inv (fun mt => forall w, group mt n = Some w -> Q w)
            r _ _ _ _ _ H).
  intros p t i mt' E. unfold exec_at in E.
  apply (m_captures r _ _ _ _ G) in E; [|intros v Hv; discriminate Hv].
  destruct E as [s' [E I]]. injection E as <-. exact I.
Qed.

End Captures.

(** ** The amount and count groups *)

Lemma every_impl (f g : ascii -> bool) (w : string) :
  (forall c, f c = true -> g c = true) -> every f w = true -> every g w = true.
Proof.
  intros H. induction w as [|c w IH]; simpl; [reflexivity|].
  intros E. apply andb_true_iff in E. destruct E as [E1 E2].
  now rewrite (H _ E1), IH.
Qed.

Lemma every_digits (w : string) : every is_digit w = all_digits w.
Proof. induction w as [|c w IH]; simpl; [reflexivity | now rewrite IH]. Qed.

Lemma class_digit_or_comma (c : ascii) :
  cls_ok [CDigit; CChar ","] c = true -> digit_or_comma c = true.
Proof.
  unfold cls_ok, digit_or_comma. simpl. rewrite orb_false_r.
  destruct (is_digit c); [reflexivity|]. simpl. unfold ci_eq.
  destruct c as [[] [] [] [] [] [] [] []]; intros H; try discriminate H; reflexivity.
Qed.

Lemma class_digit (c : ascii) : cls_ok [CDigit] c = true -> is_digit c = true.
Proof. unfold cls_ok. simpl. now rewrite orb_false_r. Qed.

Lemma point_only (w : string) : toUpperCase w = toUpperCase "." -> w = ".".
Proof.
  destruct w as [|c [|c' w]]; simpl; intros H; try discriminate H.
  injection H as H. f_equal.
  destruct c as [[] [] [] [] [] [] [] []]; try discriminate H; reflexivity.
Qed.

Lemma lang_count (w : string) : lang (plus [CDigit; CChar ","]) w -> is_count w.
Proof.
  intros [E _]. unfold is_count.
  eapply every_impl; [apply class_digit_or_comma | exact E].
Qed.

Lemma lang_amount (w : string) :
  lang (Seq (plus [CDigit; CChar ","])
            (Opt (Seq (Lit ".") (Rep [CDigit] 1 (Some 2))))) w ->
  is_amount w.
Proof.
  intros [a [f [-> [La Lf]]]]. exists a, f. split; [reflexivity|].
  split; [now apply lang_count|].
  destruct Lf as [->|[p [d [-> [Lp [Ed [Lo Hi]]]]]]]; [now left|]. right.
  apply point_only in Lp. subst p. exists d. split; [reflexivity|].
  split.
  - rewrite <- every_digits. eapply every_impl; [apply class_digit | exact Ed].
  - specialize (Hi 2 eq_refl). lia.
Qed.

Lemma strip_commas_count (a : string) :
  every digit_or_comma a = true -> all_digits (strip_commas a) = true.
Proof.
  induction a as [|c a IH]; simpl; [reflexivity|].
  intros E. apply andb_true_iff in E. destruct E as [E1 E2].
  unfold digit_or_comma in E1.
  destruct (code c =? 44)%N; [now apply IH|].
  rewrite orb_false_r in E1. simpl. now rewrite E1, IH.
Qed.

Lemma parseFloat_point (D F : string) :
  all_digits D = true -> all_digits F = true -> F <> "" ->
  parseFloat (D ++ String "." F)
  = Some (Qred ((Z.of_N (dval D 0) * Zpos (pow10 (String.length F))
                 + Z.of_N (dval F 0))
                # pow10 (String.length F))).
Proof.
  intros A C N.
  destruct D as [|c D].
  - unfold parseFloat.
    change (take_sign (skip_spaces ("" ++ String "." F)))
      with (false, String "." F).
    assert (T : take_digits (String "." F) 0 0 = (0%N, 0, String "." F))
      by reflexivity.
    cbv beta iota. rewrite T. clear T.
    cbv beta iota. change (code "." =? 46)%N with true. cbv iota.
    rewrite <- (append_nil_r F) at 1.
    rewrite (take_digits_app F "" 0 0 C I). cbv beta iota.
    destruct (Nat.eqb_spec (0 + (0 + String.length F)) 0) as [E|E].
    + pose proof (length_nonempty F N). lia.
    + reflexivity.
  - apply (parseFloat_decimal false (String c D) F); [assumption | discriminate | assumption].
Qed.

Lemma parseFloat_digits (D : string) :
  all_digits D = true -> D <> "" ->
  parseFloat D = Some (Qred (Z.of_N (dval D 0) # 1)).
Proof. intros A N. exact (parseFloat_integer false D A N). Qed.

Lemma Some_inj {A : Type} (a b : A) : Some a = Some b -> a = b.
Proof. congruence. Qed.

Lemma parseNumber_amount (w : string) (q : Q) :
  is_amount w -> parseNumber (Some w) = Some q -> cents q.
Proof.
  intros [a [f [-> [Ea Ef]]]]. unfold parseNumber.
  destruct (String.eqb (a ++ f) ""); [discriminate|].
  rewrite strip_commas_app.
  pose proof (strip_commas_count a Ea) as Da.
  remember (strip_commas a) as D eqn:HD. clear HD Ea a.
  destruct Ef as [->|[d [-> [Ed Ld]]]].
  - simpl strip_commas. rewrite append_nil_r.
    destruct D as [|c D]; [discriminate|].
    rewrite (parseFloat_digits (String c D)) by (assumption || discriminate).
    intros H. apply Some_inj in H. subst q.
    exists (100 * Z.of_N (dval (String c D) 0))%Z. split; [lia|].
    apply Qred_complete. unfold Qeq. cbn [Qnum Qden]. lia.
  - rewrite strip_commas_frac by assumption.
    rewrite parseFloat_point; [|assumption|assumption|destruct d; [simpl in Ld; lia | discriminate]].
    intros H. apply Some_inj in H. subst q.
    destruct (String.length d) as [|[|[|n]]]; try lia.
    + change (pow10 1) with 10%positive.
      exists ((Z.of_N (dval D 0) * 10 + Z.of_N (dval d 0)) * 10)%Z.
      split; [lia|]. apply Qred_complete. unfold Qeq. cbn [Qnum Qden]. lia.
    + change (pow10 2) with 100%positive.
      exists (Z.of_N (dval D 0) * 100 + Z.of_N (dval d 0))%Z.
      split; [lia | reflexivity].
Qed.

Lemma Qred_whole (z : Z) : Qred (z # 1) = inject_Z z.
Proof.
  unfold Qred, inject_Z.
  pose proof (Z.ggcd_gcd z 1) as G.
  pose proof (Z.ggcd_correct_divisors z 1) as C.
  destruct (Z.ggcd z 1) as [g [a b]]. simpl in *.
  rewrite Z.gcd_1_r in G. subst g. destruct C as [C1 C2].
  replace a with z by lia. replace b with 1%Z by lia. reflexivity.
Qed.

Lemma parseNumber_count (w : string) (q : Q) :
  is_count w -> parseNumber (Some w) = Some q -> whole q.
Proof.
  unfold is_count, parseNumber. intros E.
  destruct (String.eqb w ""); [discriminate|].
  pose proof (strip_commas_count w E) as Dw.
  destruct (strip_commas w) as [|c D]; [discriminate|].
  rewrite (parseFloat_digits (String c D)) by (assumption || discriminate).
  intros H. apply Some_inj in H. subst q.
  exists (Z.of_N (dval (String c D) 0)). split; [lia|].
  apply Qred_whole.
Qed.

Lemma parsed_group (mt : mresult) (q : Q) :
  parseNumber (group mt 1) = Some q -> exists w, group mt 1 = Some w.
Proof. destruct (group mt 1) as [w|]; [eauto | discriminate]. Qed.

Ltac one_group lemma :=
  repeat constructor; intros b Hb; vm_compute in Hb;
  repeat (destruct Hb as [<-|Hb]; [intros w Hw; apply lemma; exact Hw|]);
  destruct Hb.

Lemma pricePatterns_amount : Forall (captures 1 is_amount) pricePatterns.
Proof. one_group lang_amount. Qed.

Lemma stopLossPatterns_amount : Forall (captures 1 is_amount) stopLossPatterns.
Proof. one_group lang_amount. Qed.

Lemma takeProfitPatterns_amount : Forall (captures 1 is_amount) takeProfitPatterns.
Proof. one_group lang_amount. Qed.

Lemma breakEvenPatterns_amount : Forall (captures 1 is_amount) breakEvenPatterns.
Proof. one_group lang_amount. Qed.

Lemma quantityPatterns_count : Forall (captures 1 is_count) quantityPatterns.
Proof. one_group lang_count. Qed.

Lemma positionSizePatterns_count : Forall (captures 1 is_count) positionSizePatterns.
Proof. one_group lang_count. Qed.

(** ** The stages that read an amount *)

Section AmountStages.

Variable text : string.

Lemma captured_cents p mt q :
  captures 1 is_amount p -> Regex.exec p text = Some mt ->
  parseNumber (group mt 1) = Some q -> cents q.
Proof.
  intros G E P. destruct (parsed_group _ _ P) as [w Hw].
  rewrite Hw in P. eapply parseNumber_amount; [|exact P].
  eapply exec_captures; eassumption.
Qed.

Lemma captured_whole p mt q :
  captures 1 is_count p -> Regex.exec p text = Some mt ->
  parseNumber (group mt 1) = Some q -> whole q.
Proof.
  intros G E P. destruct (parsed_group _ _ P) as [w Hw].
  rewrite Hw in P. eapply parseNumber_count; [|exact P].
  eapply exec_captures; eassumption.
Qed.

Lemma price_loop_cents l trade q :
  Forall (captures 1 is_amount) l ->
  (forall q', obj_get "price" trade = VNum q' -> cents q') ->
  obj_get "price" (price_loop text l trade) = VNum q -> cents q.
Proof.
  intros F B. induction F as [|p l G _ IH]; simpl; [apply B|].
  destruct (Regex.exec p text) as [mt|] eqn:E; [|exact IH].
  destruct (negb _); [|exact IH].
  destruct (parseNumber (group mt 1)) as [v|] eqn:P; [|exact IH].
  rewrite obj_get_set_same. intros H. injection H as <-.
  eapply captured_cents; eassumption.
Qed.

Lemma level_loop_cents field l trade q :
  Forall (captures 1 is_amount) l ->
  (forall q', obj_get field trade = VNum q' -> cents q') ->
  obj_get field (level_loop field text l trade) = VNum q -> cents q.
Proof.
  intros F B. induction F as [|p l G _ IH]; simpl; [apply B|].
  destruct (Regex.exec p text) as [mt|] eqn:E; [|exact IH].
  destruct (parseNumber (group mt 1)) as [v|] eqn:P; [|exact IH].
  rewrite obj_get_set_same. intros H. injection H as <-.
  eapply captured_cents; eassumption.
Qed.

Lemma breakeven_loop_cents l trade q :
  Forall (captures 1 is_amount) l ->
  (forall q', obj_get "breakEven" trade = VNum q' -> cents q') ->
  obj_get "breakEven" (breakeven_loop text l trade) = VNum q -> cents q.
Proof.
  intros F B. induction F as [|p l G _ IH]; simpl; [apply B|].
  destruct (Regex.exec p text) as [mt|] eqn:E; [|exact IH].
  destruct (truthy _).
  - destruct (parseNumber (group mt 1)) as [v|] eqn:P; [|exact IH].
    rewrite obj_get_set_same. intros H. injection H as <-.
    eapply captured_cents; eassumption.
  - rewrite obj_get_set_same. discriminate.
Qed.

Lemma quantity_loop_whole l trade q :
  Forall (captures 1 is_count) l ->
  (forall q', obj_get "quantity" trade = VNum q' -> whole q') ->
  obj_get "quantity" (quantity_loop text l trade) = VNum q -> whole q.
Proof.
  intros F B. induction F as [|p l G _ IH]; simpl; [apply B|].
  destruct (Regex.exec p text) as [mt|] eqn:E; [|exact IH].
  destruct (parseNumber (group mt 1)) as [v|] eqn:P; [|exact IH].
  destruct (_ && _); [|exact IH].
  rewrite obj_get_set_same. intros H. injection H as <-.
  eapply captured_whole; eassumption.
Qed.

Lemma position_loop_whole l trade q :
  Forall (captures 1 is_count) l ->
  (forall q', obj_get "positionSize" trade = VNum q' -> whole q') ->
  obj_get "positionSize" (position_loop text l trade) = VNum q -> whole q.
Proof.
  intros F B. induction F as [|p l G _ IH]; simpl; [apply B|].
  destruct (Regex.exec p text) as [mt|] eqn:E; [|exact IH].
  destruct (parseNumber (group mt 1)) as [v|] eqn:P; [|exact IH].
  destruct (_ && _); [|exact IH].
  rewrite obj_get_set_same. intros H. injection H as <-.
  eapply captured_whole; eassumption.
Qed.

End AmountStages.

Ltac unset_before U :=
  let q := fresh "q" in
  let E := fresh "E" in
  intros q; unfold before_ticker in U |- *; repeat frame_step;
  change (obj_get ?k initial_trade) with VNull;
  intros E; discriminate E.

Lemma detect_amounts (s : string) (trade : object) (k : string) (q : Q) :
  detect s = Ret trade ->
  In k ["price"; "stopLoss"; "takeProfit"; "breakEven"] ->
  obj_get k trade = VNum q -> cents q.
Proof.
  intros H Hk. apply detect_unfold in H. destruct H as [t [_ [U ->]]].
  simpl in Hk. destruct Hk as [<-|[<-|[<-|[<-|[]]]]];
    unfold after_ticker; repeat frame_step.
  - apply price_loop_cents; [apply pricePatterns_amount | unset_before U].
  - apply level_loop_cents; [apply stopLossPatterns_amount|].
    intros q'. repeat frame_step. revert q'. unset_before U.
  - apply level_loop_cents; [apply takeProfitPatterns_amount|].
    intros q'. repeat frame_step. revert q'. unset_before U.
  - apply breakeven_loop_cents; [apply breakEvenPatterns_amount|].
    intros q'. repeat frame_step. revert q'. unset_before U.
Qed.

Lemma detect_counts (s : string) (trade : object) (k : string) (q : Q) :
  detect s = Ret trade ->
  In k ["quantity"; "positionSize"] ->
  obj_get k trade = VNum q -> whole q.
Proof.
  intros H Hk. apply detect_unfold in H. destruct H as [t [_ [U ->]]].
  simpl in Hk. destruct Hk as [<-|[<-|[]]];
    unfold after_ticker; repeat frame_step.
  - apply quantity_loop_whole; [apply quantityPatterns_count|].
    intros q'. repeat frame_step. revert q'. unset_before U.
  - apply position_loop_whole; [apply positionSizePatterns_count|].
    intros q'. repeat frame_step. revert q'. unset_before U.
Qed.

Lemma record_field_detected (s : string) (r : object) (k : string) (q : Q) :
  extract s = Ret (Some r) -> obj_get k r = VNum q ->
  exists trade, detect s = Ret trade /\ obj_get k trade = VNum q.
Proof.
  intros H E. destruct (record_origin _ _ H) as [trade [D [_ [_ [_ [_ G]]]]]].
  exists trade. split; [assumption|]. rewrite G in E.
  destruct (is_empty (obj_get k trade)); [discriminate | assumption].
Qed.

Lemma cents_exact (q : Q) :
  cents q -> (0 <= q)%Q /\ parseNumber (Some (formatNumber q)) = Some q.
Proof.
  intros [z [Hz ->]]. split.
  - rewrite Qred_correct. unfold Qle. simpl. lia.
  - rewrite format_parse. f_equal.
    transitivity (Qred (Qred (z # 100))).
    + apply Qred_complete.
      apply hundredths_exact with (z := z). apply Qred_correct.
    + apply Qred_complete. apply Qred_correct.
Qed.

(** X18.  The amounts of a record are shown exactly: the price, the stop
    loss, the take profit and a numeric break-even of a record, when below
    ten trillion, are non-negative numbers with at most two decimals, so
    the text [formatNumber] writes for them in the summary reads back,
    with [parseNumber], as the very same number.  (From ten trillion on a
    double no longer holds the cents, and a text of more than 308 digits
    overflows to Infinity: those amounts are outside the statement.) *)
Theorem X18_amounts_shown_exactly (s : string) (r : object) (k : string) (q : Q) :
  extract s = Ret (Some r) ->
  In k ["price"; "stopLoss"; "takeProfit"; "breakEven"] ->
  obj_get k r = VNum q ->
  (q < 10000000000000 # 1)%Q ->
  (0 <= q)%Q /\
  plain_amount q /\
  parseNumber (Some (formatNumber q)) = Some q.
Proof.
  intros H Hk E B.
  destruct (record_field_detected _ _ _ _ H E) as [trade [D Et]].
  pose proof (detect_amounts _ _ _ _ D Hk Et) as C.
  destruct (cents_exact _ C) as [P R].
  split; [assumption|]. split; [|assumption].
  split; [|split; [|assumption]].
  - destruct C as [z [_ ->]]. exists z. apply Qred_correct.
  - apply Qlt_le_trans with 0%Q; [reflexivity | assumption].
Qed.

(** X19.  The quantity and the position size of a record are whole
    numbers: their patterns capture digits and commas only. *)
Theorem X19_counts_are_whole (s : string) (r : object) (k : string) (q : Q) :
  extract s = Ret (Some r) ->
  In k ["quantity"; "positionSize"] ->
  obj_get k r = VNum q ->
  exists z, (0 <= z)%Z /\ q = inject_Z z.
Proof.
  intros H Hk E.
  destruct (record_field_detected _ _ _ _ H E) as [trade [D Et]].
  exact (detect_counts _ _ _ _ D Hk Et).
Qed.

Lemma X18_witness :
  extract "Long NVDA, entry 1,234.5, target 1300"
  = Ret (Some [("ticker", VStr "NVDA"); ("action", VStr "buy");
               ("price", VNum (2469 # 2)); ("takeProfit", n_ 1300);
               ("tradeType", VStr "long")]) /\
  formatNumber (2469 # 2) = "1,234.5" /\
  parseNumber (Some (formatNumber (2469 # 2))) = Some (2469 # 2).
Proof.
  assert (H : extract "Long NVDA, entry 1,234.5, target 1300"
              = Ret (Some [("ticker", VStr "NVDA"); ("action", VStr "buy");
                           ("price", VNum (2469 # 2)); ("takeProfit", n_ 1300);
                           ("tradeType", VStr "long")]))
    by (vm_compute; reflexivity).
  split; [exact H|]. split; [vm_compute; reflexivity|].
  exact (proj2 (proj2 (X18_amounts_shown_exactly _ _ "price" (2469 # 2) H
                         (or_introl eq_refl) eq_refl eq_refl))).
Defined.

Lemma X19_witness :
  extract "Buy 1,500 shares of AAPL"
  = Ret (Some [("ticker", VStr "AAPL"); ("action", VStr "buy");
               ("quantity", n_ 1500); ("price", n_ 1500);
               ("tradeType", VStr "long")]) /\
  exists z, (0 <= z)%Z /\ of_Z 1500 = inject_Z z.
Proof.
  assert (H : extract "Buy 1,500 shares of AAPL"
              = Ret (Some [("ticker", VStr "AAPL"); ("action", VStr "buy");
                           ("quantity", n_ 1500); ("price", n_ 1500);
                           ("tradeType", VStr "long")]))
    by (vm_compute; reflexivity).
  split; [exact H|].
  exact (X19_counts_are_whole _ _ "quantity" (of_Z 1500) H
           (or_introl eq_refl) eq_refl).
Defined.

(** * The risk/reward ratio *)

Lemma abs_diff_sym (a b : Q) :
  PriceLevelChart.abs_diff a b = PriceLevelChart.abs_diff b a.
Proof.
  unfold PriceLevelChart.abs_diff. cbv zeta.
  pose proof (Qred_correct (a - b)) as Eab.
  pose proof (Qred_correct (b - a)) as Eba.
  remember (Qred (a - b)) as p eqn:Hp.
  remember (Qred (b - a)) as r eqn:Hr.
  assert (Opp : (r == - p)%Q) by (rewrite Eab, Eba; ring).
  destruct p as [pn pd], r as [rn rd]. rewrite !ltb_zero_sign.
  unfold Qeq in Opp. cbn [Qnum Qden Qopp] in Opp.
  destruct (Z.ltb_spec pn 0) as [P|P], (Z.ltb_spec rn 0) as [R|R].
  - exfalso. nia.
  - rewrite Hr. apply Qred_complete. rewrite Eab. ring.
  - rewrite Hp. apply Qred_complete. rewrite Eba. ring.
  - rewrite Hp, Hr. apply Qred_complete.
    rewrite <- Eab, <- Eba. unfold Qeq. cbn [Qnum Qden]. nia.
Qed.

(** X20.  The [action] argument of [calculateRiskReward] has no effect: the
    ratio drawn for a trade is the same whether it is a buy or a sell,
    because both branches take absolute distances from the entry. *)
Theorem X20_risk_reward_ignores_action (entry stopLoss takeProfit : Q)
    (action1 action2 : value) :
  PriceLevelChart.calculateRiskReward entry stopLoss takeProfit action1
  = PriceLevelChart.calculateRiskReward entry stopLoss takeProfit action2.
Proof.
  unfold PriceLevelChart.calculateRiskReward. cbv zeta.
  destruct (is_str action1 "buy"), (is_str action2 "buy"); try reflexivity.
  - now rewrite (abs_diff_sym entry stopLoss), (abs_diff_sym takeProfit entry).
  - now rewrite (abs_diff_sym stopLoss entry), (abs_diff_sym entry takeProfit).
Qed.

(** * The ticker cascade, tier by tier *)

(** ** What each tier writes when its test succeeds *)








(** ** The order of the tiers *)






Section Tiers.

Variable u : string.
Variable trade : object.
Hypothesis unset : found trade = false.





End Tiers.





(** ** From the tiers to the record *)






